(** * rest-api-specs-scripts: result repair, triage and dual-run flows

    A shallow embedding of the three flows of the package
    - the breaking-change flow ([runOad], [runScript] of the OpenAPI diff script),
    - the linter dual-run flow ([getLinterResult], [runTools], [updateResult],
      [runScript] of the momentOfTruth script),
    - the model-validation flow ([main] of [modelValidationPipeline.ts]),
    together with the JavaScript built-ins they rely on
    ([String.prototype.replace] with the three regular expressions of the
    scripts, [trim], [indexOf], [substring], [JSON.parse],
    [Array.prototype.sort]).

    Text is a [string] holding the UTF-8 bytes of the JavaScript string. *)

From Stdlib Require Import ZArith Ascii String List Lia Bool.
From Stdlib Require Import Sorting.Sorted Sorting.Permutation.
From stdpp Require Import base option list strings pretty gmap fin_maps.

Local Open Scope string_scope.
Local Open Scope list_scope.
Local Open Scope nat_scope.

(* ===================================================================== *)
(** * JavaScript strings and the regular expressions of the scripts *)
(* ===================================================================== *)

Module JsString.

Definition bytes (l : list nat) : string :=
  string_of_list_ascii (map ascii_of_nat l).

(** [WhiteSpace] and [LineTerminator] code points (the class [\s], which is
    also what [trim] removes), as UTF-8 byte sequences:
    TAB LF VT FF CR SP, U+00A0, U+1680, U+2000..U+200A, U+2028, U+2029,
    U+202F, U+205F, U+3000, U+FEFF. *)
Definition whiteSpaces : list string :=
  [ bytes [9]; bytes [10]; bytes [11]; bytes [12]; bytes [13]; bytes [32];
    bytes [194; 160]; bytes [225; 154; 128];
    bytes [226; 128; 128]; bytes [226; 128; 129]; bytes [226; 128; 130];
    bytes [226; 128; 131]; bytes [226; 128; 132]; bytes [226; 128; 133];
    bytes [226; 128; 134]; bytes [226; 128; 135]; bytes [226; 128; 136];
    bytes [226; 128; 137]; bytes [226; 128; 138];
    bytes [226; 128; 168]; bytes [226; 128; 169]; bytes [226; 128; 175];
    bytes [226; 129; 159]; bytes [227; 128; 128]; bytes [239; 187; 191] ].

(** Line terminators LF, CR, U+2028, U+2029: what [.] does not match. *)
Definition lineTerminators : list string :=
  [ bytes [10]; bytes [13]; bytes [226; 128; 168]; bytes [226; 128; 169] ].

(** A matcher consumes a prefix of the text and returns what follows it. *)
Definition matcher := string -> option string.

(** A literal: [lit p s] is the text after the prefix [p] of [s]. *)
Fixpoint lit (p s : string) : option string :=
  match p with
  | EmptyString => Some s
  | String a p' =>
      match s with
      | String b s' => if Ascii.eqb a b then lit p' s' else None
      | EmptyString => None
      end
  end.

(** One of several literals (a character class given by its encodings). *)
Fixpoint oneOf (alts : list string) (s : string) : option string :=
  match alts with
  | [] => None
  | p :: alts' =>
      match lit p s with
      | Some r => Some r
      | None => oneOf alts' s
      end
  end.

(** [\s] *)
Definition space : matcher := oneOf whiteSpaces.

(** [.]: any character but a line terminator. *)
Definition dot : matcher := fun s =>
  match oneOf lineTerminators s with
  | Some _ => None
  | None => match s with
            | String _ r => Some r
            | EmptyString => None
            end
  end.

(** Sequencing of matchers. *)
Definition andThen (p k : matcher) : matcher := fun s =>
  match p s with
  | Some r => k r
  | None => None
  end.

(** Greedy [p*] followed by [k], with backtracking: take [p] as often as
    possible, give back one at a time until [k] matches. [n] bounds the
    number of repetitions; the length of the text is always enough, as the
    [p] used here consume at least one byte. *)
Fixpoint starN (n : nat) (p k : matcher) (s : string) : option string :=
  match n with
  | O => k s
  | S n' =>
      match p s with
      | Some r =>
          match starN n' p k r with
          | Some out => Some out
          | None => k s
          end
      | None => k s
      end
  end.

Definition star (p k : matcher) : matcher := fun s =>
  starN (String.length s) p k s.

(** [p+] followed by [k]. *)
Definition plus (p k : matcher) : matcher := andThen p (star p k).

(** [s.replace(re, by)] for a global regular expression [re] that matches
    no empty text: scan from the left; at a match emit [by] and go on
    after the match, otherwise keep the character and move one on. *)
Fixpoint replaceN (n : nat) (re : matcher) (by_ : string) (s : string) : string :=
  match n with
  | O => s
  | S n' =>
      match s with
      | EmptyString => EmptyString
      | String c r =>
          match re s with
          | Some rest => by_ +:+ replaceN n' re by_ rest
          | None => String c (replaceN n' re by_ r)
          end
      end
  end.

Definition replaceAll (re : matcher) (by_ : string) (s : string) : string :=
  replaceN (String.length s) re by_ s.

(** [/}\s+{/gi] (breaking-change script). *)
Definition reBraceGap : matcher :=
  andThen (lit "}") (plus space (lit "{")).

(** [/Processing batch task - {.*} \.\n/g] (linter script). *)
Definition reBatchTask : matcher :=
  andThen (lit "Processing batch task - {")
          (star dot (lit ("} ." +:+ bytes [10]))).

(** [/\}\n\{/g] (linter script). *)
Definition reBraceNewline : matcher :=
  lit ("}" +:+ bytes [10] +:+ "{").

(** [s.indexOf(c)] for a one-character [c]: the position of its first
    occurrence, or -1. *)
Fixpoint indexOfFrom (c : ascii) (s : string) (i : Z) : Z :=
  match s with
  | EmptyString => (-1)%Z
  | String b r => if Ascii.eqb b c then i else indexOfFrom c r (i + 1)%Z
  end.

Definition indexOf (c : ascii) (s : string) : Z := indexOfFrom c s 0%Z.

(** [s.includes(p)], that is [s.indexOf(p) !== -1], for a text [p]. *)
Fixpoint includes (p s : string) : bool :=
  match lit p s with
  | Some _ => true
  | None => match s with
            | EmptyString => false
            | String _ r => includes p r
            end
  end.

Fixpoint dropN (n : nat) (s : string) : string :=
  match n, s with
  | S n', String _ r => dropN n' r
  | _, _ => s
  end.

(** [s.substring(start)]: a negative [start] counts as 0, one beyond the
    end gives the empty text. *)
Definition substring (start : Z) (s : string) : string :=
  dropN (Z.to_nat (Z.max 0 start)) s.

(** Removal of every leading member of a class. *)
Fixpoint stripN (n : nat) (alts : list string) (s : string) : string :=
  match n with
  | O => s
  | S n' =>
      match oneOf alts s with
      | Some r => stripN n' alts r
      | None => s
      end
  end.

Definition trimStart (s : string) : string :=
  stripN (String.length s) whiteSpaces s.

Definition trimEnd (s : string) : string :=
  String.rev (stripN (String.length s) (map String.rev whiteSpaces) (String.rev s)).

(** [s.trim()] *)
Definition trim (s : string) : string := trimEnd (trimStart s).

(** [!s.trim().length] *)
Definition isBlank (s : string) : bool :=
  match trim s with
  | EmptyString => true
  | _ => false
  end.

(** A matcher that consumes at least one byte, and one that gives back no
    more than it was given. *)
Definition consuming (re : matcher) : Prop :=
  forall s r, re s = Some r -> String.length r < String.length s.

Definition nonIncreasing (re : matcher) : Prop :=
  forall s r, re s = Some r -> String.length r <= String.length s.

(** A non-empty run of white space. *)
Definition joinTokens (l : list string) : string :=
  fold_right String.append EmptyString l.

Definition isGap (ws : string) : Prop :=
  exists t tokens,
    Forall (fun w => In w whiteSpaces) (t :: tokens) /\ ws = joinTokens (t :: tokens).

(** Characters and texts that cannot be written inside a literal. *)
Definition dquote : ascii := ascii_of_nat 34.
Definition backslash : ascii := ascii_of_nat 92.
Definition dq : string := String dquote EmptyString.
Definition nl : string := bytes [10].

End JsString.


(* ===================================================================== *)
(** * JSON values and [JSON.parse] *)
(* ===================================================================== *)

Module Json.
Import JsString.
Local Set Warnings "-register-all".

(** A parsed value. A number keeps its lexeme; the members of an object are
    in source order (a later member of the same name wins on lookup). *)
Inductive json : Type :=
| JNull
| JBool (b : bool)
| JNumber (lexeme : string)
| JString (s : string)
| JArray (items : list json)
| JObject (members : list (string * json)).

Inductive parsed (A : Type) : Type :=
| Parsed (a : A) (rest : string)
| SyntaxError
| OutOfFuel.
Arguments Parsed {A} a rest.
Arguments SyntaxError {A}.
Arguments OutOfFuel {A}.

(** What is left after a value is no longer than the text. *)
Definition restLe {A : Type} (s : string) (p : parsed A) : Prop :=
  match p with
  | Parsed _ r => String.length r <= String.length s
  | _ => True
  end.

Definition pmap {A B : Type} (f : A -> B) (p : parsed A) : parsed B :=
  match p with
  | Parsed a r => Parsed (f a) r
  | SyntaxError => SyntaxError
  | OutOfFuel => OutOfFuel
  end.

Definition isJsonWs (c : ascii) : bool :=
  let n := nat_of_ascii c in
  (n =? 32) || (n =? 9) || (n =? 10) || (n =? 13).

Fixpoint skipWs (s : string) : string :=
  match s with
  | String c r => if isJsonWs c then skipWs r else s
  | EmptyString => EmptyString
  end.

Definition isDigit (c : ascii) : bool :=
  let n := nat_of_ascii c in (48 <=? n) && (n <=? 57).

Fixpoint spanDigits (s : string) : string * string :=
  match s with
  | String c r =>
      if isDigit c
      then let '(ds, rest) := spanDigits r in (String c ds, rest)
      else (EmptyString, s)
  | EmptyString => (EmptyString, EmptyString)
  end.

(** One or more digits. *)
Definition digits1 (s : string) : option (string * string) :=
  match spanDigits s with
  | (EmptyString, _) => None
  | (ds, rest) => Some (ds, rest)
  end.

(** [int]: a single 0, or a non-zero digit followed by digits. *)
Definition parseInt (s : string) : option (string * string) :=
  match s with
  | String c r =>
      if Ascii.eqb c "0" then Some ("0", r)
      else if isDigit c
           then let '(ds, rest) := spanDigits r in Some (String c ds, rest)
           else None
  | EmptyString => None
  end.

(** [frac]: nothing, or a point followed by one or more digits. *)
Definition parseFrac (s : string) : option (string * string) :=
  match s with
  | String c r =>
      if Ascii.eqb c "."
      then match digits1 r with
           | Some (ds, rest) => Some (String c ds, rest)
           | None => None
           end
      else Some (EmptyString, s)
  | EmptyString => Some (EmptyString, s)
  end.

(** [exp]: nothing, or e or E, an optional sign, one or more digits. *)
Definition parseExp (s : string) : option (string * string) :=
  match s with
  | String c r =>
      if Ascii.eqb c "e" || Ascii.eqb c "E"
      then match r with
           | String sg r' =>
               if Ascii.eqb sg "+" || Ascii.eqb sg "-"
               then match digits1 r' with
                    | Some (ds, rest) => Some (String c (String sg ds), rest)
                    | None => None
                    end
               else match digits1 r with
                    | Some (ds, rest) => Some (String c ds, rest)
                    | None => None
                    end
           | EmptyString => None
           end
      else Some (EmptyString, s)
  | EmptyString => Some (EmptyString, s)
  end.

Definition parseUnsigned (s : string) : parsed string :=
  match parseInt s with
  | Some (i, r1) =>
      match parseFrac r1 with
      | Some (f, r2) =>
          match parseExp r2 with
          | Some (e, r3) => Parsed (i +:+ f +:+ e) r3
          | None => SyntaxError
          end
      | None => SyntaxError
      end
  | None => SyntaxError
  end.

Definition parseNumber (s : string) : parsed string :=
  match s with
  | String c r =>
      if Ascii.eqb c "-"
      then pmap (String c) (parseUnsigned r)
      else parseUnsigned s
  | EmptyString => SyntaxError
  end.

Definition hexVal (c : ascii) : option nat :=
  let n := nat_of_ascii c in
  if (48 <=? n) && (n <=? 57) then Some (n - 48)
  else if (97 <=? n) && (n <=? 102) then Some (n - 87)
  else if (65 <=? n) && (n <=? 70) then Some (n - 55)
  else None.

Definition hex4 (a b c d : ascii) : option nat :=
  match hexVal a, hexVal b, hexVal c, hexVal d with
  | Some x, Some y, Some z, Some w => Some (((x * 16 + y) * 16 + z) * 16 + w)
  | _, _, _, _ => None
  end.

(** UTF-8 bytes of a 16-bit code unit. *)
Definition utf8 (n : nat) : string :=
  if n <? 128 then bytes [n]
  else if n <? 2048 then bytes [192 + n / 64; 128 + n mod 64]
  else bytes [224 + n / 4096; 128 + (n / 64) mod 64; 128 + n mod 64].

Definition escape (e : ascii) : option string :=
  if Ascii.eqb e dquote then Some dq
  else if Ascii.eqb e backslash then Some (String backslash EmptyString)
  else if Ascii.eqb e "/" then Some "/"
  else if Ascii.eqb e "b" then Some (bytes [8])
  else if Ascii.eqb e "f" then Some (bytes [12])
  else if Ascii.eqb e "n" then Some (bytes [10])
  else if Ascii.eqb e "r" then Some (bytes [13])
  else if Ascii.eqb e "t" then Some (bytes [9])
  else None.

(** The characters of a string after its opening quote, up to and
    including the closing quote. *)
Fixpoint parseChars (s : string) : parsed string :=
  match s with
  | EmptyString => SyntaxError
  | String c r =>
      if Ascii.eqb c dquote then Parsed EmptyString r
      else if Ascii.eqb c backslash then
        match r with
        | String e r' =>
            if Ascii.eqb e "u" then
              match r' with
              | String h1 (String h2 (String h3 (String h4 r''))) =>
                  match hex4 h1 h2 h3 h4 with
                  | Some n => pmap (String.append (utf8 n)) (parseChars r'')
                  | None => SyntaxError
                  end
              | _ => SyntaxError
              end
            else
              match escape e with
              | Some t => pmap (String.append t) (parseChars r')
              | None => SyntaxError
              end
        | EmptyString => SyntaxError
        end
      else if nat_of_ascii c <? 32 then SyntaxError
      else pmap (String c) (parseChars r)
  end.

Definition parseLiteral (word : string) (v : json) (s : string) : parsed json :=
  match lit word s with
  | Some r => Parsed v r
  | None => SyntaxError
  end.

(** Recursive descent. Each call on a text of length [n] needs at most
    [2 * n + 2] units of [fuel] (see [JSON_parse_fuel]). *)
Fixpoint parseValue (fuel : nat) (s : string) : parsed json :=
  match fuel with
  | O => OutOfFuel
  | S f =>
      match skipWs s with
      | EmptyString => SyntaxError
      | String c r =>
          if Ascii.eqb c "[" then
            match skipWs r with
            | String c' r' =>
                if Ascii.eqb c' "]" then Parsed (JArray []) r'
                else pmap JArray (parseElements f r)
            | EmptyString => SyntaxError
            end
          else if Ascii.eqb c "{" then
            match skipWs r with
            | String c' r' =>
                if Ascii.eqb c' "}" then Parsed (JObject []) r'
                else pmap JObject (parseMembers f r)
            | EmptyString => SyntaxError
            end
          else if Ascii.eqb c dquote then pmap JString (parseChars r)
          else if Ascii.eqb c "-" || isDigit c
               then pmap JNumber (parseNumber (String c r))
          else if Ascii.eqb c "t" then parseLiteral "true" (JBool true) (String c r)
          else if Ascii.eqb c "f" then parseLiteral "false" (JBool false) (String c r)
          else if Ascii.eqb c "n" then parseLiteral "null" JNull (String c r)
          else SyntaxError
      end
  end
with parseElements (fuel : nat) (s : string) : parsed (list json) :=
  match fuel with
  | O => OutOfFuel
  | S f =>
      match parseValue f s with
      | Parsed v r =>
          match skipWs r with
          | String c r' =>
              if Ascii.eqb c "," then pmap (cons v) (parseElements f r')
              else if Ascii.eqb c "]" then Parsed [v] r'
              else SyntaxError
          | EmptyString => SyntaxError
          end
      | SyntaxError => SyntaxError
      | OutOfFuel => OutOfFuel
      end
  end
with parseMembers (fuel : nat) (s : string) : parsed (list (string * json)) :=
  match fuel with
  | O => OutOfFuel
  | S f =>
      match skipWs s with
      | String q r =>
          if Ascii.eqb q dquote then
            match parseChars r with
            | Parsed k r1 =>
                match skipWs r1 with
                | String c r2 =>
                    if Ascii.eqb c ":" then
                      match parseValue f r2 with
                      | Parsed v r3 =>
                          match skipWs r3 with
                          | String c' r4 =>
                              if Ascii.eqb c' ","
                              then pmap (cons (k, v)) (parseMembers f r4)
                              else if Ascii.eqb c' "}" then Parsed [(k, v)] r4
                              else SyntaxError
                          | EmptyString => SyntaxError
                          end
                      | SyntaxError => SyntaxError
                      | OutOfFuel => OutOfFuel
                      end
                    else SyntaxError
                | EmptyString => SyntaxError
                end
            | SyntaxError => SyntaxError
            | OutOfFuel => OutOfFuel
            end
          else SyntaxError
      | EmptyString => SyntaxError
      end
  end.

Definition parseText (s : string) : parsed json :=
  match parseValue (2 * String.length s + 2) s with
  | Parsed v r =>
      match skipWs r with
      | EmptyString => Parsed v EmptyString
      | _ => SyntaxError
      end
  | SyntaxError => SyntaxError
  | OutOfFuel => OutOfFuel
  end.

(** [JSON.parse(text)]: the value, or [None] when it throws a
    [SyntaxError]. *)
Definition JSON_parse (s : string) : option json :=
  match parseText s with
  | Parsed v _ => Some v
  | _ => None
  end.

(** [v[name]] on an object: the last member of that name. *)
Fixpoint member (name : string) (ms : list (string * json)) : option json :=
  match ms with
  | [] => None
  | (k, v) :: ms' =>
      match member name ms' with
      | Some v' => Some v'
      | None => if String.eqb k name then Some v else None
      end
  end.

End Json.


(* ===================================================================== *)
(** * Results of a call: a value, an exception, or the end of the process *)
(* ===================================================================== *)

Module Js.

Inductive error : Type :=
| ErrorMsg (msg : string)       (* new Error(msg) *)
| SyntaxErr                     (* thrown by JSON.parse *)
| TypeErr                       (* property access on undefined *)
| Rejected (reason : string).   (* failure raised by an external tool *)

Inductive outcome (A : Type) : Type :=
| Ok (a : A)
| Throw (e : error)
| Exit (code : Z).              (* process.exit(code) *)
Arguments Ok {A} a.
Arguments Throw {A} e.
Arguments Exit {A} code.

(** Truth of a value that is an object, null or undefined. *)
Definition present {A : Type} (o : option A) : bool :=
  match o with
  | Some _ => true
  | None => false
  end.

(** [array.includes(s)] on an array of strings. *)
Definition arrayIncludes (l : list string) (s : string) : bool :=
  existsb (String.eqb s) l.

(** [Array.prototype.sort(comparefn)]: the stable sort (ECMAScript 2019,
    V8 from 7.0) by a comparison function: [a] goes after [b] when
    [comparefn(a, b) > 0]. Written as an insertion sort. It stands for the
    sort of the engine only where [comparefn] is consistent on the elements
    of the array: there every stable sort gives this result (lemma
    [stable_sorted_unique]); where it is not, the arrangement is the
    engine's own and only the elements are known. *)
Fixpoint insertBy {A : Type} (cmp : A -> A -> Z) (x : A) (l : list A) : list A :=
  match l with
  | [] => [x]
  | y :: l' => if (0 <? cmp x y)%Z then y :: insertBy cmp x l' else x :: y :: l'
  end.

Fixpoint sortBy {A : Type} (cmp : A -> A -> Z) (l : list A) : list A :=
  match l with
  | [] => []
  | x :: l' => insertBy cmp x (sortBy cmp l')
  end.

(** [for (const x of xs) { await body(x) }] over a state [S]: the loop
    stops at the first body that does not return. *)
Fixpoint forEach {S A : Type} (body : A -> S -> outcome unit * S)
    (xs : list A) (st : S) : outcome unit * S :=
  match xs with
  | [] => (Ok tt, st)
  | x :: rest =>
      match body x st with
      | (Ok _, st') => forEach body rest st'
      | (o, st') => (o, st')
      end
  end.

End Js.

(* ===================================================================== *)
(** * The breaking-change flow (OpenAPI diff script) *)
(* ===================================================================== *)

Module BreakingChange.
Import JsString Json Js.

(** [type Diff]. The diff tool reports [type] as one of the texts Info,
    Warning and Error, and the script only ever compares it with texts:
    [unknown] is narrowed to a text. *)
Record Diff : Type := mkDiff {
  type : string;
  id : string;
  code : string;
  message : string
}.

(** [JSON.parse] returns [any], which the script uses as [Diff[]] without
    a check. A member that is absent or not a text reads as the empty
    text, which equals none of the texts the script tests for. *)
Definition field (name : string) (v : json) : string :=
  match v with
  | JObject ms =>
      match member name ms with
      | Some (JString s) => s
      | _ => EmptyString
      end
  | _ => EmptyString
  end.

Definition asDiff (v : json) : Diff :=
  {| type := field "type" v; id := field "id" v;
     code := field "code" v; message := field "message" v |}.

Definition asDiffs (v : json) : list Diff :=
  match v with
  | JArray items => map asDiff items
  | _ => []
  end.

(** The repair of [runOad]: [result.replace(/}\s+{/gi, "},{")] between
    brackets. *)
Definition repairOad (result : string) : string :=
  "[" +:+ replaceAll reBraceGap "},{" result +:+ "]".

Definition requiredMsg (param : string) : string :=
  param +:+ " is a required parameter of type " +:+ dq +:+ "string" +:+ dq
  +:+ " and it cannot be an empty string.".

(** [runOad(oldSpec, newSpec)]. [compare] is [oad.compare]; its falsy
    results are the empty text. [None] is the [undefined] returned on a
    falsy result. *)
Definition runOad (compare : string -> string -> outcome string)
    (oldSpec newSpec : string) : outcome (option (list Diff)) :=
  if isBlank oldSpec then Throw (ErrorMsg (requiredMsg "oldSpec"))
  else if isBlank newSpec then Throw (ErrorMsg (requiredMsg "newSpec"))
  else
    match compare oldSpec newSpec with
    | Ok result =>
        match result with
        | EmptyString => Ok None
        | _ =>
            match JSON_parse (repairOad result) with
            | Some v => Ok (Some (asDiffs v))
            | None => Throw SyntaxErr
            end
        end
    | Throw e => Throw e
    | Exit c => Exit c
    end.

(** What the script reads from its surroundings. *)
Record Env : Type := mkEnv {
  (* process.env.TRAVIS === 'true' *)
  isRunningInTravisCI : bool;
  (* pr !== undefined *)
  prDefined : bool;
  (* fs.existsSync inside utils.doOnTargetBranch *)
  existsOnTarget : string -> bool;
  (* whether the AutoRest command succeeds on a swagger *)
  autorest : string -> bool;
  (* path.join(swaggerOutputFolder, swaggerOutputFileNameWithoutExt + '.json') *)
  resolvedPath : string -> string;
  (* fs.readJSON: the parsed file, None on an error *)
  readJSON : string -> option json;
  (* oad.compare *)
  compare : string -> string -> outcome string;
  (* String.prototype.localeCompare *)
  localeCompare : string -> string -> Z;
  (* the comparison of sort() without a comparison function: texts by their
     UTF-16 code units *)
  compareText : string -> string -> Z
}.

(** The variables of [runScript], what its own statements have given to
    [process.exitCode], and the files whose [fs.readJSON] callback has been
    handed over: [await] does not wait for a callback, which fires at a
    time the script does not control, during a later [await] or after
    [runScript] has returned, and writes to [process.exitCode] then. *)
Record State : Type := mkState {
  resolvedMapForNewSpecs : gmap string string;
  errors : nat;
  warnings : nat;
  diffFiles : gmap string (list Diff);
  newFiles : list string;
  exitCode : option Z;
  scheduled : list string
}.

Definition initial : State :=
  {| resolvedMapForNewSpecs := ∅; errors := 0; warnings := 0;
     diffFiles := ∅; newFiles := []; exitCode := None; scheduled := [] |}.

Definition setResolved (k v : string) (st : State) : State :=
  {| resolvedMapForNewSpecs := <[k := v]> (resolvedMapForNewSpecs st);
     errors := errors st; warnings := warnings st;
     diffFiles := diffFiles st; newFiles := newFiles st;
     exitCode := exitCode st; scheduled := scheduled st |}.

Definition setExitCode (c : Z) (st : State) : State :=
  {| resolvedMapForNewSpecs := resolvedMapForNewSpecs st;
     errors := errors st; warnings := warnings st;
     diffFiles := diffFiles st; newFiles := newFiles st;
     exitCode := Some c; scheduled := scheduled st |}.

Definition pushNewFile (s : string) (st : State) : State :=
  {| resolvedMapForNewSpecs := resolvedMapForNewSpecs st;
     errors := errors st; warnings := warnings st;
     diffFiles := diffFiles st; newFiles := newFiles st ++ [s];
     exitCode := exitCode st; scheduled := scheduled st |}.

Definition setDiffs (k : string) (diffs : list Diff) (st : State) : State :=
  {| resolvedMapForNewSpecs := resolvedMapForNewSpecs st;
     errors := errors st; warnings := warnings st;
     diffFiles := <[k := diffs]> (diffFiles st); newFiles := newFiles st;
     exitCode := exitCode st; scheduled := scheduled st |}.

Definition addError (st : State) : State :=
  {| resolvedMapForNewSpecs := resolvedMapForNewSpecs st;
     errors := errors st + 1; warnings := warnings st;
     diffFiles := diffFiles st; newFiles := newFiles st;
     exitCode := exitCode st; scheduled := scheduled st |}.

Definition addWarning (st : State) : State :=
  {| resolvedMapForNewSpecs := resolvedMapForNewSpecs st;
     errors := errors st; warnings := warnings st + 1;
     diffFiles := diffFiles st; newFiles := newFiles st;
     exitCode := exitCode st; scheduled := scheduled st |}.

Definition schedule (s : string) (st : State) : State :=
  {| resolvedMapForNewSpecs := resolvedMapForNewSpecs st;
     errors := errors st; warnings := warnings st;
     diffFiles := diffFiles st; newFiles := newFiles st;
     exitCode := exitCode st; scheduled := scheduled st ++ [s] |}.

(** [newSwaggers]: the changed swaggers that do not exist on the target
    branch. *)
Definition findNewSwaggers (env : Env) (swaggersToProcess : list string) : list string :=
  if (0 <? length swaggersToProcess) && prDefined env
  then filter (fun s => negb (existsOnTarget env s) = true) swaggersToProcess
  else [].

(** [processViaAutoRest(swaggerPath)]: [true] when the resolved swagger was
    written, [false] for the [undefined] returned after a caught error. *)
Definition processViaAutoRest (env : Env) (swaggerPath : string) (st : State)
    : outcome bool * State :=
  if isBlank swaggerPath
  then (Throw (ErrorMsg (requiredMsg "swaggerPath")), st)
  else if autorest env swaggerPath
       then (Ok true, setResolved swaggerPath (resolvedPath env swaggerPath) st)
       else (Ok false, st).

(** The callback given to [fs.readJSON] after a failed AutoRest run: what
    it gives to [process.exitCode] when it fires, if anything. Reading a
    member of [null] throws inside the [try] of the callback. *)
Definition reportFailure (env : Env) (swagger : string) : option Z :=
  match readJSON env swagger with
  | None => Some 1%Z
  | Some JNull => Some 3%Z
  | Some (JObject ms) =>
      match member "swagger" ms with
      | Some (JString v) => if String.eqb v "2.0" then Some 2%Z else None
      | _ => None
      end
  | Some _ => None
  end.

(** The body of the loop that runs AutoRest on every swagger. After a
    failed run [fs.readJSON] is called with a callback: it returns at once
    and the loop goes on. *)
Definition processOne (env : Env) (newSwaggers : list string) (swagger : string)
    (st : State) : outcome unit * State :=
  if arrayIncludes newSwaggers swagger
  then (Ok tt, st)
  else
    match processViaAutoRest env swagger st with
    | (Ok true, st') => (Ok tt, st')
    | (Ok false, st') => (Ok tt, schedule swagger st')
    | (Throw e, st') => (Throw e, st')
    | (Exit c, st') => (Exit c, st')
    end.

Definition processAll (env : Env) (newSwaggers : list string)
    : list string -> State -> outcome unit * State :=
  forEach (processOne env newSwaggers).

(** The body of [for (const diff of diffs)]. *)
Definition countDiff (st : State) (diff : Diff) : State :=
  if String.eqb (type diff) "Error" then
    addError (if errors st =? 0 then setExitCode 1 st else st)
  else if String.eqb (type diff) "Warning" then addWarning st
  else st.

(** The body of the comparison loop for one swagger. *)
Definition compareOne (env : Env) (newSwaggers : list string) (swagger : string)
    (st : State) : outcome unit * State :=
  if arrayIncludes newSwaggers swagger
  then (Ok tt, pushNewFile swagger st)
  else
    match resolvedMapForNewSpecs st !! swagger with
    | Some EmptyString | None => (Ok tt, st)
    | Some resolved =>
        match runOad (compare env) swagger resolved with
        | Ok (Some diffs) => (Ok tt, fold_left countDiff diffs (setDiffs swagger diffs st))
        | Ok None => (Ok tt, st)
        | Throw e => (Throw e, st)
        | Exit c => (Exit c, st)
        end
    end.

Definition compareAll (env : Env) (newSwaggers : list string)
    : list string -> State -> outcome unit * State :=
  forEach (compareOne env newSwaggers).

(** The comparison function given to [diffs.sort]. *)
Definition compareDiffs (localeCompare : string -> string -> Z) (a b : Diff) : Z :=
  if String.eqb (type a) (type b) then localeCompare (id a) (id b)
  else if String.eqb (type a) "Error" then 1%Z
  else if String.eqb (type b) "Error" then (-1)%Z
  else if String.eqb (type a) "Warning" then 1%Z
  else (-1)%Z.

(** [diffs.sort((a, b) => ...)] *)
Definition sortDiffs (localeCompare : string -> string -> Z) (diffs : list Diff)
    : list Diff :=
  sortBy (compareDiffs localeCompare) diffs.


(** The part of the report block that changes the variables: under
    [isRunningInTravisCI], [newFiles.sort()] and, for every file of
    [diffFiles], [diffs.sort(...)], both in place. The arrangement of the
    findings is that of the engine where their types are Info, Warning and
    Error and the collation is consistent (see [sortBy]); their elements
    are the same in every case. *)
Definition report (env : Env) (st : State) : State :=
  if isRunningInTravisCI env then
    {| resolvedMapForNewSpecs := resolvedMapForNewSpecs st;
       errors := errors st; warnings := warnings st;
       diffFiles := sortDiffs (localeCompare env) <$> diffFiles st;
       newFiles := sortBy (compareText env) (newFiles st);
       exitCode := exitCode st; scheduled := scheduled st |}
  else st.

(** The two loops of [runScript]: the new swaggers, the AutoRest pass, the
    comparison pass. *)
Definition runLoops (env : Env) (swaggersToProcess : list string)
    : outcome unit * State :=
  let newSwaggers := findNewSwaggers env swaggersToProcess in
  match processAll env newSwaggers swaggersToProcess initial with
  | (Ok _, st) => compareAll env newSwaggers swaggersToProcess st
  | (o, st) => (o, st)
  end.

(** [runScript], from the list of changed swaggers on: the loops, then the
    report block. The state is the one the script has reached when it
    returns or fails. *)
Definition runScript (env : Env) (swaggersToProcess : list string)
    : outcome unit * State :=
  match runLoops env swaggersToProcess with
  | (Ok _, st) => (Ok tt, report env st)
  | (o, st) => (o, st)
  end.

End BreakingChange.

(* ===================================================================== *)
(** * The linter dual-run flow (momentOfTruth script) *)
(* ===================================================================== *)

Module Linter.
Import JsString Json Js.

Definition linterCmd : string :=
  "npx autorest --validation --azure-validator --message-format=json ".

(** What the callback of [child_process.exec] receives. *)
Record ExecResult : Type := mkExecResult {
  err : option Z;          (* the exit code of a failed command *)
  stdout : string;
  stderr : string
}.

(** The working tree: the pull request's ([None]) or a branch checked out
    by [utils.doOnBranch]. *)
Definition checkout := option string.

Record Env : Type := mkEnv {
  (* fs.existsSync(path) in a working tree *)
  existsSync : checkout -> string -> bool;
  (* the command run by exec in a working tree *)
  exec : checkout -> string -> ExecResult;
  (* utils.getTargetBranch() *)
  targetBranch : string;
  (* whether the target branch can be checked out *)
  checkoutOk : bool;
  (* fs.existsSync(logFilepath) *)
  logExists : bool
}.

(** [finalResult.files]: file, then "before" or "after", then the linter
    result. The value parsed from a bracketed text is an array; a result is
    kept as the items of that array. *)
Abbreviation Files := (gmap string (gmap string (list json))).

Inductive event : Type :=
| EvTool (swagger beforeOrAfter : string) (tree : checkout)  (* runTools entered *)
| EvExec (cmd : string) (tree : checkout)                    (* exec called *)
| EvCheckout (branch : string)
| EvRestore
| EvWrite (content : option Files).                          (* the log file written *)

Record World : Type := mkWorld {
  files : Files;
  tree : checkout;
  trace : list event
}.

Definition initial : World := {| files := ∅; tree := None; trace := [] |}.

Definition emit (e : event) (w : World) : World :=
  {| files := files w; tree := tree w; trace := trace w ++ [e] |}.

Definition setTree (t : checkout) (w : World) : World :=
  {| files := files w; tree := t; trace := trace w |}.

Definition setFiles (f : Files) (w : World) : World :=
  {| files := f; tree := tree w; trace := trace w |}.

Definition items (v : json) : list json :=
  match v with
  | JArray l => l
  | _ => []
  end.

(** The repair of [getLinterResult], on an output that contains a brace. *)
Definition repairLinter (resultString : string) : string :=
  let resultString := replaceAll reBatchTask EmptyString resultString in
  "[" +:+ replaceAll reBraceNewline ("}," +:+ nl +:+ "{")
            (trim (substring (indexOf "{" resultString) resultString))
  +:+ "]".

(** Lines 69 to 88 of [getLinterResult]: from the output of the linter to
    its result. *)
Definition parseLinterOutput (resultString : string) : outcome (list json) :=
  if negb (indexOf "{" resultString =? -1)%Z then
    match JSON_parse (repairLinter resultString) with
    | Some jsonResult => Ok (items jsonResult)
    | None => Exit 1
    end
  else Ok [].

Definition requiredMsg : string :=
  "swaggerPath is a required parameter of type " +:+ dq +:+ "string" +:+ dq
  +:+ " and it cannot be an empty string.".

(** The command given to [exec]. *)
Definition command (swaggerPath : string) : string :=
  "npx autorest --reset && " +:+ linterCmd +:+ swaggerPath.

(** [err && stderr.indexOf("Process() cancelled due to exception") !== -1] *)
Definition cancelled (r : ExecResult) : bool :=
  present (err r) && includes "Process() cancelled due to exception" (stderr r).

(** [getLinterResult(swaggerPath)]; [None] is [null] or [undefined]. *)
Definition getLinterResult (env : Env) (swaggerPath : option string) (w : World)
    : outcome (list json) * World :=
  match swaggerPath with
  | None => (Throw (ErrorMsg requiredMsg), w)
  | Some swaggerPath =>
      if isBlank swaggerPath then (Throw (ErrorMsg requiredMsg), w)
      else if negb (existsSync env (tree w) swaggerPath) then (Ok [], w)
      else
        let cmd := command swaggerPath in
        let r := exec env (tree w) cmd in
        let w := emit (EvExec cmd (tree w)) w in
        if cancelled r
        then (Throw (ErrorMsg "AutoRest failed"), w)
        else (parseLinterOutput (stdout r +:+ stderr r), w)
  end.

(** [updateResult(spec, errors, beforeOrAfter)]. The empty object stored
    under [beforeOrAfter] when that member is missing is replaced by
    [errors] in the next statement. *)
Definition updateResult (spec : string) (errors : list json) (beforeOrAfter : string)
    (w : World) : World :=
  let filesSpec := default ∅ (files w !! spec) in
  setFiles (<[spec := <[beforeOrAfter := errors]> filesSpec]> (files w)) w.

(** [runTools(swagger, beforeOrAfter)] *)
Definition runTools (env : Env) (beforeOrAfter : string) (swagger : string) (w : World)
    : outcome unit * World :=
  let w := emit (EvTool swagger beforeOrAfter (tree w)) w in
  match getLinterResult env (Some swagger) w with
  | (Ok linterErrors, w) => (Ok tt, updateResult swagger linterErrors beforeOrAfter w)
  | (Throw e, w) => (Throw e, w)
  | (Exit c, w) => (Exit c, w)
  end.

(** Modelled from the spec: [utils.doOnBranch(branch, func)], whose source
    is not part of the package's files here. It materializes the reference
    state once, runs [func] in it and restores the previous state; when the
    reference state cannot be materialized it fails
    (ReferenceStateUnavailable) without running [func]. *)
Definition doOnBranch (env : Env) (branch : string)
    (func : World -> outcome unit * World) (w : World) : outcome unit * World :=
  if checkoutOk env then
    let previous := tree w in
    match func (setTree (Some branch) (emit (EvCheckout branch) w)) with
    | (Ok r, w) => (Ok r, setTree previous (emit EvRestore w))
    | (o, w) => (o, w)
    end
  else (Throw (Rejected "ReferenceStateUnavailable"), w).

(** [createLogFile()] *)
Definition createLogFile (env : Env) (w : World) : World :=
  if negb (logExists env) then emit (EvWrite None) w else w.

(** [writeContent(JSON.stringify(finalResult, null, 2))] *)
Definition writeContent (w : World) : World := emit (EvWrite (Some (files w))) w.

(** [runScript()] *)
Definition runScript (env : Env) (configsToProcess : list string)
    : outcome unit * World :=
  let w := createLogFile env initial in
  let r :=
    if 0 <? length configsToProcess then
      match forEach (runTools env "after") configsToProcess w with
      | (Ok _, w) =>
          doOnBranch env (targetBranch env)
            (forEach (runTools env "before") configsToProcess) w
      | (o, w) => (o, w)
      end
    else (Ok tt, w) in
  match r with
  | (Ok _, w) => (Ok tt, writeContent w)
  | (o, w) => (o, w)
  end.

End Linter.

(* ===================================================================== *)
(** * The model-validation flow (modelValidationPipeline.ts) *)
(* ===================================================================== *)

Module ModelValidation.
Import JsString Json Js.

(** A position in a file (oav): the line and the column, whole numbers. *)
Record Position : Type := mkPosition { line : Z; column : Z }.

(** [it.details] *)
Record Details : Type := mkDetails {
  message : option string;
  url : option string;
  position : option Position;
  jsonUrl : option string;
  jsonPosition : option Position
}.

(** An error of [oav.getErrorsFromModelValidation]. *)
Record ModelValidationError : Type := mkError {
  code : option string;
  details : option Details;
  operationId : option string;
  scenario : option string;
  source : option string;
  responseCode : option string;
  severity : option Z
}.

Record Extra : Type := mkExtra {
  extra_operationId : option string;
  extra_scenario : option string;
  extra_source : option string;
  extra_responseCode : option string;
  extra_severity : option Z
}.

Record PathItem : Type := mkPath { tag : string; path : string }.

(** [format.ResultMessageRecord] *)
Record ResultMessageRecord : Type := mkRecord {
  rtype : string;
  level : string;
  rmessage : string;
  rcode : string;
  docUrl : string;
  time : Z;
  extra : Extra;
  paths : list PathItem
}.

(** What a call inside [try] comes to: a value or an exception. *)
Inductive result (A : Type) : Type :=
| Returns (a : A)
| Throws (e : error).
Arguments Returns {A} a.
Arguments Throws {A} e.

Record Env : Type := mkEnv {
  (* the model validator on one swagger: construction, initialize,
     validateOperations, getErrorsFromModelValidation *)
  validate : string -> result (list ModelValidationError);
  (* new Date() *)
  now : Z;
  (* String(n) on the line of a position *)
  numberToString : Z -> string;
  (* utils.blobHref, utils.getGithubStyleFilePath,
     utils.getRelativeSwaggerPathToRepo *)
  blobHref : string -> string;
  getGithubStyleFilePath : string -> string;
  getRelativeSwaggerPathToRepo : string -> string
}.

(** [a || b] on texts. *)
Definition orText (a b : string) : string :=
  match a with
  | EmptyString => b
  | _ => a
  end.

(** [a || b] on a text that may be undefined. *)
Definition orDefault (a : option string) (b : string) : string :=
  match a with
  | Some (String c r) => String c r
  | _ => b
  end.

(** Truth of a text that may be undefined. *)
Definition truthy (a : option string) : bool :=
  match a with
  | Some (String _ _) => true
  | _ => false
  end.

(** A text inside a template or a concatenation. *)
Definition show (a : option string) : string :=
  match a with
  | Some s => s
  | None => "undefined"
  end.

Definition getDocUrl (id : option string) : string :=
  "https://github.com/Azure/azure-rest-api-specs/blob/master/documentation/Semantic-and-Model-Violations-Reference.md#"
  +:+ show id.

(** The path of a location: the url, the line, and the three path
    functions of utils. *)
Definition href (env : Env) (u : option string) (p : Position) : string :=
  blobHref env
    (getGithubStyleFilePath env
       (getRelativeSwaggerPathToRepo env
          (orText (show u +:+ "#L" +:+ numberToString env (line p)) EmptyString))).

(** The first [paths.push]. *)
Definition pushUrl (env : Env) (d : Details) (ps : list PathItem) : list PathItem :=
  if truthy (url d) then
    match position d with
    | Some p => ps ++ [ {| tag := "Url"; path := href env (url d) p |} ]
    | None => ps
    end
  else ps.

(** The second [paths.push]. *)
Definition pushJsonUrl (env : Env) (d : Details) (ps : list PathItem) : list PathItem :=
  if truthy (jsonUrl d) then
    match jsonPosition d with
    | Some p => ps ++ [ {| tag := "JsonUrl"; path := href env (jsonUrl d) p |} ]
    | None => ps
    end
  else ps.

(** The function mapped over the errors; [it.details!] on an error without
    details is a TypeError. *)
Definition toResult (env : Env) (it : ModelValidationError)
    : result ResultMessageRecord :=
  match details it with
  | None => Throws TypeErr
  | Some d =>
      Returns {| rtype := "Result";
                 level := "Error";
                 rmessage := orDefault (message d) EmptyString;
                 rcode := orDefault (code it) EmptyString;
                 docUrl := getDocUrl (code it);
                 time := now env;
                 extra := {| extra_operationId := operationId it;
                             extra_scenario := scenario it;
                             extra_source := source it;
                             extra_responseCode := responseCode it;
                             extra_severity := severity it |};
                 paths := pushJsonUrl env d (pushUrl env d []) |}
  end.

(** [errors.map(...)]: the first exception ends it. *)
Fixpoint mapResults (env : Env) (errors : list ModelValidationError)
    : result (list ResultMessageRecord) :=
  match errors with
  | [] => Returns []
  | it :: rest =>
      match toResult env it with
      | Returns r =>
          match mapResults env rest with
          | Returns rs => Returns (r :: rs)
          | Throws e => Throws e
          end
      | Throws e => Throws e
      end
  end.

(** The records of one swagger: what [try] computes before it touches
    the exit code and pipe.log. *)
Definition pipelineResultDatas (env : Env) (swagger : string)
    : result (list ResultMessageRecord) :=
  match validate env swagger with
  | Returns errors => mapResults env errors
  | Throws e => Throws e
  end.

(** What [main] leaves behind: the exit code, the lines appended to
    pipe.log, and the exceptions the catch clause gave to [console.error],
    which prints no file with them. *)
Record State : Type := mkState {
  exitCode : Z;
  pipeLog : list (list ResultMessageRecord);
  caught : list error
}.

Definition initial : State := {| exitCode := 0; pipeLog := []; caught := [] |}.

(** The body of the loop: [try { ... } catch (e) { ...; exitCode = 1 }]. *)
Definition validateOne (env : Env) (st : State) (swagger : string) : State :=
  match pipelineResultDatas env swagger with
  | Returns datas =>
      {| exitCode := if 0 <? length datas then 1 else exitCode st;
         pipeLog := pipeLog st ++ [datas];
         caught := caught st |}
  | Throws e =>
      {| exitCode := 1; pipeLog := pipeLog st;
         caught := caught st ++ [e] |}
  end.

(** [main()], from the list of changed swaggers on; the exit code of the
    state is the one given to [process.exitCode]. No exception leaves the
    loop. *)
Definition main (env : Env) (swaggersToProcess : list string) : State :=
  fold_left (validateOne env) swaggersToProcess initial.

End ModelValidation.

(* ===================================================================== *)
(** * The order on findings, in the words of the specification *)
(* ===================================================================== *)

Module Spec.
Import BreakingChange.

(** The three severities of a finding of the diff tool. *)
Definition isSeverity (d : Diff) : Prop :=
  type d = "Info" \/ type d = "Warning" \/ type d = "Error".

(** Severity rank, ascending Info < Warning < Error. *)
Definition severityRank (t : string) : nat :=
  if String.eqb t "Error" then 2
  else if String.eqb t "Warning" then 1
  else 0.

(** A consistent comparison of texts, which ECMAScript requires of
    [String.prototype.localeCompare]: the order of rule ids. *)
Record Collation (localeCompare : string -> string -> Z) : Prop := mkCollation {
  collation_refl : forall a, localeCompare a a = 0%Z;
  collation_antisym : forall a b, (0 < localeCompare a b)%Z <-> (localeCompare b a < 0)%Z;
  collation_trans : forall a b c,
    (localeCompare a b <= 0)%Z -> (localeCompare b c <= 0)%Z -> (localeCompare a c <= 0)%Z
}.

(** Primary key the severity rank, secondary key the rule id. *)
Definition findingLe (localeCompare : string -> string -> Z) (a b : Diff) : Prop :=
  severityRank (type a) < severityRank (type b)
  \/ (severityRank (type a) = severityRank (type b)
      /\ (localeCompare (id a) (id b) <= 0)%Z).

(** Two findings of equal severity and equal rule id. *)
Definition sameKey (a b : Diff) : Prop :=
  type a = type b /\ id a = id b.

(** The comparison of texts by their code units, one consistent
    comparison. *)
Definition codeUnitCompare (a b : string) : Z :=
  match String.compare a b with
  | Lt => (-1)%Z
  | Eq => 0%Z
  | Gt => 1%Z
  end.

(** The number of findings of one severity in a sequence, and its sum over
    the files of a report. *)
Definition countSeverity (t : string) (diffs : list Diff) : nat :=
  length (filter (fun d => type d = t) diffs).

Definition totalOf (t : string) (report : gmap string (list Diff)) : nat :=
  map_fold (fun _ diffs n => n + countSeverity t diffs) 0 report.

(** NewFileSet: the changed paths that are absent from the target branch. *)
Definition newFileSet (existsOnTarget : string -> bool) (changed : list string)
    : list string :=
  filter (fun s => existsOnTarget s = false) changed.

(** A chunk without the character '{'. *)
Definition noBrace (chunk : string) : Prop :=
  ~ In "{"%char (list_ascii_of_string chunk).

(** The events of a run of the linter on a file: the entry into [runTools]
    for the phase [ph] and the call of [exec], both in the working tree [t].
    An "after" run happens in the working tree of the pull request, a
    "before" run in the checkout of the branch [b]. *)
Definition runEvent (ph : string) (t : Linter.checkout) (e : Linter.event) : Prop :=
  match e with
  | Linter.EvTool _ ph' t' => ph' = ph /\ t' = t
  | Linter.EvExec _ t' => t' = t
  | _ => False
  end.

Definition afterEvent : Linter.event -> Prop := runEvent "after" None.

Definition beforeEvent (b : string) : Linter.event -> Prop :=
  runEvent "before" (Some b).

Definition writeEvent (e : Linter.event) : Prop :=
  match e with
  | Linter.EvWrite _ => True
  | _ => False
  end.

Definition closingEvent (e : Linter.event) : Prop :=
  match e with
  | Linter.EvRestore | Linter.EvWrite _ => True
  | _ => False
  end.

(** How often the checkout capability was invoked. *)
Fixpoint checkouts (tr : list Linter.event) : nat :=
  match tr with
  | [] => 0
  | Linter.EvCheckout _ :: r => S (checkouts r)
  | _ :: r => checkouts r
  end.

(** The model-validation run in terms of its files: the records of the
    files whose validation returns, and what the files whose validation
    throws have thrown. *)
Definition reported (env : ModelValidation.Env) (swaggers : list string)
    : list (list ModelValidation.ResultMessageRecord) :=
  omap (fun s => match ModelValidation.pipelineResultDatas env s with
                 | ModelValidation.Returns datas => Some datas
                 | ModelValidation.Throws _ => None
                 end) swaggers.

Definition failed (env : ModelValidation.Env) (swaggers : list string)
    : list Js.error :=
  omap (fun s => match ModelValidation.pipelineResultDatas env s with
                 | ModelValidation.Returns _ => None
                 | ModelValidation.Throws e => Some e
                 end) swaggers.

(** A location of a record: present when the url is a non-empty text and
    the position is known. *)
Definition location (env : ModelValidation.Env) (tag : string)
    (u : option string) (p : option ModelValidation.Position)
    : list ModelValidation.PathItem :=
  match u, p with
  | Some (String _ _), Some q =>
      [ ModelValidation.mkPath tag (ModelValidation.href env u q) ]
  | _, _ => []
  end.

(** The entry of a file and a phase in the dual report. *)
Definition entry (f : Linter.Files) (file phase : string) : option (list Json.json) :=
  match f !! file with
  | Some m => m !! phase
  | None => None
  end.

End Spec.

(* ===================================================================== *)
(** * Inputs of the examples *)
(* ===================================================================== *)

Module Examples.
Import JsString Json Js.

Definition diff (t i : string) : BreakingChange.Diff :=
  BreakingChange.mkDiff t i "Code" "message".

(** Findings of one file, with a tie on Warning 1002. *)
Definition findings : list BreakingChange.Diff :=
  [ diff "Error" "1005"; diff "Warning" "1002"; diff "Info" "1001";
    BreakingChange.mkDiff "Warning" "1002" "Other" "second";
    diff "Error" "1003"; diff "Warning" "1001" ].

Definition quoted (s : string) : string := dq +:+ s +:+ dq.

(** The two records of the example of the specification. *)
Definition recordText (n : string) : string := "{ " +:+ quoted "a" +:+ ":" +:+ n +:+ " }".
Definition recA : json := JObject [("a", JNumber "1")].
Definition recB : json := JObject [("a", JNumber "2")].

(** The records separated by a space, and by a newline. *)
Definition spaced : string := recordText "1" +:+ " " +:+ recordText "2".
Definition lined : string := recordText "1" +:+ nl +:+ recordText "2".

(** A progress report of the linter. *)
Definition progress : string := "Processing batch task - {swagger} ." +:+ nl.

(** Output of the diff tool with one Error and two Warnings. *)
Definition oadRecord (t i : string) : string :=
  "{" +:+ quoted "type" +:+ ":" +:+ quoted t +:+ ","
  +:+ quoted "id" +:+ ":" +:+ quoted i +:+ ","
  +:+ quoted "code" +:+ ":" +:+ quoted "Code" +:+ ","
  +:+ quoted "message" +:+ ":" +:+ quoted "message" +:+ "}".

Definition oadOutput : string :=
  oadRecord "Warning" "1002" +:+ nl +:+ oadRecord "Error" "1005" +:+ nl
  +:+ "  " +:+ oadRecord "Warning" "1001".

Definition swaggerA : string := "specification/a/a.json".
Definition swaggerB : string := "specification/b/b.json".
Definition swaggerC : string := "specification/c/c.json".

(** A pull request that changes [swaggerA] and [swaggerC] and adds
    [swaggerB], run in Travis CI; the diff tool reports [oadOutput] on
    [swaggerA], nothing on [swaggerC]. *)
Definition bcEnv : BreakingChange.Env :=
  {| BreakingChange.isRunningInTravisCI := true;
     BreakingChange.prDefined := true;
     BreakingChange.existsOnTarget := fun s => negb (String.eqb s swaggerB);
     BreakingChange.autorest := fun _ => true;
     BreakingChange.resolvedPath := fun s => "/tmp/resolved/" +:+ s;
     BreakingChange.readJSON := fun _ => None;
     BreakingChange.compare := fun old _ =>
       if String.eqb old swaggerA then Ok oadOutput else Ok EmptyString;
     BreakingChange.localeCompare := Spec.codeUnitCompare;
     BreakingChange.compareText := Spec.codeUnitCompare |}.


Definition configA : string := "specification/a/readme.md".
Definition configB : string := "specification/b/readme.md".

(** A pull request that changes [configA] and adds [configB]. The linter
    prints a progress report and two records for [configA] in the pull
    request and one record on the target branch, and two records for
    [configB]. *)
Definition linterEnv : Linter.Env :=
  {| Linter.existsSync := fun t p =>
       match t with
       | None => String.eqb p configA || String.eqb p configB
       | Some _ => String.eqb p configA
       end;
     Linter.exec := fun t cmd =>
       if includes configB cmd
       then Linter.mkExecResult None lined EmptyString
       else match t with
            | None => Linter.mkExecResult None (progress +:+ lined) EmptyString
            | Some _ => Linter.mkExecResult None (recordText "1") EmptyString
            end;
     Linter.targetBranch := "master";
     Linter.checkoutOk := true;
     Linter.logExists := false |}.

(** The same pull request when the linter separates its records by a
    space. *)
Definition linterSpaced : Linter.Env :=
  {| Linter.existsSync := fun _ _ => true;
     Linter.exec := fun _ _ => Linter.mkExecResult None spaced EmptyString;
     Linter.targetBranch := "master";
     Linter.checkoutOk := true;
     Linter.logExists := false |}.

(** A linter that prints no brace. *)
Definition linterQuiet : Linter.Env :=
  {| Linter.existsSync := fun _ _ => true;
     Linter.exec := fun _ _ =>
       Linter.mkExecResult (Some 1%Z) "AutoRest" " finished";
     Linter.targetBranch := "master";
     Linter.checkoutOk := true;
     Linter.logExists := true |}.


Definition halfLocations : ModelValidation.ModelValidationError :=
  ModelValidation.mkError (Some "INVALID_TYPE")
    (Some (ModelValidation.mkDetails None
             (Some "specification/a/a.json") None
             None (Some (ModelValidation.mkPosition 40 7))))
    None None None None None.




End Examples.

(* ===================================================================== *)
(** * Streams of records, as the tools print them *)
(* ===================================================================== *)

Module Records.
Import JsString.

(** No match of the regular expression begins inside the record, before
    its closing brace. *)
Definition sealed (re : matcher) (inner : string) : Prop :=
  forall p s tail,
    inner = p +:+ s -> s <> EmptyString -> re (s +:+ "}" +:+ tail) = None.

(** The records [{first}], [{inner}], ... with a separator before each of
    the later ones: the text from the closing brace of the first record on,
    and the same with every separator and its two braces replaced by
    [by_]. *)
Fixpoint tailText {A : Type} (sep : A -> string) (l : list (A * string)) : string :=
  match l with
  | [] => "}"
  | (a, inner) :: l' => "}" +:+ sep a +:+ "{" +:+ inner +:+ tailText sep l'
  end.

Fixpoint tailJoined {A : Type} (by_ : string) (l : list (A * string)) : string :=
  match l with
  | [] => "}"
  | (_, inner) :: l' => by_ +:+ inner +:+ tailJoined by_ l'
  end.

Definition streamText {A : Type} (sep : A -> string) (first : string)
    (l : list (A * string)) : string :=
  "{" +:+ first +:+ tailText sep l.

Definition streamJoined {A : Type} (by_ : string) (first : string)
    (l : list (A * string)) : string :=
  "{" +:+ first +:+ tailJoined by_ l.

(** A text without the character. *)
Definition without (c : ascii) (s : string) : Prop :=
  ~ In c (list_ascii_of_string s).

(** The body of a progress report: no line feed, no carriage return and no
    byte 226, the first one of a line or paragraph separator. *)
Definition plain (body : string) : Prop :=
  without (ascii_of_nat 10) body /\ without (ascii_of_nat 13) body
  /\ without (ascii_of_nat 226) body.

Definition progressLine (body : string) : string :=
  "Processing batch task - {" +:+ body +:+ "} ." +:+ nl.

Definition progressLines (bodies : list string) : string :=
  fold_right (fun body rest => progressLine body +:+ rest) EmptyString bodies.

(** The separator of two records of the linter: the end of the line and
    the progress reports printed before the next record. *)
Definition linterSep (bodies : list string) : string :=
  nl +:+ progressLines bodies.

End Records.

(* ===================================================================== *)
(** * Facts on the regular expressions and on [replace] *)
(* ===================================================================== *)

Section RegexFacts.
Import JsString.

Lemma append_cons (x : ascii) (a b : string) : String x a +:+ b = String x (a +:+ b).
Proof. reflexivity. Qed.

Lemma append_assoc (a b c : string) : (a +:+ b) +:+ c = a +:+ (b +:+ c).
Proof.
  induction a as [|x a IH]; [reflexivity|]. now rewrite !append_cons, IH.
Qed.

Lemma length_append (a b : string) :
  String.length (a +:+ b) = String.length a + String.length b.
Proof.
  induction a as [|x a IH]; [reflexivity|]. rewrite append_cons. simpl. now rewrite IH.
Qed.

Lemma lit_append (p r : string) : lit p (p +:+ r) = Some r.
Proof.
  induction p as [|a p IH]; [reflexivity|].
  rewrite append_cons. simpl. now rewrite Ascii.eqb_refl.
Qed.

Lemma lit_Some (p s r : string) : lit p s = Some r <-> s = p +:+ r.
Proof.
  split; [|intros ->; apply lit_append].
  revert s. induction p as [|a p IH]; simpl; intros s H.
  - now injection H as ->.
  - destruct s as [|b s]; [discriminate|].
    destruct (Ascii.eqb a b) eqn:E; [|discriminate].
    apply Ascii.eqb_eq in E as ->. now rewrite (IH s H).
Qed.

Lemma lit_nonIncreasing (p : string) : nonIncreasing (lit p).
Proof.
  intros s r H. apply lit_Some in H as ->. rewrite length_append. lia.
Qed.

Lemma lit_consuming (c : ascii) (p : string) : consuming (lit (String c p)).
Proof.
  intros s r H. apply lit_Some in H as ->. simpl. rewrite length_append. lia.
Qed.

Lemma oneOf_Some (alts : list string) (s r : string) :
  oneOf alts s = Some r -> exists p, In p alts /\ s = p +:+ r.
Proof.
  induction alts as [|p alts IH]; simpl; [discriminate|].
  destruct (lit p s) eqn:E.
  - intros H. injection H as ->. apply lit_Some in E. eauto.
  - intros H. destruct (IH H) as (q & Hq & ->). eauto.
Qed.

Lemma whiteSpaces_nonempty (p : string) : In p whiteSpaces -> 0 < String.length p.
Proof.
  intros H. simpl in H.
  repeat (destruct H as [<-|H]; [vm_compute; lia|]). contradiction.
Qed.

Lemma space_consuming : consuming space.
Proof.
  intros s r H. apply oneOf_Some in H as (p & Hp & ->).
  apply whiteSpaces_nonempty in Hp. rewrite length_append. lia.
Qed.

Lemma space_token (t r : string) : In t whiteSpaces -> space (t +:+ r) = Some r.
Proof.
  intros H. simpl in H.
  repeat (destruct H as [<-|H]; [reflexivity|]). contradiction.
Qed.

Lemma dot_consuming : consuming dot.
Proof.
  intros s r. unfold dot. destruct (oneOf lineTerminators s); [discriminate|].
  destruct s as [|c s]; [discriminate|]. intros H. injection H as ->. simpl. lia.
Qed.

Lemma andThen_consuming_l (p k : matcher) :
  consuming p -> nonIncreasing k -> consuming (andThen p k).
Proof.
  intros Hp Hk s r. unfold andThen. destruct (p s) as [r1|] eqn:E; [|discriminate].
  intros H. apply Hp in E. apply Hk in H. lia.
Qed.

Lemma starN_nonIncreasing (n : nat) (p k : matcher) :
  nonIncreasing p -> nonIncreasing k -> nonIncreasing (starN n p k).
Proof.
  intros Hp Hk. induction n as [|n IH]; simpl; [exact Hk|].
  intros s r. destruct (p s) as [r1|] eqn:E; [|apply Hk].
  destruct (starN n p k r1) as [out|] eqn:E1; [|apply Hk].
  intros H. injection H as ->. apply Hp in E. apply IH in E1. lia.
Qed.

Lemma consuming_nonIncreasing (p : matcher) : consuming p -> nonIncreasing p.
Proof. intros H s r E. apply H in E. lia. Qed.

Lemma star_nonIncreasing (p k : matcher) :
  nonIncreasing p -> nonIncreasing k -> nonIncreasing (star p k).
Proof. intros Hp Hk s r. unfold star. now apply starN_nonIncreasing. Qed.

Lemma reBraceGap_consuming : consuming reBraceGap.
Proof.
  apply andThen_consuming_l; [apply lit_consuming|].
  apply consuming_nonIncreasing, andThen_consuming_l; [apply space_consuming|].
  apply star_nonIncreasing; [apply consuming_nonIncreasing, space_consuming|].
  apply lit_nonIncreasing.
Qed.

Lemma reBatchTask_consuming : consuming reBatchTask.
Proof.
  apply andThen_consuming_l; [apply lit_consuming|].
  apply star_nonIncreasing; [apply consuming_nonIncreasing, dot_consuming|].
  apply lit_nonIncreasing.
Qed.

Lemma reBraceNewline_consuming : consuming reBraceNewline.
Proof. apply lit_consuming. Qed.

(** The bound on the number of steps of a replacement does not matter once
    it reaches the length of the text. *)
Lemma replaceN_enough (re : matcher) (by_ : string) :
  consuming re ->
  forall n s, String.length s <= n -> replaceN n re by_ s = replaceN (String.length s) re by_ s.
Proof.
  intros Hre n. induction n as [n IH] using lt_wf_ind. intros s Hn.
  destruct s as [|c r]; [destruct n; reflexivity|].
  destruct n as [|n]; [simpl in Hn; lia|].
  simpl. destruct (re (String c r)) as [rest|] eqn:E.
  - apply Hre in E. simpl in E.
    rewrite (IH n ltac:(lia) rest ltac:(simpl in Hn; lia)).
    rewrite (IH (String.length r) ltac:(simpl in Hn; lia) rest ltac:(lia)). reflexivity.
  - rewrite (IH n ltac:(lia) r ltac:(simpl in Hn; lia)). reflexivity.
Qed.

Lemma replaceAll_empty (re : matcher) (by_ : string) :
  replaceAll re by_ EmptyString = EmptyString.
Proof. reflexivity. Qed.

Lemma replaceAll_match (re : matcher) (by_ : string) (c : ascii) (r rest : string) :
  consuming re -> re (String c r) = Some rest ->
  replaceAll re by_ (String c r) = by_ +:+ replaceAll re by_ rest.
Proof.
  intros Hre E. unfold replaceAll. simpl. rewrite E.
  pose proof (Hre _ _ E) as L. simpl in L.
  now rewrite (replaceN_enough re by_ Hre (String.length r) rest ltac:(lia)).
Qed.

Lemma replaceAll_keep (re : matcher) (by_ : string) (c : ascii) (r : string) :
  re (String c r) = None ->
  replaceAll re by_ (String c r) = String c (replaceAll re by_ r).
Proof. intros E. unfold replaceAll. simpl. now rewrite E. Qed.

Lemma starN_S (n : nat) (p k : matcher) (s : string) :
  starN (S n) p k s =
  match p s with
  | Some r => match starN n p k r with
              | Some out => Some out
              | None => k s
              end
  | None => k s
  end.
Proof. reflexivity. Qed.

(** Greedy repetition over a run of white space that ends at a brace. *)
Lemma starN_gap (tokens : list string) (rest : string) (n : nat) :
  Forall (fun w => In w whiteSpaces) tokens -> length tokens <= n ->
  starN n space (lit "{") (joinTokens tokens +:+ "{" +:+ rest) = Some rest.
Proof.
  revert tokens. induction n as [|n IH]; intros tokens Ht Hn.
  - destruct tokens as [|t tokens]; [reflexivity|simpl in Hn; lia].
  - destruct tokens as [|t tokens]; [reflexivity|].
    inversion Ht as [|? ? Hin Hts]; subst. simpl joinTokens. rewrite starN_S.
    rewrite append_assoc, (space_token t _ Hin).
    rewrite (IH tokens Hts); [reflexivity|]. simpl in Hn. lia.
Qed.

Lemma joinTokens_length (tokens : list string) :
  Forall (fun w => In w whiteSpaces) tokens ->
  length tokens <= String.length (joinTokens tokens).
Proof.
  induction 1 as [|t tokens Hin _ IH]; simpl; [lia|].
  apply whiteSpaces_nonempty in Hin. rewrite length_append. lia.
Qed.

Lemma andThen_Some (p k : matcher) (s r : string) :
  p s = Some r -> andThen p k s = k r.
Proof. intros H. unfold andThen. now rewrite H. Qed.

Lemma reBraceGap_gap (ws rest : string) :
  isGap ws -> reBraceGap ("}" +:+ ws +:+ "{" +:+ rest) = Some rest.
Proof.
  intros (t & tokens & Ht & ->). unfold reBraceGap.
  rewrite (andThen_Some _ _ _ _ (lit_append "}" _)).
  inversion Ht as [|? ? Hin Hts]; subst. simpl joinTokens.
  rewrite append_assoc. unfold plus.
  rewrite (andThen_Some _ _ _ _ (space_token t _ Hin)). unfold star.
  apply starN_gap; [assumption|].
  rewrite length_append. pose proof (joinTokens_length tokens Hts). lia.
Qed.

Lemma starN_inv (T : string -> Prop) (p k : matcher) :
  (forall s r, p s = Some r -> exists t, T t /\ s = t +:+ r) ->
  forall n s out, starN n p k s = Some out ->
  exists tokens mid,
    Forall T tokens /\ s = joinTokens tokens +:+ mid /\ k mid = Some out.
Proof.
  intros Hp n. induction n as [|n IH]; intros s out H.
  - exists [], s. repeat split; [constructor|exact H].
  - rewrite starN_S in H. destruct (p s) as [r|] eqn:E.
    + destruct (starN n p k r) as [o|] eqn:E1.
      * injection H as ->. apply Hp in E as (t & Ht & ->).
        apply IH in E1 as (tokens & mid & Hts & -> & Hk).
        exists (t :: tokens), mid. repeat split; [now constructor| |exact Hk].
        simpl joinTokens. now rewrite append_assoc.
      * exists [], s. repeat split; [constructor|exact H].
    + exists [], s. repeat split; [constructor|exact H].
Qed.

Lemma space_inv (s r : string) :
  space s = Some r -> exists t, In t whiteSpaces /\ s = t +:+ r.
Proof. apply oneOf_Some. Qed.

Lemma andThen_inv (p k : matcher) (s out : string) :
  andThen p k s = Some out -> exists r, p s = Some r /\ k r = Some out.
Proof. unfold andThen. destruct (p s) as [r|]; [eauto|discriminate]. Qed.

(** [/}\s+{/] matches exactly a closing brace, a non-empty run of white
    space and an opening brace. *)
Lemma reBraceGap_iff (s rest : string) :
  reBraceGap s = Some rest <->
  exists ws, isGap ws /\ s = "}" +:+ ws +:+ "{" +:+ rest.
Proof.
  split.
  - intros H. unfold reBraceGap in H.
    apply andThen_inv in H as (r1 & E1 & H). apply lit_Some in E1 as ->.
    unfold plus in H. apply andThen_inv in H as (r2 & E2 & H).
    apply space_inv in E2 as (t & Ht & ->).
    unfold star in H.
    apply (starN_inv (fun w => In w whiteSpaces) space (lit "{") space_inv) in H
      as (tokens & mid & Hts & -> & Hk).
    apply lit_Some in Hk as ->.
    exists (joinTokens (t :: tokens)). split.
    + exists t, tokens. split; [now constructor|reflexivity].
    + simpl joinTokens. now rewrite !append_assoc.
  - intros (ws & Hws & ->). now apply reBraceGap_gap.
Qed.

Lemma includes_char (a c : ascii) (s : string) :
  includes (String a EmptyString) (String c s) =
  if Ascii.eqb a c then true else includes (String a EmptyString) s.
Proof. simpl. destruct (Ascii.eqb a c); reflexivity. Qed.

(** What [/Processing batch task - {.*} \.\n/] matches is a progress
    report up to the end of its line. *)
Lemma reBatchTask_inv (s rest : string) :
  reBatchTask s = Some rest ->
  exists body,
    s = "Processing batch task - {" +:+ body +:+ "} ." +:+ nl +:+ rest
    /\ includes nl body = false.
Proof.
  intros H. unfold reBatchTask in H.
  apply andThen_inv in H as (r1 & E1 & H). apply lit_Some in E1 as ->.
  unfold star in H.
  apply (starN_inv (fun t => exists c, t = String c EmptyString /\ c <> ascii_of_nat 10)
           dot (lit ("} ." +:+ bytes [10]))) in H.
  - destruct H as (tokens & mid & Hts & -> & Hk). apply lit_Some in Hk as ->.
    exists (joinTokens tokens). split.
    + now rewrite !append_assoc.
    + clear -Hts. induction Hts as [|t tokens (c & -> & Hc) _ IH]; [reflexivity|].
      simpl joinTokens. rewrite append_cons.
      change nl with (String (ascii_of_nat 10) EmptyString) in *.
      rewrite includes_char.
      destruct (Ascii.eqb (ascii_of_nat 10) c) eqn:E.
      * apply Ascii.eqb_eq in E. congruence.
      * exact IH.
  - intros s r. unfold dot.
    destruct (oneOf lineTerminators s) eqn:E; [discriminate|].
    destruct s as [|c s]; [discriminate|]. intros H1. injection H1 as ->.
    exists (String c EmptyString). split; [|reflexivity].
    exists c. split; [reflexivity|]. intros ->. discriminate.
Qed.

End RegexFacts.

(* ===================================================================== *)
(** * Facts on [JSON.parse] *)
(* ===================================================================== *)

Section ParserFacts.
Import JsString Json.

Lemma restLe_pmap {A B : Type} (f : A -> B) (s : string) (p : parsed A) :
  restLe s p -> restLe s (pmap f p).
Proof. destruct p; simpl; auto. Qed.

Lemma restLe_mono {A : Type} (s s' : string) (p : parsed A) :
  String.length s' <= String.length s -> restLe s' p -> restLe s p.
Proof. destruct p; simpl; auto; lia. Qed.

Lemma pmap_fuel {A B : Type} (f : A -> B) (p : parsed A) :
  p <> OutOfFuel -> pmap f p <> OutOfFuel.
Proof. destruct p; simpl; congruence. Qed.

Lemma skipWs_length (s : string) : String.length (skipWs s) <= String.length s.
Proof.
  induction s as [|c s IH]; simpl; [lia|].
  destruct (isJsonWs c); simpl; lia.
Qed.

Lemma skipWs_cons_length (s r : string) (c : ascii) :
  skipWs s = String c r -> String.length r < String.length s.
Proof.
  intros H. pose proof (skipWs_length s) as L. rewrite H in L. simpl in L. lia.
Qed.

Lemma lit_length (p s r : string) :
  lit p s = Some r -> String.length r <= String.length s.
Proof.
  revert s. induction p as [|a p IH]; simpl; intros s H.
  - injection H as ->. lia.
  - destruct s as [|b s]; [discriminate|].
    destruct (Ascii.eqb a b); [|discriminate].
    apply IH in H. simpl. lia.
Qed.

Lemma spanDigits_length (s : string) :
  String.length (snd (spanDigits s)) <= String.length s.
Proof.
  induction s as [|c s IH]; simpl; [lia|].
  destruct (isDigit c); simpl; [|lia].
  destruct (spanDigits s); simpl in *. lia.
Qed.

Lemma digits1_length (s ds r : string) :
  digits1 s = Some (ds, r) -> String.length r <= String.length s.
Proof.
  unfold digits1. pose proof (spanDigits_length s) as L.
  destruct (spanDigits s) as [d r']. simpl in L.
  destruct d; intros H; [discriminate|]. injection H as _ <-. exact L.
Qed.

Lemma parseInt_length (s i r : string) :
  parseInt s = Some (i, r) -> String.length r <= String.length s.
Proof.
  unfold parseInt. destruct s as [|c s]; [discriminate|].
  destruct (Ascii.eqb c "0").
  - intros H. injection H as _ <-. simpl. lia.
  - destruct (isDigit c); [|discriminate].
    pose proof (spanDigits_length s) as L.
    destruct (spanDigits s) as [d r']. simpl in L.
    intros H. injection H as _ <-. simpl. lia.
Qed.

Lemma parseFrac_length (s i r : string) :
  parseFrac s = Some (i, r) -> String.length r <= String.length s.
Proof.
  unfold parseFrac. destruct s as [|c s].
  - intros H. injection H as _ <-. lia.
  - destruct (Ascii.eqb c ".").
    + destruct (digits1 s) as [[ds rest]|] eqn:E; [|discriminate].
      apply digits1_length in E. intros H. injection H as _ <-. simpl. lia.
    + intros H. injection H as _ <-. lia.
Qed.

Lemma parseExp_length (s i r : string) :
  parseExp s = Some (i, r) -> String.length r <= String.length s.
Proof.
  unfold parseExp. destruct s as [|c s].
  - intros H. injection H as _ <-. lia.
  - destruct (Ascii.eqb c "e" || Ascii.eqb c "E").
    + destruct s as [|sg s']; [discriminate|].
      destruct (Ascii.eqb sg "+" || Ascii.eqb sg "-").
      * destruct (digits1 s') as [[ds rest]|] eqn:E; [|discriminate].
        apply digits1_length in E. intros H. injection H as _ <-. simpl. lia.
      * destruct (digits1 (String sg s')) as [[ds rest]|] eqn:E; [|discriminate].
        apply digits1_length in E. intros H. injection H as _ <-. simpl in *. lia.
    + intros H. injection H as _ <-. lia.
Qed.

Lemma parseUnsigned_restLe (s : string) : restLe s (parseUnsigned s).
Proof.
  unfold parseUnsigned.
  destruct (parseInt s) as [[i r1]|] eqn:E1; simpl; [|exact I].
  destruct (parseFrac r1) as [[f r2]|] eqn:E2; simpl; [|exact I].
  destruct (parseExp r2) as [[e r3]|] eqn:E3; simpl; [|exact I].
  apply parseInt_length in E1. apply parseFrac_length in E2.
  apply parseExp_length in E3. lia.
Qed.

Lemma parseUnsigned_fuel (s : string) : parseUnsigned s <> OutOfFuel.
Proof.
  unfold parseUnsigned.
  destruct (parseInt s) as [[i r1]|]; [|discriminate].
  destruct (parseFrac r1) as [[f r2]|]; [|discriminate].
  destruct (parseExp r2) as [[e r3]|]; discriminate.
Qed.

Lemma parseNumber_restLe (s : string) : restLe s (parseNumber s).
Proof.
  unfold parseNumber. destruct s as [|c s]; [exact I|].
  destruct (Ascii.eqb c "-"); [|apply parseUnsigned_restLe].
  apply restLe_pmap. eapply restLe_mono; [|apply parseUnsigned_restLe]. simpl. lia.
Qed.

Lemma parseNumber_fuel (s : string) : parseNumber s <> OutOfFuel.
Proof.
  unfold parseNumber. destruct s as [|c s]; [discriminate|].
  destruct (Ascii.eqb c "-"); [apply pmap_fuel|]; apply parseUnsigned_fuel.
Qed.

Lemma parseChars_restLe (s : string) : restLe s (parseChars s).
Proof.
  remember (String.length s) as n eqn:Hn.
  revert s Hn. induction n as [n IH] using lt_wf_ind. intros s Hn.
  destruct s as [|c r]; [exact I|]. simpl parseChars.
  assert (forall t : string, String.length t <= String.length r ->
            restLe (String c r) (parseChars t)) as Hrec.
  { intros t Ht. eapply restLe_mono; [|eapply (IH (String.length t)); [|reflexivity]].
    - simpl. lia.
    - subst n. simpl. lia. }
  destruct (Ascii.eqb c dquote); [simpl; lia|].
  destruct (Ascii.eqb c backslash).
  - destruct r as [|e r']; [exact I|].
    destruct (Ascii.eqb e "u").
    + destruct r' as [|h1 [|h2 [|h3 [|h4 r'']]]]; try exact I.
      destruct (hex4 h1 h2 h3 h4); [|exact I].
      apply restLe_pmap, Hrec. simpl. lia.
    + destruct (escape e); [|exact I].
      apply restLe_pmap, Hrec. simpl. lia.
  - destruct (nat_of_ascii c <? 32); [exact I|].
    apply restLe_pmap, Hrec. lia.
Qed.

Lemma parseChars_fuel (s : string) : parseChars s <> OutOfFuel.
Proof.
  remember (String.length s) as n eqn:Hn.
  revert s Hn. induction n as [n IH] using lt_wf_ind. intros s Hn.
  destruct s as [|c r]; [discriminate|]. simpl parseChars.
  assert (forall t : string, String.length t <= String.length r ->
            parseChars t <> OutOfFuel) as Hrec.
  { intros t Ht. eapply (IH (String.length t)); [|reflexivity]. subst n. simpl. lia. }
  destruct (Ascii.eqb c dquote); [discriminate|].
  destruct (Ascii.eqb c backslash).
  - destruct r as [|e r']; [discriminate|].
    destruct (Ascii.eqb e "u").
    + destruct r' as [|h1 [|h2 [|h3 [|h4 r'']]]]; try discriminate.
      destruct (hex4 h1 h2 h3 h4); [|discriminate].
      apply pmap_fuel, Hrec. simpl. lia.
    + destruct (escape e); [|discriminate].
      apply pmap_fuel, Hrec. simpl. lia.
  - destruct (nat_of_ascii c <? 32); [discriminate|].
    apply pmap_fuel, Hrec. lia.
Qed.

Lemma parseLiteral_restLe (w : string) (v : json) (s : string) :
  restLe s (parseLiteral w v s).
Proof.
  unfold parseLiteral. destruct (lit w s) eqn:E; simpl; [|exact I].
  eapply lit_length, E.
Qed.

Lemma parseLiteral_fuel (w : string) (v : json) (s : string) :
  parseLiteral w v s <> OutOfFuel.
Proof. unfold parseLiteral. destruct (lit w s); discriminate. Qed.


Lemma parse_restLe (f : nat) :
  (forall s, restLe s (parseValue f s))
  /\ (forall s, restLe s (parseElements f s))
  /\ (forall s, restLe s (parseMembers f s)).
Proof.
  induction f as [|f (IHv & IHe & IHm)]; [repeat split; intros; exact I|].
  split; [|split]; intros s.
  - simpl. destruct (skipWs s) as [|c r] eqn:Es; [exact I|].
    pose proof (skipWs_length s) as Ls. rewrite Es in Ls.
    destruct (Ascii.eqb c "[").
    { destruct (skipWs r) as [|c' r'] eqn:Er; [exact I|].
      apply skipWs_cons_length in Er.
      destruct (Ascii.eqb c' "]"); [simpl in *; lia|].
      apply restLe_pmap. eapply restLe_mono; [|apply IHe]. simpl in Ls. lia. }
    destruct (Ascii.eqb c "{").
    { destruct (skipWs r) as [|c' r'] eqn:Er; [exact I|].
      apply skipWs_cons_length in Er.
      destruct (Ascii.eqb c' "}"); [simpl in *; lia|].
      apply restLe_pmap. eapply restLe_mono; [|apply IHm]. simpl in Ls. lia. }
    destruct (Ascii.eqb c dquote).
    { apply restLe_pmap. eapply restLe_mono; [|apply parseChars_restLe]. simpl in Ls. lia. }
    destruct (Ascii.eqb c "-" || isDigit c).
    { apply restLe_pmap.
      eapply restLe_mono; [|exact (parseNumber_restLe (String c r))]. exact Ls. }
    destruct (Ascii.eqb c "t").
    { eapply restLe_mono;
        [|exact (parseLiteral_restLe "true" (JBool true) (String c r))]. exact Ls. }
    destruct (Ascii.eqb c "f").
    { eapply restLe_mono;
        [|exact (parseLiteral_restLe "false" (JBool false) (String c r))]. exact Ls. }
    destruct (Ascii.eqb c "n"); [|exact I].
    eapply restLe_mono; [|exact (parseLiteral_restLe "null" JNull (String c r))].
    exact Ls.
  - simpl. pose proof (IHv s) as Hv.
    destruct (parseValue f s) as [v r| |]; [|exact I|exact I]. simpl in Hv.
    destruct (skipWs r) as [|c r'] eqn:Er; [exact I|].
    apply skipWs_cons_length in Er.
    destruct (Ascii.eqb c ",").
    { apply restLe_pmap. eapply restLe_mono; [|apply IHe]. lia. }
    destruct (Ascii.eqb c "]"); [simpl; lia|exact I].
  - simpl. destruct (skipWs s) as [|q r] eqn:Es; [exact I|].
    apply skipWs_cons_length in Es.
    destruct (Ascii.eqb q dquote); [|exact I].
    pose proof (parseChars_restLe r) as Hk.
    destruct (parseChars r) as [k r1| |]; [|exact I|exact I]. simpl in Hk.
    destruct (skipWs r1) as [|c r2] eqn:E1; [exact I|].
    apply skipWs_cons_length in E1.
    destruct (Ascii.eqb c ":"); [|exact I].
    pose proof (IHv r2) as Hv.
    destruct (parseValue f r2) as [v r3| |]; [|exact I|exact I]. simpl in Hv.
    destruct (skipWs r3) as [|c' r4] eqn:E3; [exact I|].
    apply skipWs_cons_length in E3.
    destruct (Ascii.eqb c' ",").
    { apply restLe_pmap. eapply restLe_mono; [|apply IHm]. lia. }
    destruct (Ascii.eqb c' "}"); [simpl; lia|exact I].
Qed.

Lemma parse_fuel (f : nat) :
  (forall s, 2 * String.length s + 1 <= f -> parseValue f s <> OutOfFuel)
  /\ (forall s, 2 * String.length s + 2 <= f -> parseElements f s <> OutOfFuel)
  /\ (forall s, 2 * String.length s + 2 <= f -> parseMembers f s <> OutOfFuel).
Proof.
  induction f as [|f (IHv & IHe & IHm)]; [repeat split; intros; lia|].
  split; [|split]; intros s Hf.
  - simpl. destruct (skipWs s) as [|c r] eqn:Es; [discriminate|].
    pose proof (skipWs_length s) as Ls. rewrite Es in Ls. simpl in Ls.
    destruct (Ascii.eqb c "[").
    { destruct (skipWs r) as [|c' r'] eqn:Er; [discriminate|].
      destruct (Ascii.eqb c' "]"); [discriminate|].
      apply pmap_fuel, IHe. lia. }
    destruct (Ascii.eqb c "{").
    { destruct (skipWs r) as [|c' r'] eqn:Er; [discriminate|].
      destruct (Ascii.eqb c' "}"); [discriminate|].
      apply pmap_fuel, IHm. lia. }
    destruct (Ascii.eqb c dquote); [apply pmap_fuel, parseChars_fuel|].
    destruct (Ascii.eqb c "-" || isDigit c).
    { apply pmap_fuel. exact (parseNumber_fuel (String c r)). }
    destruct (Ascii.eqb c "t");
      [exact (parseLiteral_fuel "true" (JBool true) (String c r))|].
    destruct (Ascii.eqb c "f");
      [exact (parseLiteral_fuel "false" (JBool false) (String c r))|].
    destruct (Ascii.eqb c "n");
      [exact (parseLiteral_fuel "null" JNull (String c r))|discriminate].
  - simpl. pose proof (IHv s ltac:(lia)) as Fv.
    pose proof (proj1 (parse_restLe f) s) as Hv.
    destruct (parseValue f s) as [v r| |]; [|discriminate|congruence]. simpl in Hv.
    destruct (skipWs r) as [|c r'] eqn:Er; [discriminate|].
    apply skipWs_cons_length in Er.
    destruct (Ascii.eqb c ","); [apply pmap_fuel, IHe; lia|].
    destruct (Ascii.eqb c "]"); discriminate.
  - simpl. destruct (skipWs s) as [|q r] eqn:Es; [discriminate|].
    apply skipWs_cons_length in Es.
    destruct (Ascii.eqb q dquote); [|discriminate].
    pose proof (parseChars_restLe r) as Hk. pose proof (parseChars_fuel r) as Fk.
    destruct (parseChars r) as [k r1| |]; [|discriminate|congruence]. simpl in Hk.
    destruct (skipWs r1) as [|c r2] eqn:E1; [discriminate|].
    apply skipWs_cons_length in E1.
    destruct (Ascii.eqb c ":"); [|discriminate].
    pose proof (IHv r2 ltac:(lia)) as Fv.
    pose proof (proj1 (parse_restLe f) r2) as Hv.
    destruct (parseValue f r2) as [v r3| |]; [|discriminate|congruence]. simpl in Hv.
    destruct (skipWs r3) as [|c' r4] eqn:E3; [discriminate|].
    apply skipWs_cons_length in E3.
    destruct (Ascii.eqb c' ","); [apply pmap_fuel, IHm; lia|].
    destruct (Ascii.eqb c' "}"); discriminate.
Qed.

(** [JSON.parse] never runs out of fuel: [None] is a syntax error. *)
Lemma JSON_parse_fuel (s : string) : parseText s <> OutOfFuel.
Proof.
  unfold parseText.
  pose proof (proj1 (parse_fuel (2 * String.length s + 2)) s ltac:(lia)) as F.
  destruct (parseValue (2 * String.length s + 2) s) as [v r| |];
    [|discriminate|congruence].
  destruct (skipWs r); discriminate.
Qed.

Lemma JSON_parse_None (s : string) : JSON_parse s = None <-> parseText s = SyntaxError.
Proof.
  unfold JSON_parse. pose proof (JSON_parse_fuel s) as F.
  destruct (parseText s); split; congruence.
Qed.

(** The value parsed from a text that starts with a bracket is an array. *)
Lemma JSON_parse_bracket (x : string) (v : json) :
  JSON_parse ("[" +:+ x) = Some v -> exists l, v = JArray l.
Proof.
  unfold JSON_parse, parseText.
  change ("[" +:+ x) with (String "[" x).
  set (n := 2 * String.length (String "[" x) + 2).
  assert (exists m, n = S m) as [m ->] by (exists (2 * String.length (String "[" x) + 1); subst n; lia).
  simpl parseValue.
  destruct (skipWs x) as [|c' r'].
  - discriminate.
  - destruct (Ascii.eqb c' "]").
    + destruct (skipWs r'); [|discriminate]. intros H. injection H as <-. eauto.
    + destruct (parseElements m x) as [l r| |]; simpl; try discriminate.
      destruct (skipWs r); [|discriminate]. intros H. injection H as <-. eauto.
Qed.

End ParserFacts.

(* ===================================================================== *)
(** * Facts on [Array.prototype.sort] *)
(* ===================================================================== *)

Section SortFacts.
Import Js.
Context {A : Type} (cmp : A -> A -> Z).

Lemma insertBy_perm (x : A) (l : list A) : Permutation (insertBy cmp x l) (x :: l).
Proof.
  induction l as [|y l IH]; simpl; [reflexivity|].
  destruct (0 <? cmp x y)%Z; [|reflexivity].
  rewrite IH. apply perm_swap.
Qed.

Lemma sortBy_perm (l : list A) : Permutation (sortBy cmp l) l.
Proof.
  induction l as [|x l IH]; simpl; [reflexivity|].
  rewrite insertBy_perm. now constructor.
Qed.

(** Adjacent elements are in order as soon as the comparison is total. *)
Hypothesis cmp_total : forall a b, (0 < cmp a b)%Z -> (cmp b a <= 0)%Z.

Lemma insertBy_Sorted (x : A) (l : list A) :
  Sorted (fun a b => (cmp a b <= 0)%Z) l ->
  Sorted (fun a b => (cmp a b <= 0)%Z) (insertBy cmp x l).
Proof.
  induction l as [|y l IH]; simpl; intros Hs.
  - constructor; constructor.
  - destruct (0 <? cmp x y)%Z eqn:E.
    + apply Z.ltb_lt in E. inversion Hs as [|? ? Hl Hhd]; subst.
      constructor; [now apply IH|].
      destruct l as [|z l]; simpl.
      * constructor. now apply cmp_total.
      * destruct (0 <? cmp x z)%Z.
        -- inversion Hhd; subst. now constructor.
        -- constructor. now apply cmp_total.
    + apply Z.ltb_ge in E. constructor; [assumption|now constructor].
Qed.

Lemma sortBy_Sorted (l : list A) : Sorted (fun a b => (cmp a b <= 0)%Z) (sortBy cmp l).
Proof.
  induction l as [|x l IH]; simpl; [constructor|now apply insertBy_Sorted].
Qed.

(** A list whose adjacent elements are in order is left as it is. *)
Lemma sortBy_fixed (l : list A) :
  Sorted (fun a b => (cmp a b <= 0)%Z) l -> sortBy cmp l = l.
Proof.
  induction l as [|x l IH]; simpl; intros Hs; [reflexivity|].
  inversion Hs as [|? ? Hl Hhd]; subst. rewrite IH by assumption.
  destruct l as [|y l]; simpl; [reflexivity|].
  inversion Hhd; subst.
  destruct (0 <? cmp x y)%Z eqn:E; [|reflexivity].
  apply Z.ltb_lt in E. lia.
Qed.

Lemma sortBy_idempotent (l : list A) : sortBy cmp (sortBy cmp l) = sortBy cmp l.
Proof. apply sortBy_fixed, sortBy_Sorted. Qed.

(** A class of elements no two of which are strictly out of order keeps its
    order. *)
Lemma insertBy_filter (P : A -> Prop) `{forall a, Decision (P a)} (x : A) (l : list A) :
  (forall a b, P a -> P b -> ~ (0 < cmp a b)%Z) ->
  filter P (insertBy cmp x l) = filter P (x :: l).
Proof.
  intros HP. induction l as [|y l IH]; simpl; [reflexivity|].
  destruct (0 <? cmp x y)%Z eqn:E; [|reflexivity].
  apply Z.ltb_lt in E.
  rewrite filter_cons, IH, !filter_cons.
  destruct (decide (P y)) as [Py|]; destruct (decide (P x)) as [Px|]; try reflexivity.
  exfalso. exact (HP x y Px Py E).
Qed.

Lemma sortBy_filter (P : A -> Prop) `{forall a, Decision (P a)} (l : list A) :
  (forall a b, P a -> P b -> ~ (0 < cmp a b)%Z) ->
  filter P (sortBy cmp l) = filter P l.
Proof.
  intros HP. induction l as [|x l IH]; simpl; [reflexivity|].
  rewrite insertBy_filter by assumption.
  now rewrite !filter_cons, IH.
Qed.

(** With a transitive comparison every element is in order with all the
    later ones. *)
Lemma Sorted_StronglySorted_on (Q : A -> Prop) (R : A -> A -> Prop) (l : list A) :
  (forall a b c, Q a -> Q b -> Q c -> R a b -> R b c -> R a c) ->
  Forall Q l -> Sorted R l -> StronglySorted R l.
Proof.
  intros Htrans HQ Hs. induction l as [|x l IH]; [constructor|].
  inversion Hs as [|? ? Hl Hhd]; subst.
  inversion HQ as [|? ? Qx Ql]; subst.
  specialize (IH Ql Hl). constructor; [assumption|].
  destruct l as [|y l]; [constructor|].
  inversion Hhd; subst. inversion IH as [|? ? _ Hall]; subst.
  inversion Ql as [|? ? Qy Ql']; subst.
  constructor; [assumption|].
  rewrite Forall_forall in *. intros z Hz.
  eapply (Htrans x y z); eauto.
Qed.

(** A stable sort has one result: two sorted arrangements of the same
    elements that keep the order inside every class of equal elements are
    the same list. The comparison is consistent on the elements [Q]. *)
Lemma stable_sorted_unique (Q : A -> Prop) (l1 l2 : list A) :
  (forall a, Q a -> cmp a a = 0%Z) ->
  (forall a b, Q a -> Q b -> (cmp a b <= 0)%Z -> (cmp b a <= 0)%Z -> cmp a b = 0%Z) ->
  Forall Q l1 ->
  Permutation l1 l2 ->
  StronglySorted (fun a b => (cmp a b <= 0)%Z) l1 ->
  StronglySorted (fun a b => (cmp a b <= 0)%Z) l2 ->
  (forall k, Q k -> filter (fun y => cmp k y = 0%Z) l1 = filter (fun y => cmp k y = 0%Z) l2) ->
  l1 = l2.
Proof.
  intros Hrefl Hanti. revert l2.
  induction l1 as [|x t1 IH]; intros l2 HQ Hp Hs1 Hs2 Hf.
  - now apply Permutation_nil in Hp.
  - destruct l2 as [|y t2]; [now apply Permutation_sym, Permutation_nil in Hp|].
    inversion HQ as [|? ? Qx Qt]; subst.
    inversion Hs1 as [|? ? Hs1' Hx]; subst. inversion Hs2 as [|? ? Hs2' Hy]; subst.
    assert (Q y) as Qy.
    { apply (proj1 (List.Forall_forall Q (x :: t1)) HQ).
      eapply Permutation_in; [symmetry; exact Hp|now left]. }
    assert (cmp x y <= 0)%Z as Hxy.
    { assert (In y (x :: t1)) as [<-|Hin]
        by (eapply Permutation_in; [symmetry; exact Hp|now left]).
      - rewrite Hrefl by assumption. lia.
      - now apply (proj1 (List.Forall_forall _ t1) Hx). }
    assert (cmp y x <= 0)%Z as Hyx.
    { assert (In x (y :: t2)) as [<-|Hin]
        by (eapply Permutation_in; [exact Hp|now left]).
      - rewrite Hrefl by assumption. lia.
      - now apply (proj1 (List.Forall_forall _ t2) Hy). }
    pose proof (Hanti x y Qx Qy Hxy Hyx) as E0.
    pose proof (Hf x Qx) as Hfx. rewrite !filter_cons in Hfx.
    rewrite decide_True in Hfx by now apply Hrefl.
    rewrite decide_True in Hfx by exact E0.
    injection Hfx as <- _.
    f_equal. apply IH; auto.
    + now apply Permutation_cons_inv in Hp.
    + intros k Qk. specialize (Hf k Qk). rewrite !filter_cons in Hf.
      destruct (decide (cmp k x = 0%Z)); [now injection Hf|exact Hf].
Qed.

End SortFacts.

(* ===================================================================== *)
(** * The sort of the findings of a file *)
(* ===================================================================== *)

Section SorterFacts.
Import Js BreakingChange Spec.

Lemma codeUnitCompare_collation : Collation codeUnitCompare.
Proof.
  split; unfold codeUnitCompare.
  - intros a. assert (String.compare a a = Eq) as ->; [|reflexivity].
    induction a as [|c a IH]; simpl; [reflexivity|].
    unfold Ascii.compare. now rewrite N.compare_refl.
  - intros a b. rewrite (String.compare_antisym a b).
    destruct (String.compare b a); simpl; lia.
  - intros a b c Hab Hbc.
    assert (String.le a b) as Lab.
    { unfold String.le, String.leb. destruct (String.compare a b); simpl; try exact I; lia. }
    assert (String.le b c) as Lbc.
    { unfold String.le, String.leb. destruct (String.compare b c); simpl; try exact I; lia. }
    assert (String.le a c) as Lac by (etrans; eassumption).
    unfold String.le, String.leb in Lac.
    destruct (String.compare a c); simpl in *; lia.
Qed.

Variable localeCompare : string -> string -> Z.
Hypothesis collation : Collation localeCompare.

Lemma severityRank_cases (d : Diff) :
  isSeverity d ->
  (type d = "Info" /\ severityRank (type d) = 0)
  \/ (type d = "Warning" /\ severityRank (type d) = 1)
  \/ (type d = "Error" /\ severityRank (type d) = 2).
Proof.
  intros [H|[H|H]]; rewrite H; [left|right; left|right; right]; split; reflexivity.
Qed.

Lemma compareDiffs_total (a b : Diff) :
  (0 < compareDiffs localeCompare a b)%Z -> (compareDiffs localeCompare b a <= 0)%Z.
Proof.
  unfold compareDiffs. rewrite (String.eqb_sym (type b) (type a)).
  destruct (String.eqb (type a) (type b)) eqn:Eab.
  - intros H. apply (collation_antisym _ collation) in H. lia.
  - destruct (String.eqb (type a) "Error") eqn:Ea.
    + apply String.eqb_eq in Ea. rewrite Ea in Eab.
      rewrite String.eqb_sym in Eab. rewrite Eab. lia.
    + destruct (String.eqb (type b) "Error"); [lia|].
      destruct (String.eqb (type a) "Warning") eqn:Wa; [|lia].
      apply String.eqb_eq in Wa. rewrite Wa in Eab.
      rewrite String.eqb_sym in Eab. rewrite Eab. lia.
Qed.

Lemma compareDiffs_same_type (a b : Diff) :
  type a = type b ->
  compareDiffs localeCompare a b = localeCompare (id a) (id b).
Proof.
  intros H. unfold compareDiffs. now rewrite H, String.eqb_refl.
Qed.

Lemma compareDiffs_le_rank (a b : Diff) :
  isSeverity a -> isSeverity b -> type a <> type b ->
  ((compareDiffs localeCompare a b <= 0)%Z <->
   severityRank (type a) < severityRank (type b)).
Proof.
  intros Ha Hb Hne. unfold compareDiffs.
  destruct (severityRank_cases a Ha) as [[Ta Ra]|[[Ta Ra]|[Ta Ra]]];
  destruct (severityRank_cases b Hb) as [[Tb Rb]|[[Tb Rb]|[Tb Rb]]];
    rewrite Ra, Rb; rewrite Ta, Tb in *; try congruence; simpl; lia.
Qed.

Lemma severityRank_inj (a b : Diff) :
  isSeverity a -> isSeverity b ->
  severityRank (type a) = severityRank (type b) -> type a = type b.
Proof.
  intros Ha Hb.
  destruct (severityRank_cases a Ha) as [[Ta Ra]|[[Ta Ra]|[Ta Ra]]];
  destruct (severityRank_cases b Hb) as [[Tb Rb]|[[Tb Rb]|[Tb Rb]]];
    rewrite Ra, Rb, Ta, Tb; congruence.
Qed.

Lemma compareDiffs_le_iff (a b : Diff) :
  isSeverity a -> isSeverity b ->
  ((compareDiffs localeCompare a b <= 0)%Z <-> findingLe localeCompare a b).
Proof.
  intros Ha Hb. unfold findingLe.
  destruct (decide (type a = type b)) as [E|N].
  - rewrite (compareDiffs_same_type a b E), E. split.
    + intros H. right. split; [reflexivity|assumption].
    + intros [H|[_ H]]; [lia|assumption].
  - rewrite (compareDiffs_le_rank a b Ha Hb N). split.
    + intros H. now left.
    + intros [H|[H _]]; [assumption|].
      exfalso. apply N. now apply severityRank_inj.
Qed.

Lemma findingLe_trans (a b c : Diff) :
  isSeverity a -> isSeverity b -> isSeverity c ->
  findingLe localeCompare a b -> findingLe localeCompare b c ->
  findingLe localeCompare a c.
Proof.
  unfold findingLe. intros _ _ _ [Hab|[Eab Lab]] [Hbc|[Ebc Lbc]].
  - left. lia.
  - left. lia.
  - left. lia.
  - right. split; [lia|]. eapply (collation_trans _ collation); eassumption.
Qed.

Lemma Sorted_impl_on (Q : Diff -> Prop) (R R' : Diff -> Diff -> Prop) (l : list Diff) :
  (forall a b, Q a -> Q b -> R a b -> R' a b) ->
  Forall Q l -> Sorted R l -> Sorted R' l.
Proof.
  intros Himp HQ Hs. induction l as [|x l IH]; [constructor|].
  inversion Hs as [|? ? Hl Hhd]; subst. inversion HQ as [|? ? Qx Ql]; subst.
  constructor; [now apply IH|].
  destruct l as [|y l]; [constructor|].
  inversion Hhd; subst. inversion Ql; subst. constructor. now apply Himp.
Qed.

Lemma compareDiffs_zero (a b : Diff) :
  compareDiffs localeCompare a b = 0%Z ->
  type a = type b /\ localeCompare (id a) (id b) = 0%Z.
Proof.
  unfold compareDiffs. destruct (String.eqb_spec (type a) (type b)) as [E|N].
  - auto.
  - destruct (String.eqb (type a) "Error"); [discriminate|].
    destruct (String.eqb (type b) "Error"); [discriminate|].
    destruct (String.eqb (type a) "Warning"); discriminate.
Qed.

Lemma collation_zero_le (a b : string) :
  localeCompare a b = 0%Z -> (localeCompare b a <= 0)%Z.
Proof.
  intros H. destruct (Z_lt_le_dec 0 (localeCompare b a)) as [L|L]; [|exact L].
  apply (collation_antisym _ collation) in L. lia.
Qed.

(** Findings that compare equal to a given one are never strictly out of
    order. *)
Lemma compareDiffs_class (k a b : Diff) :
  compareDiffs localeCompare k a = 0%Z -> compareDiffs localeCompare k b = 0%Z ->
  ~ (0 < compareDiffs localeCompare a b)%Z.
Proof.
  intros Ha Hb. apply compareDiffs_zero in Ha as [Ta Ia].
  apply compareDiffs_zero in Hb as [Tb Ib].
  rewrite compareDiffs_same_type by congruence.
  apply collation_zero_le in Ia.
  pose proof (collation_trans _ collation _ _ _ Ia (Z.eq_le_incl _ _ Ib)). lia.
Qed.

Lemma compareDiffs_antisym (a b : Diff) :
  isSeverity a -> isSeverity b ->
  (compareDiffs localeCompare a b <= 0)%Z -> (compareDiffs localeCompare b a <= 0)%Z ->
  compareDiffs localeCompare a b = 0%Z.
Proof.
  intros Ha Hb Hab Hba. destruct (decide (type a = type b)) as [E|N].
  - rewrite compareDiffs_same_type in * by congruence.
    destruct (Z_lt_le_dec (localeCompare (id a) (id b)) 0) as [L|L]; [|lia].
    apply (collation_antisym _ collation) in L. lia.
  - apply (compareDiffs_le_rank a b Ha Hb N) in Hab.
    apply (compareDiffs_le_rank b a Hb Ha) in Hba; [lia|congruence].
Qed.

(** X1. The result of the sort is the only arrangement of the findings
    that is in order and keeps the order of the findings that compare
    equal: what any stable sort returns. *)
Lemma sortDiffs_unique (l l' : list Diff) :
  Forall isSeverity l ->
  Permutation l' l ->
  Sorted (fun a b => (compareDiffs localeCompare a b <= 0)%Z) l' ->
  (forall k, filter (fun y => compareDiffs localeCompare k y = 0%Z) l'
             = filter (fun y => compareDiffs localeCompare k y = 0%Z) l) ->
  l' = sortDiffs localeCompare l.
Proof.
  intros Hl Hp Hs Hf.
  assert (Forall isSeverity l') as Hl'.
  { eapply Permutation_Forall; [symmetry; exact Hp|exact Hl]. }
  assert (Forall isSeverity (sortDiffs localeCompare l)) as Hls.
  { eapply Permutation_Forall; [symmetry; apply sortBy_perm|exact Hl]. }
  assert (forall a b c : Diff, isSeverity a -> isSeverity b -> isSeverity c ->
            (compareDiffs localeCompare a b <= 0)%Z ->
            (compareDiffs localeCompare b c <= 0)%Z ->
            (compareDiffs localeCompare a c <= 0)%Z) as Htrans.
  { intros a b c Ha Hb Hc Hab Hbc. apply compareDiffs_le_iff; auto.
    apply compareDiffs_le_iff in Hab; auto. apply compareDiffs_le_iff in Hbc; auto.
    exact (findingLe_trans a b c Ha Hb Hc Hab Hbc). }
  apply (stable_sorted_unique (compareDiffs localeCompare) isSeverity).
  - intros a _. rewrite compareDiffs_same_type by reflexivity.
    apply (collation_refl _ collation).
  - apply compareDiffs_antisym.
  - exact Hl'.
  - rewrite Hp. symmetry. apply sortBy_perm.
  - now apply (Sorted_StronglySorted_on isSeverity).
  - apply (Sorted_StronglySorted_on isSeverity); [exact Htrans|exact Hls|].
    apply sortBy_Sorted, compareDiffs_total.
  - intros k _. rewrite Hf. symmetry. apply sortBy_filter.
    intros a b. apply compareDiffs_class.
Qed.

(** C1. The sort of the findings of a file orders them by severity rank,
    Info before Warning before Error, and findings of equal severity by
    rule id in the ascending order of the collation: the sorted sequence
    holds the same findings, every finding is below all the later ones in
    the order (severity rank, rule id), and the comparison function looks
    at the rule ids only when the severities are equal. *)
Theorem sort_by_severity_then_ruleId (l : list Diff) :
  Forall isSeverity l ->
  Permutation (sortDiffs localeCompare l) l
  /\ StronglySorted (findingLe localeCompare) (sortDiffs localeCompare l)
  /\ (forall a b, isSeverity a -> isSeverity b ->
        (type a <> type b ->
           ((compareDiffs localeCompare a b <= 0)%Z <->
            severityRank (type a) < severityRank (type b)))
        /\ (type a = type b ->
              compareDiffs localeCompare a b = localeCompare (id a) (id b))).
Proof.
  intros Hl.
  assert (Permutation (sortDiffs localeCompare l) l) as Hp by apply sortBy_perm.
  assert (Forall isSeverity (sortDiffs localeCompare l)) as Hs.
  { eapply Permutation_Forall; [symmetry; exact Hp|exact Hl]. }
  split; [exact Hp|]. split.
  - apply (Sorted_StronglySorted_on isSeverity); [apply findingLe_trans|exact Hs|].
    apply (Sorted_impl_on isSeverity
             (fun a b => (compareDiffs localeCompare a b <= 0)%Z)); [|exact Hs|].
    + intros a b Ha Hb. now apply compareDiffs_le_iff.
    + apply sortBy_Sorted. apply compareDiffs_total.
  - intros a b Ha Hb. split.
    + now apply compareDiffs_le_rank.
    + apply compareDiffs_same_type.
Qed.

(** C8. On findings of the severities Info, Warning and Error, where the
    comparison function is consistent, the sort is stable and idempotent:
    the findings that share the severity and the rule id of any given
    finding come out in the order they came in, and so do those that the
    comparison function holds equal to it; sorting twice is sorting once,
    and a sequence whose adjacent findings are in order is returned as it
    is. *)
Theorem sort_stable_idempotent (l : list Diff) :
  Forall isSeverity l ->
  (forall k, filter (sameKey k) (sortDiffs localeCompare l) = filter (sameKey k) l)
  /\ sortDiffs localeCompare (sortDiffs localeCompare l) = sortDiffs localeCompare l
  /\ (Sorted (fun a b => (compareDiffs localeCompare a b <= 0)%Z) l ->
      sortDiffs localeCompare l = l)
  /\ (forall k, filter (fun y => compareDiffs localeCompare k y = 0%Z)
                  (sortDiffs localeCompare l)
                = filter (fun y => compareDiffs localeCompare k y = 0%Z) l)
  /\ StronglySorted (fun a b => (compareDiffs localeCompare a b <= 0)%Z)
       (sortDiffs localeCompare l).
Proof.
  intros Hl. split; [|split; [|split; [|split]]].
  - intros k. apply sortBy_filter.
    intros a b [Ta Ia] [Tb Ib].
    rewrite compareDiffs_same_type by congruence.
    rewrite <- Ia, <- Ib, (collation_refl _ collation). lia.
  - apply sortBy_idempotent, compareDiffs_total.
  - apply sortBy_fixed.
  - intros k. apply sortBy_filter. intros a b. apply compareDiffs_class.
  - apply (Sorted_StronglySorted_on isSeverity).
    + intros a b c Ha Hb Hc Hab Hbc. apply compareDiffs_le_iff; auto.
      apply compareDiffs_le_iff in Hab; auto. apply compareDiffs_le_iff in Hbc; auto.
      exact (findingLe_trans a b c Ha Hb Hc Hab Hbc).
    + eapply Permutation_Forall; [symmetry; apply sortBy_perm|exact Hl].
    + apply sortBy_Sorted, compareDiffs_total.
Qed.

End SorterFacts.

Lemma isSeverity_findings : Forall Spec.isSeverity Examples.findings.
Proof. repeat constructor; vm_compute; tauto. Qed.

Example sort_findings :
  BreakingChange.sortDiffs Spec.codeUnitCompare Examples.findings =
  [ Examples.diff "Info" "1001"; Examples.diff "Warning" "1001";
    Examples.diff "Warning" "1002";
    BreakingChange.mkDiff "Warning" "1002" "Other" "second";
    Examples.diff "Error" "1003"; Examples.diff "Error" "1005" ].
Proof. reflexivity. Qed.

Lemma sort_by_severity_then_ruleId_witness :
  Spec.Collation Spec.codeUnitCompare
  /\ Forall Spec.isSeverity Examples.findings
  /\ Permutation (BreakingChange.sortDiffs Spec.codeUnitCompare Examples.findings)
       Examples.findings
  /\ StronglySorted (Spec.findingLe Spec.codeUnitCompare)
       (BreakingChange.sortDiffs Spec.codeUnitCompare Examples.findings).
Proof.
  split; [exact codeUnitCompare_collation|].
  split; [exact isSeverity_findings|].
  pose proof (sort_by_severity_then_ruleId Spec.codeUnitCompare
                codeUnitCompare_collation Examples.findings isSeverity_findings)
    as [Hp [Hs _]].
  split; assumption.
Defined.

Lemma sort_stable_idempotent_witness :
  Spec.Collation Spec.codeUnitCompare
  /\ Forall Spec.isSeverity Examples.findings
  /\ filter (Spec.sameKey (Examples.diff "Warning" "1002"))
       (BreakingChange.sortDiffs Spec.codeUnitCompare Examples.findings)
     = [ Examples.diff "Warning" "1002";
         BreakingChange.mkDiff "Warning" "1002" "Other" "second" ].
Proof.
  split; [exact codeUnitCompare_collation|].
  split; [exact isSeverity_findings|].
  pose proof (sort_stable_idempotent Spec.codeUnitCompare
                codeUnitCompare_collation Examples.findings isSeverity_findings)
    as [Hst _].
  rewrite Hst. reflexivity.
Defined.

(* ===================================================================== *)
(** * The repairers *)
(* ===================================================================== *)

Section RepairFacts.
Import JsString Json Js Spec Examples.

(** [indexOf] is -1 exactly on a text without the character. *)
Lemma indexOfFrom_none (c : ascii) (s : string) (i : Z) :
  (0 <= i)%Z ->
  indexOfFrom c s i = (-1)%Z <-> ~ In c (list_ascii_of_string s).
Proof.
  revert i. induction s as [|b s IH]; intros i Hi; simpl.
  - tauto.
  - destruct (Ascii.eqb b c) eqn:E.
    + apply Ascii.eqb_eq in E. split; [lia|]. intros H. exfalso. apply H. now left.
    + apply Ascii.eqb_neq in E. rewrite (IH (i + 1)%Z) by lia. tauto.
Qed.

Lemma indexOf_noBrace (chunk : string) :
  (indexOf "{" chunk =? -1)%Z = true <-> noBrace chunk.
Proof.
  rewrite Z.eqb_eq. unfold indexOf, noBrace. now apply indexOfFrom_none.
Qed.

Lemma parseLinterOutput_brace (chunk : string) :
  ~ noBrace chunk ->
  Linter.parseLinterOutput chunk =
  match JSON_parse (Linter.repairLinter chunk) with
  | Some jsonResult => Ok (Linter.items jsonResult)
  | None => Exit 1
  end.
Proof.
  intros H. unfold Linter.parseLinterOutput.
  destruct (indexOf "{" chunk =? -1)%Z eqn:E; [|reflexivity].
  exfalso. apply H. now apply indexOf_noBrace.
Qed.

Lemma parseLinterOutput_noBrace (chunk : string) :
  noBrace chunk -> Linter.parseLinterOutput chunk = Ok [].
Proof.
  intros H. unfold Linter.parseLinterOutput.
  apply indexOf_noBrace in H. now rewrite H.
Qed.

Lemma runOad_parse (compare : string -> string -> outcome string)
    (oldSpec newSpec chunk : string) :
  isBlank oldSpec = false -> isBlank newSpec = false ->
  compare oldSpec newSpec = Ok chunk -> chunk <> EmptyString ->
  BreakingChange.runOad compare oldSpec newSpec =
  match JSON_parse (BreakingChange.repairOad chunk) with
  | Some v => Ok (Some (BreakingChange.asDiffs v))
  | None => Throw SyntaxErr
  end.
Proof.
  intros Ho Hn Hc Hne. unfold BreakingChange.runOad. rewrite Ho, Hn, Hc.
  destruct chunk; [congruence|reflexivity].
Qed.

(** C2, as the code has it. The repairer of the diff tool ([runOad]) scans
    the chunk from the left, replaces each closing brace that is followed by
    a run of white space and an opening brace by a brace, a comma and a
    brace, keeps every other character, puts the result between brackets and
    parses it; the two records of the example, separated by a space, come
    out as two records in their order. The repairer of the linter
    ([getLinterResult]), on a chunk that contains a brace, removes the
    progress reports, drops what precedes the first brace, trims, puts a
    comma between a closing and an opening brace that only a newline
    separates, and parses the result between brackets; a progress report
    and the two records on two lines come out as the two records in their
    order. *)
Theorem repairers_as_written (chunk : string) :
  BreakingChange.repairOad chunk = "[" +:+ replaceAll reBraceGap "},{" chunk +:+ "]"
  /\ (forall ws rest, isGap ws ->
        replaceAll reBraceGap "},{" ("}" +:+ ws +:+ "{" +:+ rest)
        = "},{" +:+ replaceAll reBraceGap "},{" rest)
  /\ (forall c r,
        (forall ws rest, isGap ws -> String c r <> "}" +:+ ws +:+ "{" +:+ rest) ->
        replaceAll reBraceGap "},{" (String c r)
        = String c (replaceAll reBraceGap "},{" r))
  /\ (forall compare oldSpec newSpec,
        isBlank oldSpec = false -> isBlank newSpec = false ->
        compare oldSpec newSpec = Ok chunk -> chunk <> EmptyString ->
        BreakingChange.runOad compare oldSpec newSpec =
        match JSON_parse (BreakingChange.repairOad chunk) with
        | Some v => Ok (Some (BreakingChange.asDiffs v))
        | None => Throw SyntaxErr
        end)
  /\ JSON_parse (BreakingChange.repairOad spaced) = Some (JArray [recA; recB])
  /\ (~ noBrace chunk ->
      Linter.parseLinterOutput chunk =
      match JSON_parse (Linter.repairLinter chunk) with
      | Some jsonResult => Ok (Linter.items jsonResult)
      | None => Exit 1
      end)
  /\ (let stripped := replaceAll reBatchTask EmptyString chunk in
      Linter.repairLinter chunk =
      "[" +:+ replaceAll reBraceNewline ("}," +:+ nl +:+ "{")
                (trim (substring (indexOf "{" stripped) stripped)) +:+ "]")
  /\ (forall c r rest, reBatchTask (String c r) = Some rest ->
        (exists body,
           String c r = "Processing batch task - {" +:+ body +:+ "} ." +:+ nl +:+ rest
           /\ includes nl body = false)
        /\ replaceAll reBatchTask EmptyString (String c r)
           = replaceAll reBatchTask EmptyString rest)
  /\ (forall rest,
        replaceAll reBraceNewline ("}," +:+ nl +:+ "{") ("}" +:+ nl +:+ "{" +:+ rest)
        = "}," +:+ nl +:+ "{" +:+ replaceAll reBraceNewline ("}," +:+ nl +:+ "{") rest)
  /\ Linter.parseLinterOutput (progress +:+ lined) = Ok [recA; recB].
Proof.
  split; [reflexivity|]. split.
  { intros ws rest Hws.
    apply (replaceAll_match reBraceGap "},{" "}" (ws +:+ "{" +:+ rest) rest);
      [apply reBraceGap_consuming|].
    now apply (reBraceGap_gap ws rest). }
  split.
  { intros c r Hno. apply replaceAll_keep.
    destruct (reBraceGap (String c r)) as [rest|] eqn:E; [|reflexivity].
    apply reBraceGap_iff in E as (ws & Hws & E). now apply Hno in E. }
  split; [intros; now apply runOad_parse|].
  split; [reflexivity|].
  split; [apply parseLinterOutput_brace|].
  split; [reflexivity|]. split.
  { intros c r rest E. split; [now apply reBatchTask_inv|].
    rewrite (replaceAll_match reBatchTask EmptyString c r rest);
      [reflexivity|apply reBatchTask_consuming|exact E]. }
  split; [|reflexivity].
  intros rest.
  change (replaceAll reBraceNewline ("}," +:+ nl +:+ "{")
            (String "}" (nl +:+ "{" +:+ rest))
          = ("}," +:+ nl +:+ "{")
            +:+ replaceAll reBraceNewline ("}," +:+ nl +:+ "{") rest).
  apply replaceAll_match; [apply reBraceNewline_consuming|].
  apply (lit_append ("}" +:+ nl +:+ "{") rest).
Qed.

(** C2, where it fails. On the example of the specification the repairer of
    the linter, the one that looks for a brace and removes progress reports,
    inserts no comma between the records, which a space separates, and the
    process ends with code 1; the repairer of the diff tool keeps a progress
    report, and its result does not parse. *)
Lemma repairer_counterexample :
  ~ noBrace spaced
  /\ Linter.repairLinter spaced = "[" +:+ spaced +:+ "]"
  /\ parseText (Linter.repairLinter spaced) = SyntaxError
  /\ Linter.parseLinterOutput spaced = Exit 1
  /\ BreakingChange.repairOad (progress +:+ spaced)
     = "[" +:+ progress +:+ recordText "1" +:+ "," +:+ recordText "2" +:+ "]"
  /\ parseText (BreakingChange.repairOad (progress +:+ spaced)) = SyntaxError.
Proof.
  split; [|repeat split; reflexivity].
  intros H. apply indexOf_noBrace in H. discriminate H.
Qed.

(** C9. On a chunk without the character '{' the repairer of
    [getLinterResult] returns the empty sequence and does not fail: so does
    [getLinterResult] on every existing file whose linter run was not
    cancelled and printed such a chunk. *)
Theorem no_brace_empty_result (chunk : string) :
  noBrace chunk ->
  Linter.parseLinterOutput chunk = Ok []
  /\ forall env swaggerPath w,
       isBlank swaggerPath = false ->
       Linter.existsSync env (Linter.tree w) swaggerPath = true ->
       Linter.cancelled
         (Linter.exec env (Linter.tree w) (Linter.command swaggerPath)) = false ->
       Linter.stdout (Linter.exec env (Linter.tree w) (Linter.command swaggerPath))
       +:+ Linter.stderr (Linter.exec env (Linter.tree w) (Linter.command swaggerPath))
       = chunk ->
       fst (Linter.getLinterResult env (Some swaggerPath) w) = Ok [].
Proof.
  intros H. split; [now apply parseLinterOutput_noBrace|].
  intros env p w Hb He Hc Ho. unfold Linter.getLinterResult.
  rewrite Hb, He, Hc, Ho. simpl. now apply parseLinterOutput_noBrace.
Qed.

Lemma no_brace_empty_result_witness :
  noBrace "AutoRest finished"
  /\ Linter.parseLinterOutput "AutoRest finished" = Ok []
  /\ fst (Linter.getLinterResult linterQuiet (Some configA) Linter.initial) = Ok [].
Proof.
  assert (noBrace "AutoRest finished") as H.
  { apply indexOf_noBrace. reflexivity. }
  split; [exact H|].
  destruct (no_brace_empty_result "AutoRest finished" H) as [H1 H2].
  split; [exact H1|].
  apply H2; reflexivity.
Defined.

End RepairFacts.

(* ===================================================================== *)
(** * Loops *)
(* ===================================================================== *)

Section LoopFacts.
Import Js.
Context {S A : Type} (body : A -> S -> outcome unit * S).

Lemma forEach_cons (x : A) (xs : list A) (st : S) :
  forEach body (x :: xs) st =
  match body x st with
  | (Ok _, st') => forEach body xs st'
  | (o, st') => (o, st')
  end.
Proof. reflexivity. Qed.

(** What every body preserves holds when the loop ends, however it ends. *)
Lemma forEach_preserves (P : S -> Prop) (xs : list A) (st : S) :
  (forall x st, P st -> P (snd (body x st))) ->
  P st -> P (snd (forEach body xs st)).
Proof.
  intros Hbody. revert st. induction xs as [|x xs IH]; intros st Hst; [exact Hst|].
  rewrite forEach_cons. specialize (Hbody x st Hst).
  destruct (body x st) as [[u|e|c] st']; simpl in *; auto.
Qed.


End LoopFacts.

(* ===================================================================== *)
(** * The breaking-change flow *)
(* ===================================================================== *)

Section BreakingChangeFacts.
Import JsString Json Js BreakingChange Spec.

Lemma countSeverity_cons (t : string) (d : Diff) (diffs : list Diff) :
  countSeverity t (d :: diffs) =
  (if String.eqb (type d) t then 1 else 0) + countSeverity t diffs.
Proof.
  unfold countSeverity. rewrite filter_cons.
  destruct (String.eqb_spec (type d) t) as [E|N];
    destruct (decide (type d = t)); try contradiction; reflexivity.
Qed.

(** The loop over the findings of a file adds their numbers to the
    counters and leaves the rest alone. *)
Lemma fold_countDiff (diffs : list Diff) (st : State) :
  errors (fold_left countDiff diffs st) = errors st + countSeverity "Error" diffs
  /\ warnings (fold_left countDiff diffs st) = warnings st + countSeverity "Warning" diffs
  /\ diffFiles (fold_left countDiff diffs st) = diffFiles st
  /\ newFiles (fold_left countDiff diffs st) = newFiles st
  /\ resolvedMapForNewSpecs (fold_left countDiff diffs st) = resolvedMapForNewSpecs st.
Proof.
  revert st. induction diffs as [|d diffs IH]; intros st.
  - unfold countSeverity. simpl. repeat split; lia.
  - simpl fold_left. destruct (IH (countDiff st d)) as (He & Hw & Hd & Hn & Hr).
    rewrite He, Hw, Hd, Hn, Hr, !countSeverity_cons. unfold countDiff.
    destruct (String.eqb_spec (type d) "Error") as [E|NE].
    + rewrite E. simpl. destruct (errors st =? 0); simpl; repeat split; lia.
    + destruct (String.eqb (type d) "Warning"); simpl; repeat split; lia.
Qed.

(** Once an error is counted the exit code is 1. *)
Lemma fold_countDiff_exitCode (diffs : list Diff) (st : State) :
  (errors st <> 0 -> exitCode st = Some 1%Z) ->
  errors (fold_left countDiff diffs st) <> 0 ->
  exitCode (fold_left countDiff diffs st) = Some 1%Z.
Proof.
  revert st. induction diffs as [|d diffs IH]; intros st Hst; [exact Hst|].
  simpl fold_left. apply IH. unfold countDiff.
  destruct (String.eqb (type d) "Error").
  - destruct (errors st =? 0) eqn:E; simpl; intros _; [reflexivity|].
    apply Hst. now apply Nat.eqb_neq.
  - destruct (String.eqb (type d) "Warning"); simpl; exact Hst.
Qed.

Lemma compareAll_exitCode (env : Env) (newSwaggers swaggers : list string) (st : State) :
  (errors st <> 0 -> exitCode st = Some 1%Z) ->
  errors (snd (compareAll env newSwaggers swaggers st)) <> 0 ->
  exitCode (snd (compareAll env newSwaggers swaggers st)) = Some 1%Z.
Proof.
  unfold compareAll.
  apply (forEach_preserves (compareOne env newSwaggers)
           (fun s => errors s <> 0 -> exitCode s = Some 1%Z)).
  intros x s Hs. unfold compareOne.
  destruct (arrayIncludes newSwaggers x); [exact Hs|].
  destruct (resolvedMapForNewSpecs s !! x) as [[|c r]|]; [exact Hs| |exact Hs].
  destruct (runOad (compare env) x (String c r)) as [[diffs|]| |];
    simpl; try exact Hs.
  apply fold_countDiff_exitCode. exact Hs.
Qed.


Lemma totalOf_insert (t k : string) (diffs : list Diff) (m : gmap string (list Diff)) :
  m !! k = None ->
  totalOf t (<[k := diffs]> m) = totalOf t m + countSeverity t diffs.
Proof.
  intros H. unfold totalOf. rewrite map_fold_insert_L; [reflexivity| |exact H].
  intros. lia.
Qed.

(** One turn of the comparison loop: nothing changes, or the file is
    listed as new, or its findings are stored and counted. *)
Lemma compareOne_cases (env : Env) (newSwaggers : list string) (swagger : string)
    (st : State) :
  let st' := snd (compareOne env newSwaggers swagger st) in
  st' = st
  \/ (arrayIncludes newSwaggers swagger = true /\ st' = pushNewFile swagger st)
  \/ (arrayIncludes newSwaggers swagger = false
      /\ exists diffs, st' = fold_left countDiff diffs (setDiffs swagger diffs st)).
Proof.
  unfold compareOne.
  destruct (arrayIncludes newSwaggers swagger) eqn:E; [right; left; auto|].
  destruct (resolvedMapForNewSpecs st !! swagger) as [[|c r]|]; [now left| |now left].
  destruct (runOad (compare env) swagger (String c r)) as [[diffs|]| |];
    simpl; [|now left..].
  right; right. eauto.
Qed.


(** The AutoRest pass touches neither the counters nor the two reports. *)
Lemma processAll_keeps (env : Env) (newSwaggers swaggers : list string) (st : State) :
  let st' := snd (processAll env newSwaggers swaggers st) in
  errors st' = errors st /\ warnings st' = warnings st
  /\ diffFiles st' = diffFiles st /\ newFiles st' = newFiles st.
Proof.
  unfold processAll.
  apply (forEach_preserves (processOne env newSwaggers)
           (fun s => errors s = errors st /\ warnings s = warnings st
                     /\ diffFiles s = diffFiles st /\ newFiles s = newFiles st));
    [|auto].
  intros x s Hs. unfold processOne, processViaAutoRest.
  destruct (arrayIncludes newSwaggers x); [exact Hs|].
  destruct (isBlank x); [exact Hs|].
  destruct (autorest env x); exact Hs.
Qed.

(** It does not write the exit code. *)
Lemma processAll_exitCode (env : Env) (newSwaggers swaggers : list string) (st : State) :
  exitCode (snd (processAll env newSwaggers swaggers st)) = exitCode st.
Proof.
  unfold processAll.
  apply (forEach_preserves (processOne env newSwaggers)
           (fun s => exitCode s = exitCode st)); [|reflexivity].
  intros x s Hs. unfold processOne, processViaAutoRest.
  destruct (arrayIncludes newSwaggers x); [exact Hs|].
  destruct (isBlank x); [exact Hs|].
  destruct (autorest env x); exact Hs.
Qed.

Lemma runLoops_state (env : Env) (swaggers : list string) :
  exists st0,
    errors st0 = 0 /\ warnings st0 = 0 /\ diffFiles st0 = ∅ /\ newFiles st0 = []
    /\ (snd (runLoops env swaggers) = st0
        \/ snd (runLoops env swaggers)
           = snd (compareAll env (findNewSwaggers env swaggers) swaggers st0)).
Proof.
  unfold runLoops.
  pose proof (processAll_keeps env (findNewSwaggers env swaggers) swaggers initial)
    as (H1 & H2 & H3 & H4).
  destruct (processAll env (findNewSwaggers env swaggers) swaggers initial)
    as [[u|e|c] st0]; simpl in *; exists st0; repeat split; auto.
Qed.

Lemma fold_countDiff_exit (c0 : option Z) (diffs : list Diff) (st : State) :
  (errors st = 0 -> exitCode st = c0) ->
  (errors st <> 0 -> exitCode st = Some 1%Z) ->
  (errors (fold_left countDiff diffs st) = 0 ->
   exitCode (fold_left countDiff diffs st) = c0)
  /\ (errors (fold_left countDiff diffs st) <> 0 ->
      exitCode (fold_left countDiff diffs st) = Some 1%Z).
Proof.
  revert st. induction diffs as [|d diffs IH]; intros st H0 H1; [auto|].
  simpl fold_left. unfold countDiff.
  destruct (String.eqb (type d) "Error").
  - apply IH.
    + destruct (errors st =? 0); simpl; lia.
    + destruct (errors st =? 0) eqn:E; simpl; intros _; [reflexivity|].
      apply H1. now apply Nat.eqb_neq.
  - destruct (String.eqb (type d) "Warning"); apply IH; simpl; assumption.
Qed.

(** The comparison pass keeps the exit code of the AutoRest pass until it
    counts its first error, and sets it to 1 then. *)
Lemma compareAll_exit (env : Env) (new swaggers : list string) (st0 : State) :
  errors st0 = 0 ->
  (errors (snd (compareAll env new swaggers st0)) = 0 ->
   exitCode (snd (compareAll env new swaggers st0)) = exitCode st0)
  /\ (errors (snd (compareAll env new swaggers st0)) <> 0 ->
      exitCode (snd (compareAll env new swaggers st0)) = Some 1%Z).
Proof.
  intros He0. unfold compareAll.
  apply (forEach_preserves (compareOne env new)
           (fun s => (errors s = 0 -> exitCode s = exitCode st0)
                     /\ (errors s <> 0 -> exitCode s = Some 1%Z)));
    [|split; [auto|intros H; congruence]].
  intros x s [H0 H1]. unfold compareOne.
  destruct (arrayIncludes new x); [split; assumption|].
  destruct (resolvedMapForNewSpecs s !! x) as [[|c r]|]; try (split; assumption).
  destruct (runOad (compare env) x (String c r)) as [[ds|]| |];
    try (split; assumption).
  cbn [snd]. apply fold_countDiff_exit; assumption.
Qed.

(** [runScript] ends as its loops end; when they return, the report block
    has run on their state. *)
Lemma runScript_report (env : Env) (swaggers : list string) :
  fst (runScript env swaggers) = fst (runLoops env swaggers)
  /\ ((fst (runLoops env swaggers) = Ok tt
       /\ snd (runScript env swaggers) = report env (snd (runLoops env swaggers)))
      \/ (fst (runLoops env swaggers) <> Ok tt
          /\ snd (runScript env swaggers) = snd (runLoops env swaggers))).
Proof.
  unfold runScript. destruct (runLoops env swaggers) as [[[]|e|c] st]; simpl.
  - split; [reflexivity|]. left. auto.
  - split; [reflexivity|]. right. split; [discriminate|reflexivity].
  - split; [reflexivity|]. right. split; [discriminate|reflexivity].
Qed.

Lemma countSeverity_perm (t : string) (l l' : list Diff) :
  Permutation l l' -> countSeverity t l = countSeverity t l'.
Proof. intros H. unfold countSeverity. now rewrite H. Qed.

Lemma totalOf_fmap (t : string) (f : list Diff -> list Diff)
    (m : gmap string (list Diff)) :
  (forall l, countSeverity t (f l) = countSeverity t l) ->
  totalOf t (f <$> m) = totalOf t m.
Proof.
  intros Hf. induction m as [|k l m Hk _ IH] using map_first_key_ind.
  - now rewrite fmap_empty.
  - rewrite fmap_insert, !totalOf_insert, IH, Hf; [reflexivity|exact Hk|].
    now rewrite lookup_fmap, Hk.
Qed.

(** The report block reorders the list of new files and the findings of
    each file; it changes nothing else. *)
Lemma report_keeps (env : Env) (st : State) :
  errors (report env st) = errors st
  /\ warnings (report env st) = warnings st
  /\ exitCode (report env st) = exitCode st
  /\ scheduled (report env st) = scheduled st
  /\ resolvedMapForNewSpecs (report env st) = resolvedMapForNewSpecs st
  /\ Permutation (newFiles (report env st)) (newFiles st)
  /\ (forall t, totalOf t (diffFiles (report env st)) = totalOf t (diffFiles st))
  /\ (forall k, diffFiles (report env st) !! k = None <-> diffFiles st !! k = None).
Proof.
  unfold report. destruct (isRunningInTravisCI env); simpl.
  - repeat split; try reflexivity.
    + apply sortBy_perm.
    + intros t. apply totalOf_fmap. intros l. apply countSeverity_perm.
      apply sortBy_perm.
    + rewrite lookup_fmap. destruct (diffFiles st !! k); simpl; [discriminate|auto].
    + intros H. now rewrite lookup_fmap, H.
  - repeat split; auto.
Qed.






End BreakingChangeFacts.

(* ===================================================================== *)
(** * The linter dual-run flow *)
(* ===================================================================== *)

Section LinterFacts.
Import JsString Json Js Linter Spec.

Variable env : Env.

(** [getLinterResult] changes neither the report nor the working tree, and
    adds at most the call of [exec] to the trace. *)
Lemma getLinterResult_world (swaggerPath : option string) (w : World) :
  let w' := snd (getLinterResult env swaggerPath w) in
  files w' = files w /\ tree w' = tree w
  /\ (trace w' = trace w
      \/ exists p, swaggerPath = Some p /\ existsSync env (tree w) p = true
                   /\ trace w' = trace w ++ [EvExec (command p) (tree w)]).
Proof.
  unfold getLinterResult. destruct swaggerPath as [p|]; [|simpl; auto].
  destruct (isBlank p); [simpl; auto|].
  destruct (existsSync env (tree w) p) eqn:E; simpl; [|auto].
  destruct (cancelled (exec env (tree w) (command p))); simpl;
    repeat split; right; eauto.
Qed.

(** Its result depends on the world through the working tree only. *)
Lemma getLinterResult_fst (swaggerPath : option string) (w1 w2 : World) :
  tree w1 = tree w2 ->
  fst (getLinterResult env swaggerPath w1) = fst (getLinterResult env swaggerPath w2).
Proof.
  intros H. unfold getLinterResult. destruct swaggerPath as [p|]; [|reflexivity].
  destruct (isBlank p); [reflexivity|]. rewrite H.
  destruct (existsSync env (tree w2) p); [|reflexivity]. simpl.
  destruct (cancelled (exec env (tree w2) (command p))); reflexivity.
Qed.

Lemma entry_updateResult (spec ph : string) (errors : list json) (w : World)
    (k ph' : string) :
  entry (files (updateResult spec errors ph w)) k ph' =
  if decide (k = spec /\ ph' = ph) then Some errors else entry (files w) k ph'.
Proof.
  unfold updateResult, entry. simpl.
  destruct (decide (k = spec)) as [->|Hk].
  - rewrite lookup_insert_eq.
    destruct (decide (ph' = ph)) as [->|Hp].
    + rewrite lookup_insert_eq. rewrite decide_True by auto. reflexivity.
    + rewrite lookup_insert_ne by auto. rewrite decide_False by tauto.
      destruct (files w !! spec); [reflexivity|]. simpl. apply lookup_empty.
  - rewrite lookup_insert_ne by auto. rewrite decide_False by tauto. reflexivity.
Qed.

(** One run of the tools. *)
Lemma runTools_world (ph swagger : string) (w : World) :
  let w' := snd (runTools env ph swagger w) in
  tree w' = tree w
  /\ (exists evs, trace w' = trace w ++ evs /\ Forall (runEvent ph (tree w)) evs)
  /\ match fst (runTools env ph swagger w) with
     | Ok _ => exists r, fst (getLinterResult env (Some swagger) w) = Ok r
                         /\ files w' = files (updateResult swagger r ph w)
     | _ => files w' = files w
     end.
Proof.
  unfold runTools.
  pose proof (getLinterResult_world (Some swagger)
                (emit (EvTool swagger ph (tree w)) w)) as (Hf & Ht & Htr).
  rewrite (getLinterResult_fst (Some swagger) w (emit (EvTool swagger ph (tree w)) w))
    by reflexivity.
  destruct (getLinterResult env (Some swagger) (emit (EvTool swagger ph (tree w)) w))
    as [[r|e|c] w1]; simpl in *.
  - split; [exact Ht|]. split; [|exists r; split; [reflexivity|now rewrite Hf]].
    destruct Htr as [-> | (p & _ & _ & ->)].
    + eexists. split; [reflexivity|]. repeat constructor.
    + rewrite <- app_assoc. eexists. split; [reflexivity|]. repeat constructor.
  - split; [exact Ht|]. split; [|exact Hf].
    destruct Htr as [-> | (p & _ & _ & ->)].
    + eexists. split; [reflexivity|]. repeat constructor.
    + rewrite <- app_assoc. eexists. split; [reflexivity|]. repeat constructor.
  - split; [exact Ht|]. split; [|exact Hf].
    destruct Htr as [-> | (p & _ & _ & ->)].
    + eexists. split; [reflexivity|]. repeat constructor.
    + rewrite <- app_assoc. eexists. split; [reflexivity|]. repeat constructor.
Qed.

(** The runs of one phase stay in the working tree and add only events of
    that phase in that tree. *)
Lemma forEach_runTools_trace (ph : string) (configs : list string) (w : World) :
  let w' := snd (forEach (runTools env ph) configs w) in
  tree w' = tree w
  /\ exists evs, trace w' = trace w ++ evs /\ Forall (runEvent ph (tree w)) evs.
Proof.
  revert w. induction configs as [|x xs IH]; intros w.
  - simpl. split; [reflexivity|]. exists []. split; [now rewrite app_nil_r|constructor].
  - rewrite forEach_cons.
    pose proof (runTools_world ph x w) as (Ht & (evs & Htr & Hev) & _).
    destruct (runTools env ph x w) as [[u|e|c] w1]; simpl in *;
      try (split; [exact Ht|]; exists evs; now split).
    destruct (IH w1) as (Ht' & evs' & Htr' & Hev').
    split; [congruence|]. exists (evs ++ evs'). split.
    + rewrite Htr', Htr. now rewrite app_assoc.
    + apply Forall_app. split; [exact Hev|]. now rewrite <- Ht.
Qed.

(** When the runs of a phase all return, the report holds, for every file of
    the run, the result of the linter on it, and is otherwise as before. *)
Lemma forEach_runTools_entries (ph : string) (configs : list string) (w w' : World)
    (u : unit) :
  forEach (runTools env ph) configs w = (Ok u, w') ->
  (forall k, In k configs ->
     exists r, fst (getLinterResult env (Some k) w) = Ok r
               /\ entry (files w') k ph = Some r)
  /\ (forall k ph', ~ (In k configs /\ ph' = ph) ->
        entry (files w') k ph' = entry (files w) k ph').
Proof.
  revert w. induction configs as [|x xs IH]; intros w H.
  - simpl in H. injection H as _ <-. split; [intros k []|reflexivity].
  - rewrite forEach_cons in H.
    pose proof (runTools_world ph x w) as (Ht & _ & Hf).
    destruct (runTools env ph x w) as [[u1|e|c] w1]; simpl in Ht, H; cbn [fst snd] in Hf;
      try discriminate.
    destruct Hf as (r & Hr & Hf).
    destruct (IH w1 H) as (IH1 & IH2). split.
    + intros k Hk. destruct (in_dec string_dec k xs) as [Hin|Hnin].
      * destruct (IH1 k Hin) as (r' & Hr' & He). exists r'. split; [|exact He].
        now rewrite (getLinterResult_fst (Some k) w w1 (eq_sym Ht)).
      * destruct Hk as [<-|Hk]; [|contradiction].
        exists r. split; [exact Hr|].
        rewrite IH2 by tauto. rewrite Hf, entry_updateResult.
        now rewrite decide_True by auto.
    + intros k ph' Hno.
      rewrite IH2 by (intros [? ?]; apply Hno; split; [now right|assumption]).
      rewrite Hf, entry_updateResult. rewrite decide_False; [reflexivity|].
      intros [-> ->]. apply Hno. split; [now left|reflexivity].
Qed.

Lemma checkouts_app (a b : list event) :
  checkouts (a ++ b) = checkouts a + checkouts b.
Proof.
  induction a as [|e a IH]; [reflexivity|]. simpl. destruct e; simpl; lia.
Qed.

Lemma checkouts_none (P : event -> Prop) (l : list event) :
  (forall e, P e -> forall b, e <> EvCheckout b) -> Forall P l -> checkouts l = 0.
Proof.
  intros HP. induction 1 as [|e l He _ IH]; [reflexivity|].
  simpl. destruct e; try exact IH. now destruct (HP _ He branch).
Qed.

Lemma writeEvent_no_checkout (e : event) : writeEvent e -> forall b, e <> EvCheckout b.
Proof. destruct e; simpl; intros H b; congruence || contradiction. Qed.

Lemma runEvent_no_checkout (ph : string) (t : checkout) (e : event) :
  runEvent ph t e -> forall b, e <> EvCheckout b.
Proof. destruct e; simpl; intros H b; congruence || contradiction. Qed.

Lemma closingEvent_no_checkout (e : event) :
  closingEvent e -> forall b, e <> EvCheckout b.
Proof. destruct e; simpl; intros H b; congruence || contradiction. Qed.

Lemma createLogFile_world :
  files (createLogFile env initial) = ∅
  /\ tree (createLogFile env initial) = None
  /\ Forall writeEvent (trace (createLogFile env initial)).
Proof.
  unfold createLogFile. destruct (logExists env); simpl; repeat split;
    repeat constructor.
Qed.

(** The five ways in which [runScript] ends. *)
Lemma runScript_cases (configs : list string) :
  let w0 := createLogFile env initial in
  let tb := targetBranch env in
  (configs = [] /\ runScript env configs = (Ok tt, writeContent w0))
  \/ (configs <> [] /\ exists o w1,
        forEach (runTools env "after") configs w0 = (o, w1)
        /\ (forall u, o <> Ok u) /\ runScript env configs = (o, w1))
  \/ (configs <> [] /\ exists w1,
        forEach (runTools env "after") configs w0 = (Ok tt, w1)
        /\ checkoutOk env = false
        /\ runScript env configs = (Throw (Rejected "ReferenceStateUnavailable"), w1))
  \/ (configs <> [] /\ exists w1 o w3,
        forEach (runTools env "after") configs w0 = (Ok tt, w1)
        /\ checkoutOk env = true
        /\ forEach (runTools env "before") configs
             (setTree (Some tb) (emit (EvCheckout tb) w1)) = (o, w3)
        /\ (forall u, o <> Ok u) /\ runScript env configs = (o, w3))
  \/ (configs <> [] /\ exists w1 w3,
        forEach (runTools env "after") configs w0 = (Ok tt, w1)
        /\ checkoutOk env = true
        /\ forEach (runTools env "before") configs
             (setTree (Some tb) (emit (EvCheckout tb) w1)) = (Ok tt, w3)
        /\ runScript env configs
           = (Ok tt, writeContent (setTree (tree w1) (emit EvRestore w3)))).
Proof.
  intros w0 tb. destruct configs as [|c cs]; [left; split; reflexivity|].
  right. unfold runScript. fold w0. fold tb.
  change (0 <? length (c :: cs)) with true. cbv beta iota.
  destruct (forEach (runTools env "after") (c :: cs) w0) as [[[]|e|x] w1] eqn:Ea.
  - unfold doOnBranch. destruct (checkoutOk env) eqn:Ec.
    + right; right.
      destruct (forEach (runTools env "before") (c :: cs)
                  (setTree (Some tb) (emit (EvCheckout tb) w1)))
        as [[[]|e|x] w3] eqn:Eb.
      * right. split; [discriminate|]. exists w1, w3. repeat split; first [reflexivity|assumption].
      * left. split; [discriminate|]. exists w1, (Throw e), w3.
        repeat split; try reflexivity; try assumption. discriminate.
      * left. split; [discriminate|]. exists w1, (Exit x), w3.
        repeat split; try reflexivity; try assumption. discriminate.
    + right; left. split; [discriminate|]. exists w1. repeat split; first [reflexivity|assumption].
  - left. split; [discriminate|]. exists (Throw e), w1.
    repeat split; try reflexivity; try assumption. discriminate.
  - left. split; [discriminate|]. exists (Exit x), w1.
    repeat split; try reflexivity; try assumption. discriminate.
Qed.

(** The trace of a dual run: the creation of the log file, the "after"
    runs in the working tree of the pull request, then either the end, or
    one checkout of the target branch followed by the "before" runs in that
    checkout and the end. *)
Lemma runScript_trace (configs : list string) :
  exists opening afters befores closing,
    Forall writeEvent opening /\ Forall afterEvent afters
    /\ Forall (beforeEvent (targetBranch env)) befores
    /\ Forall closingEvent closing
    /\ ((trace (snd (runScript env configs)) = opening ++ afters ++ closing
         /\ (configs <> [] -> forall u, fst (runScript env configs) <> Ok u))
        \/ (trace (snd (runScript env configs))
            = opening ++ afters ++ EvCheckout (targetBranch env) :: befores ++ closing
            /\ configs <> [])).
Proof.
  destruct createLogFile_world as (_ & Ht0 & Hop).
  set (w0 := createLogFile env initial) in *.
  assert (forall w1 o, forEach (runTools env "after") configs w0 = (o, w1) ->
            tree w1 = None
            /\ exists afters, trace w1 = trace w0 ++ afters /\ Forall afterEvent afters)
    as Hafter.
  { intros w1 o E.
    pose proof (forEach_runTools_trace "after" configs w0) as (Ht & evs & Htr & Hev).
    rewrite E in Ht, Htr. simpl in Ht, Htr. rewrite Ht0 in Ht, Hev. eauto. }
  assert (forall w1 w3 o,
            forEach (runTools env "before") configs
              (setTree (Some (targetBranch env)) (emit (EvCheckout (targetBranch env)) w1))
            = (o, w3) ->
            exists befores,
              trace w3 = (trace w1 ++ [EvCheckout (targetBranch env)]) ++ befores
              /\ Forall (beforeEvent (targetBranch env)) befores) as Hbefore.
  { intros w1 w3 o E.
    pose proof (forEach_runTools_trace "before" configs
                  (setTree (Some (targetBranch env))
                     (emit (EvCheckout (targetBranch env)) w1)))
      as (_ & evs & Htr & Hev).
    rewrite E in Htr. simpl in Htr, Hev. eauto. }
  destruct (runScript_cases configs)
    as [[-> E]|[(Hne & o & w1 & Ea & Ho & E)|[(Hne & w1 & Ea & Hc & E)
       |[(Hne & w1 & o & w3 & Ea & Hc & Eb & Ho & E)
        |(Hne & w1 & w3 & Ea & Hc & Eb & E)]]]]; fold w0 in E; rewrite E; simpl.
  - exists (trace w0), [], [], [EvWrite (Some (files w0))].
    split; [exact Hop|]. split; [constructor|]. split; [constructor|].
    split; [repeat constructor|].
    left. split; [reflexivity|congruence].
  - destruct (Hafter w1 o Ea) as (_ & afters & -> & Haf).
    exists (trace w0), afters, [], [].
    split; [exact Hop|]. split; [exact Haf|]. split; [constructor|].
    split; [constructor|].
    left. split; [now rewrite app_nil_r|auto].
  - destruct (Hafter w1 _ Ea) as (_ & afters & -> & Haf).
    exists (trace w0), afters, [], [].
    split; [exact Hop|]. split; [exact Haf|]. split; [constructor|].
    split; [constructor|].
    left. split; [now rewrite app_nil_r|discriminate].
  - destruct (Hafter w1 _ Ea) as (_ & afters & Htr1 & Haf).
    destruct (Hbefore w1 w3 o Eb) as (befores & -> & Hbf). rewrite Htr1.
    exists (trace w0), afters, befores, [].
    split; [exact Hop|]. split; [exact Haf|]. split; [exact Hbf|].
    split; [constructor|].
    right. split; [|exact Hne]. now rewrite app_nil_r, <- !app_assoc.
  - destruct (Hafter w1 _ Ea) as (_ & afters & Htr1 & Haf).
    destruct (Hbefore w1 w3 _ Eb) as (befores & -> & Hbf). rewrite Htr1.
    exists (trace w0), afters, befores,
      [EvRestore; EvWrite (Some (files w3))].
    split; [exact Hop|]. split; [exact Haf|]. split; [exact Hbf|].
    split; [repeat constructor|].
    right. split; [|exact Hne]. now rewrite <- !app_assoc.
Qed.

(** A run whose "after" runs do not all return ends there, before any
    checkout. *)
Lemma runScript_after_fails (configs : list string) :
  (forall u, fst (forEach (runTools env "after") configs (createLogFile env initial))
             <> Ok u) ->
  checkouts (trace (snd (runScript env configs))) = 0.
Proof.
  intros Hfail.
  destruct (runScript_cases configs)
    as [[-> E]|[(Hne & o & w1 & Ea & Ho & E)|[(Hne & w1 & Ea & Hc & E)
       |[(Hne & w1 & o & w3 & Ea & Hc & Eb & Ho & E)
        |(Hne & w1 & w3 & Ea & Hc & Eb & E)]]]];
    try (rewrite Ea in Hfail; now destruct (Hfail tt)).
  - now destruct (Hfail tt).
  - rewrite E. cbn [snd].
    pose proof (forEach_runTools_trace "after" configs (createLogFile env initial))
      as (_ & evs & Htr & Hev).
    rewrite Ea in Htr. cbn [snd] in Htr. rewrite Htr, checkouts_app.
    destruct createLogFile_world as (_ & _ & Hop).
    rewrite (checkouts_none writeEvent _ writeEvent_no_checkout Hop).
    now rewrite (checkouts_none _ evs (runEvent_no_checkout _ _) Hev).
Qed.

End LinterFacts.

Section DualRunFacts.
Import JsString Json Js Linter Spec.

(** C6, as the code has it. In a dual run the checkout capability is
    invoked at most once: not at all when there is no config file or when an
    "after" run fails, once otherwise. The trace is the creation of the log
    file, the "after" runs, all in the working tree of the pull request,
    then either the end or the one checkout of the target branch followed
    by the "before" runs, all in that checkout, and the end: no "before"
    run comes before the checkout, between "after" runs or after the
    restore, and there is no second checkout. A run that returns on at
    least one config file has invoked it exactly once. *)
Theorem single_checkout (env : Env) (configsToProcess : list string) :
  (exists opening afters befores closing,
     Forall writeEvent opening /\ Forall afterEvent afters
     /\ Forall (beforeEvent (targetBranch env)) befores
     /\ Forall closingEvent closing
     /\ (trace (snd (runScript env configsToProcess)) = opening ++ afters ++ closing
         \/ trace (snd (runScript env configsToProcess))
            = opening ++ afters ++ EvCheckout (targetBranch env) :: befores ++ closing))
  /\ checkouts (trace (snd (runScript env configsToProcess))) <= 1
  /\ (configsToProcess <> [] -> fst (runScript env configsToProcess) = Ok tt ->
      checkouts (trace (snd (runScript env configsToProcess))) = 1)
  /\ (configsToProcess = [] ->
      checkouts (trace (snd (runScript env configsToProcess))) = 0)
  /\ ((forall u, fst (forEach (runTools env "after") configsToProcess
                        (createLogFile env initial)) <> Ok u) ->
      checkouts (trace (snd (runScript env configsToProcess))) = 0).
Proof.
  assert ((forall u, fst (forEach (runTools env "after") configsToProcess
                            (createLogFile env initial)) <> Ok u) ->
          checkouts (trace (snd (runScript env configsToProcess))) = 0) as Hafter
    by apply runScript_after_fails.
  destruct (runScript_trace env configsToProcess)
    as (opening & afters & befores & closing & Hop & Haf & Hbf & Hcl & Hshape).
  pose proof (checkouts_none writeEvent opening writeEvent_no_checkout Hop) as C1.
  pose proof (checkouts_none afterEvent afters (runEvent_no_checkout _ _) Haf) as C2.
  pose proof (checkouts_none (beforeEvent (targetBranch env)) befores
                (runEvent_no_checkout _ _) Hbf) as C3.
  pose proof (checkouts_none closingEvent closing closingEvent_no_checkout Hcl) as C4.
  split.
  { exists opening, afters, befores, closing.
    repeat (split; [assumption|]). destruct Hshape as [[E _]|[E _]]; auto. }
  destruct Hshape as [[E Hno]|[E Hne]]; rewrite E in Hafter |- *.
  - rewrite !checkouts_app, C1, C2, C4. repeat split; try lia.
    intros Hne Hok. now destruct (Hno Hne tt).
  - assert (checkouts (opening ++ afters
                         ++ EvCheckout (targetBranch env) :: befores ++ closing) = 1)
      as C.
    { rewrite !checkouts_app. simpl. rewrite checkouts_app, C1, C2, C3, C4.
      reflexivity. }
    rewrite C in Hafter |- *.
    split; [lia|]. split; [reflexivity|]. split; [intros ->; congruence|exact Hafter].
Qed.

(** C6, where it fails: a dual run on no config file returns without
    invoking the checkout capability, and so does a run that ends in an
    "after" run. *)
Lemma checkout_counterexample :
  fst (runScript Examples.linterEnv []) = Ok tt
  /\ checkouts (trace (snd (runScript Examples.linterEnv []))) = 0
  /\ fst (runScript Examples.linterSpaced [Examples.configA]) = Exit 1
  /\ checkouts (trace (snd (runScript Examples.linterSpaced [Examples.configA]))) = 0.
Proof. repeat split; reflexivity. Qed.

Lemma getLinterResult_missing (env : Env) (swaggerPath : string) (w : World) :
  existsSync env (tree w) swaggerPath = false ->
  getLinterResult env (Some swaggerPath) w = (Ok [], w)
  \/ (isBlank swaggerPath = true
      /\ getLinterResult env (Some swaggerPath) w = (Throw (ErrorMsg requiredMsg), w)).
Proof.
  intros H. unfold getLinterResult. destruct (isBlank swaggerPath); [now right|].
  rewrite H. now left.
Qed.

(** The "before" entry of a file that is absent from the target branch,
    in a dual run that returns. *)
Lemma runScript_before_missing (env : Env) (configs : list string) (file : string) :
  fst (runScript env configs) = Ok tt ->
  In file configs ->
  existsSync env (Some (targetBranch env)) file = false ->
  entry (files (snd (runScript env configs))) file "before" = Some [].
Proof.
  intros Hok Hin Hex.
  destruct (runScript_cases env configs)
    as [[-> E]|[(Hne & o & w1 & Ea & Ho & E)|[(Hne & w1 & Ea & Hc & E)
       |[(Hne & w1 & o & w3 & Ea & Hc & Eb & Ho & E)
        |(Hne & w1 & w3 & Ea & Hc & Eb & E)]]]]; rewrite E in Hok |- *; simpl in Hok.
  - destruct Hin.
  - now destruct (Ho tt).
  - discriminate.
  - now destruct (Ho tt).
  - simpl. destruct (forEach_runTools_entries env "before" configs _ _ _ Eb)
      as (H1 & _).
    destruct (H1 file Hin) as (r & Hr & He). rewrite He.
    destruct (getLinterResult_missing env file
                (setTree (Some (targetBranch env))
                   (emit (EvCheckout (targetBranch env)) w1)) Hex) as [G|[_ G]];
      rewrite G in Hr; simpl in Hr; congruence.
Qed.

(** C10. On a path that names no file of the working tree the linter-result
    operation returns the empty sequence and leaves the world as it is: the
    external tool is not invoked. A dual run that returns has therefore
    recorded an empty "before" sequence for a file absent from the target
    branch. The path is not blank, as the operation requires. *)
Theorem missing_file_empty_result (env : Env) (swaggerPath : string) (w : World) :
  isBlank swaggerPath = false ->
  existsSync env (tree w) swaggerPath = false ->
  getLinterResult env (Some swaggerPath) w = (Ok [], w)
  /\ (tree w = Some (targetBranch env) ->
      forall configs,
        In swaggerPath configs -> fst (runScript env configs) = Ok tt ->
        entry (files (snd (runScript env configs))) swaggerPath "before" = Some []).
Proof.
  intros Hb Hex. split.
  - destruct (getLinterResult_missing env swaggerPath w Hex) as [G|[B _]];
      [exact G|congruence].
  - intros Ht configs Hin Hok. rewrite Ht in Hex.
    now apply runScript_before_missing.
Qed.

Lemma missing_file_empty_result_witness :
  isBlank Examples.configB = false
  /\ existsSync Examples.linterEnv (Some "master") Examples.configB = false
  /\ entry (files (snd (runScript Examples.linterEnv
                          [Examples.configA; Examples.configB])))
       Examples.configB "before" = Some []
  /\ entry (files (snd (runScript Examples.linterEnv
                          [Examples.configA; Examples.configB])))
       Examples.configB "after" = Some [Examples.recA; Examples.recB].
Proof.
  split; [reflexivity|]. split; [reflexivity|]. split; [|reflexivity].
  destruct (missing_file_empty_result Examples.linterEnv Examples.configB
              (setTree (Some "master") initial) eq_refl eq_refl) as [_ H].
  apply H; [reflexivity| |reflexivity].
  right; left; reflexivity.
Defined.

(** In a dual run that returns every config file has its "before"
    entry, so every config file is a key of the report. *)
Lemma runScript_before_entry (env : Env) (configs : list string) (file : string) :
  fst (runScript env configs) = Ok tt ->
  In file configs ->
  exists r, entry (files (snd (runScript env configs))) file "before" = Some r.
Proof.
  intros Hok Hin.
  destruct (runScript_cases env configs)
    as [[-> E]|[(Hne & o & w1 & Ea & Ho & E)|[(Hne & w1 & Ea & Hc & E)
       |[(Hne & w1 & o & w3 & Ea & Hc & Eb & Ho & E)
        |(Hne & w1 & w3 & Ea & Hc & Eb & E)]]]]; rewrite E in Hok |- *; simpl in Hok.
  - destruct Hin.
  - now destruct (Ho tt).
  - discriminate.
  - now destruct (Ho tt).
  - simpl. destruct (forEach_runTools_entries env "before" configs _ _ _ Eb)
      as (H1 & _).
    destruct (H1 file Hin) as (r & _ & He). eauto.
Qed.

End DualRunFacts.

Section NewFileFacts.
Import JsString Json Js Spec.

(** The comparison loop lists as new only files of [newSwaggers] and stores
    findings only for files outside of it. *)
Lemma compareAll_disjoint (env : BreakingChange.Env) (newSwaggers swaggers : list string)
    (st : BreakingChange.State) :
  (forall f, In f (BreakingChange.newFiles st) -> arrayIncludes newSwaggers f = true) ->
  (forall f, is_Some (BreakingChange.diffFiles st !! f) ->
             arrayIncludes newSwaggers f = false) ->
  let st' := snd (BreakingChange.compareAll env newSwaggers swaggers st) in
  (forall f, In f (BreakingChange.newFiles st') -> arrayIncludes newSwaggers f = true)
  /\ (forall f, is_Some (BreakingChange.diffFiles st' !! f) ->
                arrayIncludes newSwaggers f = false).
Proof.
  intros H1 H2. unfold BreakingChange.compareAll.
  apply (forEach_preserves (BreakingChange.compareOne env newSwaggers)
           (fun s =>
              (forall f, In f (BreakingChange.newFiles s) ->
                         arrayIncludes newSwaggers f = true)
              /\ (forall f, is_Some (BreakingChange.diffFiles s !! f) ->
                            arrayIncludes newSwaggers f = false))); [|auto].
  clear. intros x s [H1 H2].
  destruct (compareOne_cases env newSwaggers x s) as [E|[[Hx E]|[Hx [diffs E]]]];
    simpl in E; rewrite E.
  - auto.
  - simpl. split; [|exact H2]. intros f Hf. apply in_app_or in Hf as [Hf|[<-|[]]]; auto.
  - destruct (fold_countDiff diffs (BreakingChange.setDiffs x diffs s))
      as (_ & _ & E3 & E4 & _).
    rewrite E3, E4. simpl. split; [exact H1|].
    intros f Hf. destruct (decide (x = f)) as [<-|Hne]; [exact Hx|].
    rewrite lookup_insert_ne in Hf by exact Hne. auto.
Qed.

(** C5, as the code has it. In the breaking-change flow a file listed as
    newly added is no key of the findings of the same run. The dual-run
    flow of the linter computes no set of new files: a run that returns has
    an entry for every config file, and for a config file that is absent
    from the target branch the entry holds the empty "before" sequence. *)
Theorem new_files_and_reports :
  (forall (env : BreakingChange.Env) (swaggersToProcess : list string) (f : string),
     In f (BreakingChange.newFiles (snd (BreakingChange.runScript env swaggersToProcess))) ->
     BreakingChange.diffFiles (snd (BreakingChange.runScript env swaggersToProcess)) !! f
     = None)
  /\ (forall (env : Linter.Env) (configsToProcess : list string) (f : string),
        fst (Linter.runScript env configsToProcess) = Ok tt ->
        In f (newFileSet (Linter.existsSync env (Some (Linter.targetBranch env)))
                configsToProcess) ->
        is_Some (Linter.files (snd (Linter.runScript env configsToProcess)) !! f)
        /\ entry (Linter.files (snd (Linter.runScript env configsToProcess))) f "before"
           = Some [])
  /\ (forall (env : Linter.Env) (configsToProcess : list string) (f : string),
        fst (Linter.runScript env configsToProcess) = Ok tt ->
        In f configsToProcess ->
        is_Some (Linter.files (snd (Linter.runScript env configsToProcess)) !! f)).
Proof.
  split; [|split].
  - intros env sws f Hf.
    assert (forall st,
              (forall g, In g (BreakingChange.newFiles st) ->
                         arrayIncludes (BreakingChange.findNewSwaggers env sws) g = true)
              /\ (forall g, is_Some (BreakingChange.diffFiles st !! g) ->
                            arrayIncludes (BreakingChange.findNewSwaggers env sws) g = false) ->
              In f (BreakingChange.newFiles st) ->
              BreakingChange.diffFiles st !! f = None) as Hdisj.
    { intros st [H1 H2] Hin. apply H1 in Hin.
      destruct (BreakingChange.diffFiles st !! f) eqn:E; [|reflexivity].
      rewrite (H2 f) in Hin; [discriminate|]. rewrite E. eauto. }
    assert (In f (BreakingChange.newFiles (snd (BreakingChange.runLoops env sws))) ->
            BreakingChange.diffFiles (snd (BreakingChange.runLoops env sws)) !! f = None)
      as Hloops.
    { apply Hdisj.
      destruct (runLoops_state env sws) as (st0 & _ & _ & D0 & N0 & [-> | ->]).
      + rewrite D0, N0. split; [intros g []|].
        intros g Hg. rewrite lookup_empty in Hg. now destruct Hg.
      + apply compareAll_disjoint.
        * rewrite N0. intros g [].
        * rewrite D0. intros g Hg. rewrite lookup_empty in Hg. now destruct Hg. }
    destruct (runScript_report env sws) as [_ [[_ E]|[_ E]]]; rewrite E in Hf |- *;
      [|now apply Hloops].
    destruct (report_keeps env (snd (BreakingChange.runLoops env sws)))
      as (_ & _ & _ & _ & _ & Hp & _ & Hk).
    apply Hk, Hloops. eapply Permutation_in; [exact Hp|exact Hf].
  - intros env configs f Hok Hf.
    unfold newFileSet in Hf. apply list_elem_of_In, list_elem_of_filter in Hf as [Hex Hin].
    apply list_elem_of_In in Hin.
    pose proof (runScript_before_missing env configs f Hok Hin Hex) as He.
    split; [|exact He].
    unfold entry in He.
    destruct (Linter.files (snd (Linter.runScript env configs)) !! f);
      [eauto|discriminate].
  - intros env configs f Hok Hin.
    destruct (runScript_before_entry env configs f Hok Hin) as [r He].
    unfold entry in He.
    destruct (Linter.files (snd (Linter.runScript env configs)) !! f);
      [eauto|discriminate].
Qed.

(** C5, where it fails: in a dual run a config file that the pull request
    adds, absent from the target branch, is a key of the report of that
    run. *)
Lemma new_file_counterexample :
  In Examples.configB
    (newFileSet (Linter.existsSync Examples.linterEnv (Some "master"))
       [Examples.configA; Examples.configB])
  /\ fst (Linter.runScript Examples.linterEnv [Examples.configA; Examples.configB])
     = Ok tt
  /\ is_Some (Linter.files
                (snd (Linter.runScript Examples.linterEnv
                        [Examples.configA; Examples.configB])) !! Examples.configB)
  /\ entry (Linter.files
              (snd (Linter.runScript Examples.linterEnv
                      [Examples.configA; Examples.configB])))
       Examples.configB "after" = Some [Examples.recA; Examples.recB].
Proof.
  split.
  { apply list_elem_of_In, list_elem_of_filter.
    split; [reflexivity|]. apply list_elem_of_In. right; left; reflexivity. }
  split; [reflexivity|]. split; [|reflexivity]. vm_compute. eauto.
Qed.

End NewFileFacts.

Section ModelValidationFacts.
Import JsString Json Js ModelValidation Spec.

Variable env : Env.

Lemma pushUrl_location (d : Details) (ps : list PathItem) :
  pushUrl env d ps = ps ++ location env "Url" (url d) (position d).
Proof.
  unfold pushUrl, location, truthy.
  destruct (url d) as [[|c u]|]; destruct (position d) as [p|];
    try reflexivity; now rewrite app_nil_r.
Qed.

Lemma pushJsonUrl_location (d : Details) (ps : list PathItem) :
  pushJsonUrl env d ps = ps ++ location env "JsonUrl" (jsonUrl d) (jsonPosition d).
Proof.
  unfold pushJsonUrl, location, truthy.
  destruct (jsonUrl d) as [[|c u]|]; destruct (jsonPosition d) as [p|];
    try reflexivity; now rewrite app_nil_r.
Qed.

Lemma location_length (t : string) (u : option string) (p : option Position) :
  length (location env t u p) <= 1.
Proof. unfold location. destruct u as [[|c u]|]; destruct p; simpl; lia. Qed.

Lemma location_In (t : string) (u : option string) (p : option Position)
    (item : PathItem) :
  In item (location env t u p) ->
  tag item = t
  /\ exists v q, u = Some v /\ v <> EmptyString /\ p = Some q
                 /\ path item = href env (Some v) q.
Proof.
  unfold location. destruct u as [[|c u]|]; destruct p as [q|]; simpl; try tauto.
  intros [<-|[]]. split; [reflexivity|].
  exists (String c u), q. repeat split. discriminate.
Qed.

(** C7. The classifier gives a record at most two locations, the source
    location before the location in the compiled JSON; each is there
    exactly when its url is a non-empty text and its position, which holds
    the line, is known, and is left out otherwise. On an error without
    details the classifier raises a TypeError and gives no record. *)
Theorem locations_need_path_and_position (it : ModelValidationError) :
  match toResult env it with
  | Returns r =>
      exists d,
        details it = Some d
        /\ paths r = location env "Url" (url d) (position d)
                     ++ location env "JsonUrl" (jsonUrl d) (jsonPosition d)
        /\ length (paths r) <= 2
        /\ (forall item, In item (paths r) ->
              (tag item = "Url"
               /\ exists u p, url d = Some u /\ u <> EmptyString /\ position d = Some p
                              /\ path item = href env (Some u) p)
              \/ (tag item = "JsonUrl"
                  /\ exists u p, jsonUrl d = Some u /\ u <> EmptyString
                                 /\ jsonPosition d = Some p
                                 /\ path item = href env (Some u) p))
        /\ (url d = None \/ url d = Some EmptyString \/ position d = None ->
            forall item, In item (paths r) -> tag item <> "Url")
        /\ (jsonUrl d = None \/ jsonUrl d = Some EmptyString \/ jsonPosition d = None ->
            forall item, In item (paths r) -> tag item <> "JsonUrl")
  | Throws e => details it = None /\ e = TypeErr
  end.
Proof.
  unfold toResult. destruct (details it) as [d|]; [|split; reflexivity].
  exists d. split; [reflexivity|]. simpl paths.
  rewrite pushJsonUrl_location, pushUrl_location. simpl app.
  split; [reflexivity|]. split.
  { rewrite length_app.
    pose proof (location_length "Url" (url d) (position d)).
    pose proof (location_length "JsonUrl" (jsonUrl d) (jsonPosition d)). lia. }
  split.
  { intros item Hin. apply in_app_or in Hin as [H|H];
      apply location_In in H as (Ht & u & p & Hu & Hne & Hp & Hpath);
      [left|right]; split; eauto 10. }
  split.
  - intros Habs item Hin. apply in_app_or in Hin as [H|H];
      apply location_In in H as (Ht & u & p & Hu & Hne & Hp & Hpath).
    + destruct Habs as [E|[E|E]]; congruence.
    + rewrite Ht. discriminate.
  - intros Habs item Hin. apply in_app_or in Hin as [H|H];
      apply location_In in H as (Ht & u & p & Hu & Hne & Hp & Hpath).
    + rewrite Ht. discriminate.
    + destruct Habs as [E|[E|E]]; congruence.
Qed.




End ModelValidationFacts.

Section MalformedOutputFacts.
Import JsString Json Js Spec.





End MalformedOutputFacts.

(* ===================================================================== *)
(** * More on the model-validation flow *)
(* ===================================================================== *)

Section ModelValidationMore.
Import JsString Json Js ModelValidation Spec.

Variable env : Env.

Lemma mapResults_cases (errors : list ModelValidationError) :
  match mapResults env errors with
  | Returns rs =>
      Forall (fun it => details it <> None) errors
      /\ Forall2 (fun it r => toResult env it = Returns r) errors rs
  | Throws e => e = TypeErr /\ Exists (fun it => details it = None) errors
  end.
Proof.
  induction errors as [|it errors IH]; simpl.
  - split; constructor.
  - unfold toResult at 1. destruct (details it) as [d|] eqn:E.
    + fold (toResult env it).
      destruct (mapResults env errors) as [rs|e].
      * destruct IH as [H1 H2]. split.
        -- constructor; [congruence|exact H1].
        -- constructor; [|exact H2]. unfold toResult. now rewrite E.
      * destruct IH as [-> H]. split; [reflexivity|]. now apply Exists_cons_tl.
    + split; [reflexivity|]. now apply Exists_cons_hd.
Qed.

(** X2. The records of a file are all or nothing: the errors of the
    validator become one record each, in their order, when every error
    carries details; a single error without details raises a TypeError and
    no record of that file is kept. *)
Theorem records_all_or_nothing (errors : list ModelValidationError) :
  (Forall (fun it => details it <> None) errors ->
   exists rs, mapResults env errors = Returns rs
              /\ length rs = length errors
              /\ Forall2 (fun it r => toResult env it = Returns r) errors rs)
  /\ (Exists (fun it => details it = None) errors ->
      mapResults env errors = Throws TypeErr).
Proof.
  pose proof (mapResults_cases errors) as H.
  destruct (mapResults env errors) as [rs|e].
  - destruct H as [H1 H2]. split.
    + intros _. exists rs. repeat split; [|exact H2].
      symmetry. eapply Forall2_length, H2.
    + intros Hex. exfalso. apply Exists_exists in Hex as (it & Hin & Hnone).
      rewrite Forall_forall in H1. exact (H1 it Hin Hnone).
  - destruct H as [-> Hex]. split; [|reflexivity].
    intros Hall. exfalso. apply Exists_exists in Hex as (it & Hin & Hnone).
    rewrite Forall_forall in Hall. exact (Hall it Hin Hnone).
Qed.

Lemma fold_validateOne_exitCode (swaggers : list string) (st : State) :
  (exitCode st = 0%Z \/ exitCode st = 1%Z) ->
  (exitCode (fold_left (validateOne env) swaggers st) = 0%Z
   \/ exitCode (fold_left (validateOne env) swaggers st) = 1%Z)
  /\ (exitCode (fold_left (validateOne env) swaggers st) = 0%Z <->
      exitCode st = 0%Z /\ failed env swaggers = []
      /\ Forall (fun datas => datas = []) (reported env swaggers)).
Proof.
  revert st. induction swaggers as [|s swaggers IH]; intros st Hst.
  - simpl. split; [exact Hst|]. unfold failed, reported. simpl.
    split; [intros H; repeat split; auto|tauto].
  - simpl fold_left. unfold failed, reported in *. simpl omap.
    assert (exitCode (validateOne env st s) = 0%Z
            \/ exitCode (validateOne env st s) = 1%Z) as Hst'.
    { unfold validateOne. destruct (pipelineResultDatas env s) as [datas|e]; simpl;
        [destruct (0 <? length datas)|]; auto. }
    destruct (IH _ Hst') as [H01 Hiff]. split; [exact H01|].
    rewrite Hiff. unfold validateOne.
    destruct (pipelineResultDatas env s) as [datas|e]; simpl.
    + rewrite Forall_cons. destruct datas as [|d datas]; simpl.
      * tauto.
      * split; [intros (H & _); discriminate|intros (_ & _ & H & _); discriminate].
    + split; [intros (H & _); discriminate|intros (_ & H & _); discriminate].
Qed.

(** X3. The exit code of the model validation is 0 or 1, and it is 0
    exactly when no file threw and no file produced a record: one record,
    or one failure, on any file makes the whole run fail. *)
Theorem exit_code_of_main (swaggers : list string) :
  (exitCode (main env swaggers) = 0%Z \/ exitCode (main env swaggers) = 1%Z)
  /\ (exitCode (main env swaggers) = 0%Z <->
      Forall (fun s => pipelineResultDatas env s = Returns []) swaggers).
Proof.
  unfold main.
  destruct (fold_validateOne_exitCode swaggers initial (or_introl eq_refl))
    as [H01 Hiff].
  split; [exact H01|]. rewrite Hiff. clear.
  induction swaggers as [|s swaggers IH].
  - unfold failed, reported. simpl. split; intros; repeat split; constructor.
  - unfold failed, reported in *. simpl omap. rewrite Forall_cons.
    destruct (pipelineResultDatas env s) as [datas|e]; simpl.
    + rewrite Forall_cons. split.
      * intros (_ & Hf & -> & Hr). split; [reflexivity|]. apply IH. auto.
      * intros (E & H). injection E as ->. apply IH in H as (_ & Hf & Hr). auto.
    + split; [intros (_ & H & _); discriminate|intros (H & _); discriminate].
Qed.

End ModelValidationMore.

Section LoopMore.
Import Js.
Context {S A : Type} (body : A -> S -> outcome unit * S).

(** What the bodies of the elements of the list preserve holds when the
    loop ends. *)
Lemma forEach_preserves_in (P : S -> Prop) (xs : list A) (st : S) :
  (forall x st, In x xs -> P st -> P (snd (body x st))) ->
  P st -> P (snd (forEach body xs st)).
Proof.
  revert st. induction xs as [|x xs IH]; intros st Hbody Hst; [exact Hst|].
  rewrite forEach_cons. pose proof (Hbody x st (or_introl eq_refl) Hst) as Hx.
  destruct (body x st) as [[u|e|c] st']; simpl in *; auto.
Qed.

End LoopMore.

(* ===================================================================== *)
(** * More on the linter dual-run flow *)
(* ===================================================================== *)

Section LinterMore.
Import JsString Json Js Linter Spec.

Variable env : Env.

(** X4. [updateResult] stores the result under the file and the phase and
    changes nothing else: not the other phase of the file, no other file,
    neither the working tree nor the trace. Storing twice keeps the later
    result. *)
Theorem updateResult_lookup (spec ph : string) (errors : list json) (w : World) :
  entry (files (updateResult spec errors ph w)) spec ph = Some errors
  /\ (forall k ph', (k, ph') <> (spec, ph) ->
        entry (files (updateResult spec errors ph w)) k ph' = entry (files w) k ph')
  /\ (forall k, k <> spec -> files (updateResult spec errors ph w) !! k = files w !! k)
  /\ tree (updateResult spec errors ph w) = tree w
  /\ trace (updateResult spec errors ph w) = trace w
  /\ (forall errors', updateResult spec errors ph (updateResult spec errors' ph w)
                      = updateResult spec errors ph w).
Proof.
  split; [|split; [|split; [|split; [|split]]]]; try reflexivity.
  - rewrite entry_updateResult. now rewrite decide_True by auto.
  - intros k ph' Hne. rewrite entry_updateResult. rewrite decide_False; [reflexivity|].
    intros [-> ->]. now apply Hne.
  - intros k Hne. unfold updateResult. simpl. now rewrite lookup_insert_ne by auto.
  - intros errors'. unfold updateResult, setFiles. simpl. f_equal.
    rewrite lookup_insert_eq. simpl.
    now rewrite insert_insert_eq, insert_insert_eq.
Qed.

Lemma runTools_keys (ph x : string) (w : World) (k : string) :
  k <> x -> files (snd (runTools env ph x w)) !! k = files w !! k.
Proof.
  intros Hne. pose proof (runTools_world env ph x w) as (_ & _ & Hf).
  destruct (runTools env ph x w) as [[u|e|c] w']; simpl in *;
    try (now rewrite Hf).
  destruct Hf as (r & _ & ->). unfold updateResult. simpl.
  now rewrite lookup_insert_ne by auto.
Qed.

Lemma forEach_runTools_keys (ph : string) (configs : list string) (w : World)
    (k : string) :
  ~ In k configs ->
  files (snd (forEach (runTools env ph) configs w)) !! k = files w !! k.
Proof.
  intros Hk.
  apply (forEach_preserves_in (runTools env ph)
           (fun w' => files w' !! k = files w !! k)); [|reflexivity].
  intros x st Hx Hst. rewrite runTools_keys; [exact Hst|].
  intros ->. contradiction.
Qed.

(** X5. The report of a dual run that returns holds, for every config
    file, the result of the linter in the working tree of the pull request
    under "after" and its result in the checkout of the target branch
    under "before", and nothing else: no other phase and no other file. *)
Theorem dual_report_contents (configsToProcess : list string) :
  fst (runScript env configsToProcess) = Ok tt ->
  (forall c, In c configsToProcess ->
     exists ra rb,
       fst (getLinterResult env (Some c) initial) = Ok ra
       /\ fst (getLinterResult env (Some c)
                 (setTree (Some (targetBranch env)) initial)) = Ok rb
       /\ entry (files (snd (runScript env configsToProcess))) c "after" = Some ra
       /\ entry (files (snd (runScript env configsToProcess))) c "before" = Some rb)
  /\ (forall k ph, ~ (In k configsToProcess /\ (ph = "after" \/ ph = "before")) ->
        entry (files (snd (runScript env configsToProcess))) k ph = None)
  /\ (forall k, ~ In k configsToProcess ->
        files (snd (runScript env configsToProcess)) !! k = None).
Proof.
  intros Hok.
  destruct (createLogFile_world env) as (Hf0 & Ht0 & _).
  destruct (runScript_cases env configsToProcess)
    as [[-> E]|[(Hne & o & w1 & Ea & Ho & E)|[(Hne & w1 & Ea & Hc & E)
       |[(Hne & w1 & o & w3 & Ea & Hc & Eb & Ho & E)
        |(Hne & w1 & w3 & Ea & Hc & Eb & E)]]]]; rewrite E in Hok |- *;
    simpl in Hok; try discriminate; try (now destruct (Ho tt)).
  - simpl. split; [intros c []|]. unfold entry. rewrite Hf0.
    split; intros; now rewrite lookup_empty.
  - cbn [snd].
    change (files (writeContent (setTree (tree w1) (emit EvRestore w3))))
      with (files w3).
    destruct (forEach_runTools_entries env "after" configsToProcess _ _ _ Ea)
      as (A1 & A2).
    destruct (forEach_runTools_entries env "before" configsToProcess _ _ _ Eb)
      as (B1 & B2).
    pose proof (forEach_runTools_trace env "after" configsToProcess
                  (createLogFile env initial)) as (Ht1 & _).
    rewrite Ea in Ht1. simpl in Ht1.
    split; [|split].
    + intros c Hc'. destruct (A1 c Hc') as (ra & Hra & Ea').
      destruct (B1 c Hc') as (rb & Hrb & Eb').
      exists ra, rb. split; [|split; [|split]].
      * rewrite <- Hra. apply getLinterResult_fst. now rewrite Ht0.
      * rewrite <- Hrb. apply getLinterResult_fst. reflexivity.
      * rewrite B2 by (intros [_ H]; discriminate H). exact Ea'.
      * exact Eb'.
    + intros k ph Hno.
      rewrite B2 by (intros [H1 H2]; apply Hno; auto).
      change (files (setTree (Some (targetBranch env))
                       (emit (EvCheckout (targetBranch env)) w1)))
        with (files w1).
      rewrite A2 by (intros [H1 H2]; apply Hno; auto).
      unfold entry. rewrite Hf0. now rewrite lookup_empty.
    + intros k Hk.
      pose proof (forEach_runTools_keys "before" configsToProcess
                    (setTree (Some (targetBranch env))
                       (emit (EvCheckout (targetBranch env)) w1)) k Hk) as K2.
      rewrite Eb in K2. simpl in K2. rewrite K2.
      pose proof (forEach_runTools_keys "after" configsToProcess
                    (createLogFile env initial) k Hk) as K1.
      rewrite Ea in K1. simpl in K1. rewrite K1, Hf0. apply lookup_empty.
Qed.

(** The events of the runs of the tools are entries into [runTools] and
    calls of [exec] on files of the list that exist in the working tree. *)
Lemma forEach_runTools_events (P : event -> Prop) (ph : string)
    (configs : list string) (w : World) :
  (forall x t, P (EvTool x ph t)) ->
  (forall p t, In p configs -> existsSync env t p = true -> P (EvExec (command p) t)) ->
  Forall P (trace w) ->
  Forall P (trace (snd (forEach (runTools env ph) configs w))).
Proof.
  intros HT HE.
  apply (forEach_preserves_in (runTools env ph) (fun w' => Forall P (trace w'))).
  intros x st Hx Hst. unfold runTools.
  pose proof (getLinterResult_world env (Some x) (emit (EvTool x ph (tree st)) st))
    as (_ & _ & Htr).
  assert (Forall P (trace (emit (EvTool x ph (tree st)) st))) as Hst'.
  { simpl. apply Forall_app. split; [exact Hst|]. constructor; [apply HT|constructor]. }
  assert (Forall P (trace (snd (getLinterResult env (Some x)
                                  (emit (EvTool x ph (tree st)) st))))) as Hg.
  { destruct Htr as [-> | (p & Ep & Hex & ->)]; [exact Hst'|].
    injection Ep as <-. apply Forall_app. split; [exact Hst'|].
    constructor; [now apply HE|constructor]. }
  destruct (getLinterResult env (Some x) (emit (EvTool x ph (tree st)) st))
    as [[r|e|c] w1]; exact Hg.
Qed.

(** X6. The linter is only ever run on config files of the run that exist
    in the working tree at that time: every call of [exec] in the trace of
    a dual run, however the run ends, is the linter command of such a
    file. *)
Theorem exec_only_on_existing_files (configsToProcess : list string) (cmd : string)
    (t : checkout) :
  In (EvExec cmd t) (trace (snd (runScript env configsToProcess))) ->
  exists p, In p configsToProcess /\ cmd = command p
            /\ existsSync env t p = true.
Proof.
  set (P := fun e : event =>
              match e with
              | EvExec c t' =>
                  exists p, In p configsToProcess /\ c = command p
                            /\ existsSync env t' p = true
              | _ => True
              end).
  assert (Forall P (trace (snd (runScript env configsToProcess)))) as Hall.
  { assert (Forall P (trace (createLogFile env initial))) as H0.
    { unfold createLogFile. destruct (logExists env); repeat constructor. }
    assert (forall ph w, Forall P (trace w) ->
              Forall P (trace (snd (forEach (runTools env ph) configsToProcess w))))
      as Hloop.
    { intros ph w Hw. apply forEach_runTools_events; [intros; exact I| |exact Hw].
      intros p t' Hp Hex. exists p. auto. }
    destruct (runScript_cases env configsToProcess)
      as [[-> E]|[(Hne & o & w1 & Ea & Ho & E)|[(Hne & w1 & Ea & Hc & E)
         |[(Hne & w1 & o & w3 & Ea & Hc & Eb & Ho & E)
          |(Hne & w1 & w3 & Ea & Hc & Eb & E)]]]]; rewrite E; cbn [snd].
    - simpl. apply Forall_app. split; [exact H0|repeat constructor].
    - specialize (Hloop "after" _ H0). now rewrite Ea in Hloop.
    - specialize (Hloop "after" _ H0). now rewrite Ea in Hloop.
    - pose proof (Hloop "after" _ H0) as H1. rewrite Ea in H1. cbn [snd] in H1.
      assert (Forall P (trace (setTree (Some (targetBranch env))
                                 (emit (EvCheckout (targetBranch env)) w1)))) as H2.
      { simpl. apply Forall_app. split; [exact H1|repeat constructor]. }
      specialize (Hloop "before" _ H2). now rewrite Eb in Hloop.
    - pose proof (Hloop "after" _ H0) as H1. rewrite Ea in H1. cbn [snd] in H1.
      assert (Forall P (trace (setTree (Some (targetBranch env))
                                 (emit (EvCheckout (targetBranch env)) w1)))) as H2.
      { simpl. apply Forall_app. split; [exact H1|repeat constructor]. }
      pose proof (Hloop "before" _ H2) as H3. rewrite Eb in H3. cbn [snd] in H3.
      simpl. repeat (apply Forall_app; split); try exact H3; repeat constructor. }
  intros Hin. apply (proj1 (List.Forall_forall P _) Hall) in Hin. exact Hin.
Qed.

(** X7. The report is written exactly when the run returns: a dual run
    that returns ends with the writing of its report and has written no
    other report before; a run that fails, in a run of the tools or in the
    checkout, writes no report at all. *)
Theorem report_written_iff_returns (configsToProcess : list string) :
  (fst (runScript env configsToProcess) = Ok tt ->
   exists tr,
     trace (snd (runScript env configsToProcess))
     = tr ++ [EvWrite (Some (files (snd (runScript env configsToProcess))))]
     /\ Forall (fun e => forall f, e <> EvWrite (Some f)) tr)
  /\ (fst (runScript env configsToProcess) <> Ok tt ->
      Forall (fun e => forall f, e <> EvWrite (Some f))
        (trace (snd (runScript env configsToProcess)))).
Proof.
  set (P := fun e : event => forall f, e <> EvWrite (Some f)).
  assert (Forall P (trace (createLogFile env initial))) as H0.
  { unfold createLogFile. destruct (logExists env); repeat constructor.
    intros f. discriminate. }
  assert (forall ph w, Forall P (trace w) ->
            Forall P (trace (snd (forEach (runTools env ph) configsToProcess w))))
    as Hloop.
  { intros ph w Hw. apply forEach_runTools_events; [| |exact Hw].
    - intros x t f. discriminate.
    - intros p t _ _ f. discriminate. }
  destruct (runScript_cases env configsToProcess)
    as [[-> E]|[(Hne & o & w1 & Ea & Ho & E)|[(Hne & w1 & Ea & Hc & E)
       |[(Hne & w1 & o & w3 & Ea & Hc & Eb & Ho & E)
        |(Hne & w1 & w3 & Ea & Hc & Eb & E)]]]]; rewrite E; cbn [fst snd].
  - split; [|congruence]. intros _. exists (trace (createLogFile env initial)).
    split; [reflexivity|exact H0].
  - split; [intros ->; now destruct (Ho tt)|]. intros _.
    specialize (Hloop "after" _ H0). now rewrite Ea in Hloop.
  - split; [discriminate|]. intros _.
    specialize (Hloop "after" _ H0). now rewrite Ea in Hloop.
  - split; [intros ->; now destruct (Ho tt)|]. intros _.
    pose proof (Hloop "after" _ H0) as H1. rewrite Ea in H1. cbn [snd] in H1.
    assert (Forall P (trace (setTree (Some (targetBranch env))
                               (emit (EvCheckout (targetBranch env)) w1)))) as H2.
    { simpl. apply Forall_app. split; [exact H1|]. repeat constructor.
      intros f. discriminate. }
    specialize (Hloop "before" _ H2). now rewrite Eb in Hloop.
  - split; [|congruence]. intros _.
    pose proof (Hloop "after" _ H0) as H1. rewrite Ea in H1. cbn [snd] in H1.
    assert (Forall P (trace (setTree (Some (targetBranch env))
                               (emit (EvCheckout (targetBranch env)) w1)))) as H2.
    { simpl. apply Forall_app. split; [exact H1|]. repeat constructor.
      intros f. discriminate. }
    pose proof (Hloop "before" _ H2) as H3. rewrite Eb in H3. cbn [snd] in H3.
    exists (trace w3 ++ [EvRestore]). split; [reflexivity|].
    apply Forall_app. split; [exact H3|]. repeat constructor. intros f. discriminate.
Qed.

End LinterMore.

Lemma dual_report_contents_witness :
  fst (Linter.runScript Examples.linterEnv [Examples.configA; Examples.configB])
  = Js.Ok tt
  /\ Spec.entry
       (Linter.files
          (snd (Linter.runScript Examples.linterEnv
                  [Examples.configA; Examples.configB])))
       Examples.configA "after" = Some [Examples.recA; Examples.recB]
  /\ Linter.files
       (snd (Linter.runScript Examples.linterEnv [Examples.configA; Examples.configB]))
     !! "specification/c/readme.md" = None.
Proof.
  split; [reflexivity|]. split; [reflexivity|].
  destruct (dual_report_contents Examples.linterEnv
              [Examples.configA; Examples.configB] eq_refl) as (_ & _ & H).
  apply H. simpl. intros [H1|[H1|[]]]; discriminate.
Defined.

Lemma exec_only_on_existing_files_witness :
  In (Linter.EvExec (Linter.command Examples.configB) None)
    (Linter.trace
       (snd (Linter.runScript Examples.linterEnv [Examples.configA; Examples.configB])))
  /\ exists p, In p [Examples.configA; Examples.configB]
               /\ Linter.command Examples.configB = Linter.command p
               /\ Linter.existsSync Examples.linterEnv None p = true.
Proof.
  assert (In (Linter.EvExec (Linter.command Examples.configB) None)
            (Linter.trace
               (snd (Linter.runScript Examples.linterEnv
                       [Examples.configA; Examples.configB])))) as H.
  { vm_compute. do 4 right. left. reflexivity. }
  split; [exact H|]. exact (exec_only_on_existing_files Examples.linterEnv _ _ _ H).
Defined.

(* ===================================================================== *)
(** * More on the breaking-change flow *)
(* ===================================================================== *)

Section BreakingChangeMore.
Import JsString Json Js BreakingChange Spec.

Variable env : Env.

Lemma arrayIncludes_In (l : list string) (s : string) :
  arrayIncludes l s = true <-> In s l.
Proof.
  unfold arrayIncludes. rewrite existsb_exists. split.
  - intros (x & Hx & E). apply String.eqb_eq in E. now subst.
  - intros H. exists s. split; [exact H|apply String.eqb_refl].
Qed.

Lemma findNewSwaggers_In (swaggers : list string) (s : string) :
  In s (findNewSwaggers env swaggers) <->
  prDefined env = true /\ In s swaggers /\ existsOnTarget env s = false.
Proof.
  unfold findNewSwaggers. destruct swaggers as [|x xs].
  - simpl. tauto.
  - change (0 <? length (x :: xs)) with true. simpl andb.
    destruct (prDefined env).
    + rewrite <- !list_elem_of_In, list_elem_of_filter, negb_true_iff. tauto.
    + simpl. split; [tauto|]. intros (H & _). discriminate.
Qed.

Lemma filter_ext_in {A : Type} (P Q : A -> Prop) `{forall a, Decision (P a)}
    `{forall a, Decision (Q a)} (l : list A) :
  (forall x, In x l -> (P x <-> Q x)) -> filter P l = filter Q l.
Proof.
  induction l as [|x l IH]; intros Hpq; [reflexivity|].
  rewrite !filter_cons. rewrite IH by (intros y Hy; apply Hpq; now right).
  pose proof (Hpq x (or_introl eq_refl)) as Hx.
  destruct (decide (P x)) as [Px|Px]; destruct (decide (Q x)) as [Qx|Qx];
    try reflexivity; tauto.
Qed.

(** The comparison pass, when it returns, has added the new swaggers of the
    list to [newFiles], in their order. *)
Lemma compareAll_newFiles (newSwaggers swaggers : list string) (st st' : State)
    (u : unit) :
  compareAll env newSwaggers swaggers st = (Ok u, st') ->
  newFiles st' = newFiles st ++ filter (fun s => s ∈ newSwaggers) swaggers.
Proof.
  unfold compareAll. revert st. induction swaggers as [|x xs IH]; intros st H.
  - simpl in H. injection H as _ <-. now rewrite app_nil_r.
  - rewrite forEach_cons in H. rewrite filter_cons.
    pose proof (compareOne_cases env newSwaggers x st) as Hc.
    destruct (compareOne env newSwaggers x st) as [[u1|e|c] st1] eqn:E;
      try discriminate. cbn [snd] in Hc. rewrite (IH st1 H).
    assert (arrayIncludes newSwaggers x = true -> st1 = pushNewFile x st) as Hnew.
    { intros Hx. unfold compareOne in E. rewrite Hx in E. now injection E as <-. }
    assert (arrayIncludes newSwaggers x = false -> newFiles st1 = newFiles st) as Hold.
    { intros Hx. destruct Hc as [->|[[Hx' _]|[_ [diffs ->]]]];
        [reflexivity|congruence|].
      now destruct (fold_countDiff diffs (setDiffs x diffs st)) as (_ & _ & _ & -> & _). }
    destruct (decide (x ∈ newSwaggers)) as [Hin|Hnin].
    + apply list_elem_of_In in Hin.
      rewrite (Hnew (proj2 (arrayIncludes_In _ _) Hin)). simpl.
      now rewrite <- app_assoc.
    + rewrite Hold; [reflexivity|].
      destruct (arrayIncludes newSwaggers x) eqn:Hx; [|reflexivity].
      apply arrayIncludes_In, list_elem_of_In in Hx. contradiction.
Qed.

(** When the loops return, [newFiles] holds the changed swaggers that are
    absent from the target branch, in the order of the pull request. *)
Lemma runLoops_newFiles (swaggersToProcess : list string) :
  fst (runLoops env swaggersToProcess) = Ok tt ->
  newFiles (snd (runLoops env swaggersToProcess))
  = if prDefined env
    then filter (fun s => existsOnTarget env s = false) swaggersToProcess
    else [].
Proof.
  intros Hok. unfold runLoops in *.
  pose proof (processAll_keeps env (findNewSwaggers env swaggersToProcess)
                swaggersToProcess initial) as (_ & _ & _ & Hn).
  destruct (processAll env (findNewSwaggers env swaggersToProcess)
              swaggersToProcess initial) as [[u|e|c] st0]; try discriminate.
  cbn [snd] in Hn.
  destruct (compareAll env (findNewSwaggers env swaggersToProcess)
              swaggersToProcess st0) as [[[]|e|c] st1] eqn:E; try discriminate.
  cbn [snd]. rewrite (compareAll_newFiles _ _ _ _ _ E), Hn. simpl.
  destruct (prDefined env) eqn:Hpr.
  - apply filter_ext_in. intros x Hx.
    rewrite list_elem_of_In, findNewSwaggers_In. tauto.
  - rewrite (filter_ext_in _ (fun _ => False)); [|].
    + clear. induction swaggersToProcess as [|x xs IH]; [reflexivity|].
      rewrite filter_cons. now destruct (decide False).
    + intros x Hx. rewrite list_elem_of_In, findNewSwaggers_In. split; [|tauto].
      intros (H & _). congruence.
Qed.

(** X8. A run that returns lists as newly added exactly the changed
    swaggers that are absent from the target branch when the properties of
    the pull request are known, and none when they are not. When the
    comparison loop has ended the list is in the order of the pull request;
    the report block, which runs in Travis CI only, sorts it in place: when
    [runScript] returns the list holds the same files, in the order of the
    pull request outside Travis CI, and in Travis CI in the order of
    [sort()], for which any total comparison of texts is taken. *)
Theorem new_files_listed (swaggersToProcess : list string) :
  fst (runScript env swaggersToProcess) = Ok tt ->
  let added := if prDefined env
               then filter (fun s => existsOnTarget env s = false) swaggersToProcess
               else [] in
  newFiles (snd (runLoops env swaggersToProcess)) = added
  /\ Permutation (newFiles (snd (runScript env swaggersToProcess))) added
  /\ (isRunningInTravisCI env = false ->
      newFiles (snd (runScript env swaggersToProcess)) = added)
  /\ (isRunningInTravisCI env = true ->
      (forall a b, (0 < compareText env a b)%Z -> (compareText env b a <= 0)%Z) ->
      Sorted (fun a b => (compareText env a b <= 0)%Z)
        (newFiles (snd (runScript env swaggersToProcess)))).
Proof.
  intros Hok added.
  destruct (runScript_report env swaggersToProcess) as [Hf [[Hl E]|[Hl _]]];
    [|rewrite Hf in Hok; contradiction].
  pose proof (runLoops_newFiles swaggersToProcess Hl) as Hn. fold added in Hn.
  split; [exact Hn|]. rewrite E. unfold report.
  destruct (isRunningInTravisCI env); simpl; rewrite Hn.
  - split; [apply sortBy_perm|]. split; [discriminate|].
    intros _ Htotal. now apply sortBy_Sorted.
  - split; [reflexivity|]. split; [reflexivity|discriminate].
Qed.

(** What the AutoRest pass resolves: files of the list that are not new, on
    which AutoRest succeeds, under their resolved path. *)
Lemma processAll_resolved (newSwaggers swaggers : list string) :
  forall k v,
    resolvedMapForNewSpecs (snd (processAll env newSwaggers swaggers initial)) !! k
    = Some v ->
    v = resolvedPath env k /\ autorest env k = true /\ In k swaggers
    /\ arrayIncludes newSwaggers k = false /\ isBlank k = false.
Proof.
  unfold processAll.
  apply (forEach_preserves_in (processOne env newSwaggers)
           (fun st => forall k v,
              resolvedMapForNewSpecs st !! k = Some v ->
              v = resolvedPath env k /\ autorest env k = true /\ In k swaggers
              /\ arrayIncludes newSwaggers k = false /\ isBlank k = false)).
  - intros x st Hx Hst. unfold processOne, processViaAutoRest.
    destruct (arrayIncludes newSwaggers x) eqn:En; [exact Hst|].
    destruct (isBlank x) eqn:Eb; [exact Hst|].
    destruct (autorest env x) eqn:Ea; cbn [snd]; [|exact Hst].
    intros k v. simpl. destruct (decide (x = k)) as [<-|Hne].
    + rewrite lookup_insert_eq. intros H. injection H as <-. auto.
    + rewrite lookup_insert_ne by exact Hne. apply Hst.
  - intros k v H. simpl in H. rewrite lookup_empty in H. discriminate.
Qed.

Lemma compareOne_resolved (newSwaggers : list string) (x : string) (st : State) :
  resolvedMapForNewSpecs (snd (compareOne env newSwaggers x st))
  = resolvedMapForNewSpecs st.
Proof.
  destruct (compareOne_cases env newSwaggers x st) as [E|[[_ E]|[_ [diffs E]]]];
    simpl in E; rewrite E; try reflexivity.
  now destruct (fold_countDiff diffs (setDiffs x diffs st)) as (_ & _ & _ & _ & ->).
Qed.

(** The findings stored when the loops end, however they end. *)
Lemma runLoops_findings (swaggersToProcess : list string) (k : string)
    (diffs : list Diff) :
  diffFiles (snd (runLoops env swaggersToProcess)) !! k = Some diffs ->
  In k swaggersToProcess
  /\ ~ In k (findNewSwaggers env swaggersToProcess)
  /\ autorest env k = true
  /\ resolvedMapForNewSpecs (snd (runLoops env swaggersToProcess)) !! k
     = Some (resolvedPath env k)
  /\ runOad (compare env) k (resolvedPath env k) = Ok (Some diffs).
Proof.
  set (new := findNewSwaggers env swaggersToProcess).
  assert (forall st,
            (forall k v, resolvedMapForNewSpecs st !! k = Some v ->
               v = resolvedPath env k /\ autorest env k = true
               /\ In k swaggersToProcess
               /\ arrayIncludes new k = false /\ isBlank k = false) ->
            (forall k diffs, diffFiles st !! k = Some diffs ->
               resolvedMapForNewSpecs st !! k = Some (resolvedPath env k)
               /\ runOad (compare env) k (resolvedPath env k) = Ok (Some diffs)) ->
            forall xs k diffs,
              diffFiles (snd (compareAll env new xs st)) !! k = Some diffs ->
              resolvedMapForNewSpecs (snd (compareAll env new xs st)) !! k
              = Some (resolvedPath env k)
              /\ runOad (compare env) k (resolvedPath env k) = Ok (Some diffs))
    as Hloop.
  { intros st HR HD xs. unfold compareAll.
    apply (forEach_preserves (compareOne env new)
             (fun s => resolvedMapForNewSpecs s = resolvedMapForNewSpecs st
                       /\ forall k diffs, diffFiles s !! k = Some diffs ->
                            resolvedMapForNewSpecs s !! k = Some (resolvedPath env k)
                            /\ runOad (compare env) k (resolvedPath env k)
                               = Ok (Some diffs))); [|auto].
    intros x s [Hr Hd]. rewrite compareOne_resolved. split; [exact Hr|].
    unfold compareOne.
    destruct (arrayIncludes new x); [exact Hd|].
    destruct (resolvedMapForNewSpecs s !! x) as [[|c r]|] eqn:Ex; try exact Hd.
    destruct (runOad (compare env) x (String c r)) as [[ds|]| |] eqn:Eo;
      try exact Hd.
    cbn [snd]. intros k' diffs'.
    destruct (fold_countDiff ds (setDiffs x ds s)) as (_ & _ & -> & _ & _).
    simpl. rewrite Hr in Ex. destruct (HR x _ Ex) as (Ev & _).
    destruct (decide (x = k')) as [<-|Hne].
    - rewrite lookup_insert_eq. intros H. injection H as <-.
      rewrite Hr, Ex, <- Ev. auto.
    - rewrite lookup_insert_ne by exact Hne. apply Hd. }
  intros Hk.
  pose proof (processAll_resolved new swaggersToProcess) as HR.
  pose proof (processAll_keeps env new swaggersToProcess initial) as (_ & _ & Hd0 & _).
  assert (resolvedMapForNewSpecs (snd (runLoops env swaggersToProcess)) !! k
          = Some (resolvedPath env k)
          /\ runOad (compare env) k (resolvedPath env k) = Ok (Some diffs)
          /\ (forall v, resolvedMapForNewSpecs (snd (runLoops env swaggersToProcess)) !! k
                         = Some v ->
               autorest env k = true /\ In k swaggersToProcess
               /\ arrayIncludes new k = false)) as (H1 & H2 & H3).
  { unfold runLoops in *. fold new in Hk |- *.
    destruct (processAll env new swaggersToProcess initial) as [[u|e|c] st0];
      cbn [snd] in *;
      try (rewrite Hd0 in Hk; simpl in Hk; rewrite lookup_empty in Hk; discriminate).
    assert (forall k diffs, diffFiles st0 !! k = Some diffs ->
              resolvedMapForNewSpecs st0 !! k = Some (resolvedPath env k)
              /\ runOad (compare env) k (resolvedPath env k) = Ok (Some diffs)) as HD.
    { intros k' d' H. rewrite Hd0 in H. simpl in H. rewrite lookup_empty in H.
      discriminate. }
    destruct (Hloop st0 HR HD swaggersToProcess k diffs Hk) as [G1 G2].
    split; [exact G1|]. split; [exact G2|].
    intros v Hv.
    assert (resolvedMapForNewSpecs (snd (compareAll env new swaggersToProcess st0))
            = resolvedMapForNewSpecs st0) as Hsame.
    { unfold compareAll.
      apply (forEach_preserves (compareOne env new)
               (fun s => resolvedMapForNewSpecs s = resolvedMapForNewSpecs st0));
        [|reflexivity].
      intros x s Hs. now rewrite compareOne_resolved. }
    rewrite Hsame in Hv. destruct (HR k v Hv) as (_ & Ha & Hi & Hn & _). auto. }
  destruct (H3 _ H1) as (Ha & Hi & Hn).
  split; [exact Hi|]. split.
  { intros Hin. apply arrayIncludes_In in Hin. fold new in Hin. congruence. }
  auto.
Qed.

(** X9. The findings stored for a file are those the diff tool returns for
    that file and its resolved copy: at whatever point the run ends, a key
    of [diffFiles] is a changed swagger that is not new, on which AutoRest
    succeeded, and its value holds the findings that [runOad] returns on
    the swagger and its resolved path. They are stored as returned; the
    report block, which runs in Travis CI only and only in a run that
    returns, then sorts them in place, into the order of the stable sort
    where the comparison function is consistent on them. *)
Theorem findings_are_diff_of_resolved (swaggersToProcess : list string) (k : string)
    (diffs : list Diff) :
  diffFiles (snd (runScript env swaggersToProcess)) !! k = Some diffs ->
  In k swaggersToProcess
  /\ ~ In k (findNewSwaggers env swaggersToProcess)
  /\ autorest env k = true
  /\ resolvedMapForNewSpecs (snd (runScript env swaggersToProcess)) !! k
     = Some (resolvedPath env k)
  /\ exists found,
       runOad (compare env) k (resolvedPath env k) = Ok (Some found)
       /\ diffFiles (snd (runLoops env swaggersToProcess)) !! k = Some found
       /\ Permutation diffs found
       /\ (isRunningInTravisCI env = false
           \/ fst (runScript env swaggersToProcess) <> Ok tt -> diffs = found)
       /\ (isRunningInTravisCI env = true ->
           fst (runScript env swaggersToProcess) = Ok tt ->
           Collation (localeCompare env) -> Forall isSeverity found ->
           diffs = sortDiffs (localeCompare env) found).
Proof.
  intros Hk.
  destruct (runScript_report env swaggersToProcess) as [Hf [[Hl E]|[Hl E]]].
  - rewrite E in Hk |- *.
    destruct (report_keeps env (snd (runLoops env swaggersToProcess)))
      as (_ & _ & _ & _ & Hr & _).
    rewrite Hr. unfold report in Hk.
    destruct (isRunningInTravisCI env) eqn:Ht.
    + simpl in Hk. rewrite lookup_fmap in Hk.
      destruct (diffFiles (snd (runLoops env swaggersToProcess)) !! k)
        as [found|] eqn:Ek; [|discriminate].
      simpl in Hk. injection Hk as <-.
      destruct (runLoops_findings swaggersToProcess k found Ek)
        as (H1 & H2 & H3 & H4 & H5).
      repeat (split; [assumption|]). exists found.
      split; [exact H5|]. split; [reflexivity|].
      split; [apply sortBy_perm|]. split.
      * intros [H|H]; [discriminate|]. rewrite Hf, Hl in H. contradiction.
      * reflexivity.
    + destruct (runLoops_findings swaggersToProcess k diffs Hk)
        as (H1 & H2 & H3 & H4 & H5).
      repeat (split; [assumption|]). exists diffs.
      split; [exact H5|]. split; [exact Hk|]. split; [reflexivity|].
      split; [reflexivity|discriminate].
  - rewrite E in Hk |- *.
    destruct (runLoops_findings swaggersToProcess k diffs Hk)
      as (H1 & H2 & H3 & H4 & H5).
    repeat (split; [assumption|]). exists diffs.
    split; [exact H5|]. split; [exact Hk|]. split; [reflexivity|].
    split; [reflexivity|]. intros _ H. rewrite Hf in H. contradiction.
Qed.

(** The callbacks handed over when the AutoRest pass ends: one for each
    file of the list that is not new and on which AutoRest fails. *)
Lemma processAll_scheduled (new swaggers : list string) (st : State) :
  (forall s, In s (scheduled (snd (processAll env new swaggers st))) ->
     In s (scheduled st)
     \/ (In s swaggers /\ arrayIncludes new s = false /\ isBlank s = false
         /\ autorest env s = false))
  /\ (fst (processAll env new swaggers st) = Ok tt ->
      scheduled (snd (processAll env new swaggers st))
      = scheduled st
        ++ filter (fun s => arrayIncludes new s = false /\ autorest env s = false)
             swaggers).
Proof.
  unfold processAll. revert st. induction swaggers as [|x xs IH]; intros st.
  - simpl. split; [auto|]. intros _. now rewrite app_nil_r.
  - rewrite forEach_cons, filter_cons.
    destruct (arrayIncludes new x) eqn:En.
    { assert (processOne env new x st = (Ok tt, st)) as ->
        by (unfold processOne; now rewrite En).
      cbv beta iota. destruct (IH st) as [H1 H2]. split.
      - intros s Hs. destruct (H1 s Hs) as [H|(Ha & Hb)]; [now left|].
        right. split; [now right|exact Hb].
      - intros Hok. rewrite (H2 Hok).
        destruct (decide (true = false /\ autorest env x = false)) as [[H _]|_];
          [discriminate|reflexivity]. }
    destruct (isBlank x) eqn:Eb.
    { assert (processOne env new x st
              = (Throw (ErrorMsg (requiredMsg "swaggerPath")), st)) as ->
        by (unfold processOne, processViaAutoRest; now rewrite En, Eb).
      cbv beta iota. cbn [fst snd]. split; [auto|discriminate]. }
    destruct (autorest env x) eqn:Ea.
    { assert (processOne env new x st
              = (Ok tt, setResolved x (resolvedPath env x) st)) as ->
        by (unfold processOne, processViaAutoRest; now rewrite En, Eb, Ea).
      cbv beta iota.
      destruct (IH (setResolved x (resolvedPath env x) st)) as [H1 H2]. split.
      - intros s Hs. destruct (H1 s Hs) as [H|(Ha & Hb)]; [now left|].
        right. split; [now right|exact Hb].
      - intros Hok. rewrite (H2 Hok). simpl scheduled.
        destruct (decide (false = false /\ true = false)) as [[_ H]|_];
          [discriminate|reflexivity]. }
    assert (processOne env new x st = (Ok tt, schedule x st)) as ->
      by (unfold processOne, processViaAutoRest; now rewrite En, Eb, Ea).
    cbv beta iota. destruct (IH (schedule x st)) as [H1 H2]. split.
    + intros s Hs. destruct (H1 s Hs) as [H|(Ha & Hb)].
      * simpl in H. apply in_app_or in H as [H|[<-|[]]]; [now left|].
        right. repeat split; auto. now left.
      * right. split; [now right|exact Hb].
    + intros Hok. rewrite (H2 Hok). simpl scheduled.
      destruct (decide (false = false /\ false = false)) as [_|H];
        [|exfalso; apply H; auto].
      now rewrite <- app_assoc.
Qed.

Lemma fold_countDiff_scheduled (diffs : list Diff) (st : State) :
  scheduled (fold_left countDiff diffs st) = scheduled st.
Proof.
  revert st. induction diffs as [|d diffs IH]; intros st; [reflexivity|].
  simpl fold_left. rewrite IH. unfold countDiff.
  destruct (String.eqb (type d) "Error"); [now destruct (errors st =? 0)|].
  now destruct (String.eqb (type d) "Warning").
Qed.

Lemma compareAll_scheduled (new swaggers : list string) (st : State) :
  scheduled (snd (compareAll env new swaggers st)) = scheduled st.
Proof.
  unfold compareAll.
  apply (forEach_preserves (compareOne env new)
           (fun s => scheduled s = scheduled st)); [|reflexivity].
  intros x s Hs.
  destruct (compareOne_cases env new x s) as [E|[[_ E]|[_ [diffs E]]]];
    simpl in E; rewrite E; [exact Hs|exact Hs|].
  now rewrite fold_countDiff_scheduled.
Qed.

(** What the statements of [runScript] give to [process.exitCode]: nothing
    until the first error is counted, and 1 then. *)
Lemma runScript_exitCode (swaggersToProcess : list string) :
  (errors (snd (runScript env swaggersToProcess)) = 0 ->
   exitCode (snd (runScript env swaggersToProcess)) = None)
  /\ (errors (snd (runScript env swaggersToProcess)) <> 0 ->
      exitCode (snd (runScript env swaggersToProcess)) = Some 1%Z).
Proof.
  set (new := findNewSwaggers env swaggersToProcess).
  assert ((errors (snd (runLoops env swaggersToProcess)) = 0 ->
           exitCode (snd (runLoops env swaggersToProcess)) = None)
          /\ (errors (snd (runLoops env swaggersToProcess)) <> 0 ->
              exitCode (snd (runLoops env swaggersToProcess)) = Some 1%Z)) as Hl.
  { pose proof (processAll_keeps env new swaggersToProcess initial) as (He0 & _).
    pose proof (processAll_exitCode env new swaggersToProcess initial) as Hx0.
    unfold runLoops. fold new.
    destruct (processAll env new swaggersToProcess initial) as [[u|e|c] st0];
      cbn [snd] in *; try (split; [auto|intros H; simpl in He0; congruence]).
    destruct (compareAll_exit env new swaggersToProcess st0 He0) as [H0 H1].
    split; [|exact H1]. intros E. now rewrite (H0 E). }
  destruct (runScript_report env swaggersToProcess) as [_ [[_ ->]|[_ ->]]];
    [|exact Hl].
  destruct (report_keeps env (snd (runLoops env swaggersToProcess)))
    as (-> & _ & -> & _).
  exact Hl.
Qed.

Lemma runScript_scheduled (swaggersToProcess : list string) :
  (forall s, In s (scheduled (snd (runScript env swaggersToProcess))) ->
     In s swaggersToProcess
     /\ arrayIncludes (findNewSwaggers env swaggersToProcess) s = false
     /\ isBlank s = false /\ autorest env s = false)
  /\ (fst (runScript env swaggersToProcess) = Ok tt ->
      scheduled (snd (runScript env swaggersToProcess))
      = filter (fun s => arrayIncludes (findNewSwaggers env swaggersToProcess) s = false
                         /\ autorest env s = false) swaggersToProcess).
Proof.
  set (new := findNewSwaggers env swaggersToProcess).
  assert (scheduled (snd (runScript env swaggersToProcess))
          = scheduled (snd (processAll env new swaggersToProcess initial))
          /\ (fst (runScript env swaggersToProcess) = Ok tt ->
              fst (processAll env new swaggersToProcess initial) = Ok tt))
    as [Es Ef].
  { assert (scheduled (snd (runLoops env swaggersToProcess))
            = scheduled (snd (processAll env new swaggersToProcess initial))
            /\ (fst (runLoops env swaggersToProcess) = Ok tt ->
                fst (processAll env new swaggersToProcess initial) = Ok tt))
      as [Es Ef].
    { unfold runLoops. fold new.
      destruct (processAll env new swaggersToProcess initial) as [[[]|e|c] st0];
        cbn [fst snd]; try (split; [reflexivity|auto]).
      split; [apply compareAll_scheduled|reflexivity]. }
    destruct (runScript_report env swaggersToProcess) as [Hf [[_ E]|[_ E]]];
      rewrite E, Hf.
    - destruct (report_keeps env (snd (runLoops env swaggersToProcess)))
        as (_ & _ & _ & -> & _).
      auto.
    - auto. }
  rewrite Es.
  destruct (processAll_scheduled new swaggersToProcess initial) as [H1 H2].
  split.
  - intros s Hs. destruct (H1 s Hs) as [[]|H]. exact H.
  - intros Hok. now rewrite (H2 (Ef Hok)).
Qed.

(** X10. When AutoRest succeeds on every changed swagger the exit code
    tells whether breaking changes were found: no callback of
    [fs.readJSON] has been handed over, and at whatever point the run
    ends, [process.exitCode] is unset when no error was counted and 1 when
    one was; warnings alone never set it. *)
Theorem exit_code_tells_errors (swaggersToProcess : list string) :
  (forall s, In s swaggersToProcess -> autorest env s = true) ->
  scheduled (snd (runScript env swaggersToProcess)) = []
  /\ (errors (snd (runScript env swaggersToProcess)) = 0 ->
      exitCode (snd (runScript env swaggersToProcess)) = None)
  /\ (errors (snd (runScript env swaggersToProcess)) <> 0 ->
      exitCode (snd (runScript env swaggersToProcess)) = Some 1%Z).
Proof.
  intros Hauto. split; [|apply runScript_exitCode].
  destruct (runScript_scheduled swaggersToProcess) as [H _].
  destruct (scheduled (snd (runScript env swaggersToProcess))) as [|s l];
    [reflexivity|].
  destruct (H s (or_introl eq_refl)) as (Hin & _ & _ & Hf).
  rewrite (Hauto s Hin) in Hf. discriminate.
Qed.

(** X11. The comparison function is consistent only on the severities it
    names: on two findings of different types the two comparisons have
    opposite signs exactly when one of the findings is an Error or a
    Warning; two findings of other types, such as Info and any unknown
    type, are each put before the other. *)
Theorem comparator_on_other_types (localeCompare : string -> string -> Z) (a b : Diff) :
  type a <> type b ->
  ((compareDiffs localeCompare a b + compareDiffs localeCompare b a = 0)%Z
   <-> (type a = "Error" \/ type a = "Warning"
        \/ type b = "Error" \/ type b = "Warning"))
  /\ (type a <> "Error" -> type a <> "Warning" ->
      type b <> "Error" -> type b <> "Warning" ->
      compareDiffs localeCompare a b = (-1)%Z
      /\ compareDiffs localeCompare b a = (-1)%Z).
Proof.
  intros Hab. unfold compareDiffs.
  assert (String.eqb (type b) (type a) = false) as Hba
    by (apply String.eqb_neq; congruence).
  apply String.eqb_neq in Hab. rewrite Hab, Hba.
  destruct (String.eqb_spec (type a) "Error") as [Ea|Ea];
    destruct (String.eqb_spec (type b) "Error") as [Eb|Eb];
    destruct (String.eqb_spec (type a) "Warning") as [Wa|Wa];
    destruct (String.eqb_spec (type b) "Warning") as [Wb|Wb];
    try (apply String.eqb_neq in Hab; congruence);
    (split; [split; [intros H; try (simpl in H; discriminate); tauto
                    |intros H; try reflexivity; tauto]
            |intros; try tauto; split; reflexivity]).
Qed.

(** X12. [runScript] does not wait for the callbacks it gives to
    [fs.readJSON] after a failed AutoRest run. Its own statements write
    [process.exitCode] only when they count the first error, and write 1:
    at whatever point the run ends the value they have written is unset
    when no error was counted and 1 when one was, whatever AutoRest did.
    The callbacks handed over are those of changed swaggers that are not
    new and on which AutoRest failed, and a run that returns has handed
    over one for each such swagger, in the order of the pull request; what
    they write they write at a time the run does not control: 1 when the
    file cannot be read, 3 when it holds [null], 2 when it is an object
    whose member [swagger] is the text 2.0, and nothing otherwise. *)
Theorem callbacks_not_awaited (swaggersToProcess : list string) :
  (errors (snd (runScript env swaggersToProcess)) = 0 ->
   exitCode (snd (runScript env swaggersToProcess)) = None)
  /\ (errors (snd (runScript env swaggersToProcess)) <> 0 ->
      exitCode (snd (runScript env swaggersToProcess)) = Some 1%Z)
  /\ (forall s, In s (scheduled (snd (runScript env swaggersToProcess))) ->
        In s swaggersToProcess
        /\ ~ In s (findNewSwaggers env swaggersToProcess)
        /\ autorest env s = false)
  /\ (fst (runScript env swaggersToProcess) = Ok tt ->
      scheduled (snd (runScript env swaggersToProcess))
      = filter (fun s => arrayIncludes (findNewSwaggers env swaggersToProcess) s = false
                         /\ autorest env s = false) swaggersToProcess)
  /\ (forall s,
        (reportFailure env s = Some 1%Z <-> readJSON env s = None)
        /\ (reportFailure env s = Some 3%Z <-> readJSON env s = Some JNull)
        /\ (reportFailure env s = Some 2%Z <->
            exists ms, readJSON env s = Some (JObject ms)
                       /\ member "swagger" ms = Some (JString "2.0"))
        /\ (forall c, reportFailure env s = Some c ->
              c = 1%Z \/ c = 2%Z \/ c = 3%Z)).
Proof.
  destruct (runScript_exitCode swaggersToProcess) as [H0 H1].
  destruct (runScript_scheduled swaggersToProcess) as [H2 H3].
  split; [exact H0|]. split; [exact H1|]. split; [|split; [exact H3|]].
  - intros s Hs. destruct (H2 s Hs) as (Hin & Hn & _ & Hf).
    split; [exact Hin|]. split; [|exact Hf].
    intros Hnew. apply arrayIncludes_In in Hnew. congruence.
  - intros s. unfold reportFailure.
    destruct (readJSON env s) as [[| | | | |ms]|];
      [| | | | |destruct (member "swagger" ms) as [[| | |v| |]|] eqn:Em;
                [| | |destruct (String.eqb_spec v "2.0") as [->|Hv]| | |]|];
      repeat split;
      try (intros; reflexivity);
      try (intros H; discriminate H);
      try (intros (ms' & E & E');
           first [discriminate E | injection E as <-; congruence]);
      try (intros c H; first [discriminate H | injection H as <-; auto]);
      try (intros _; eauto).
Qed.

Lemma processAll_blank (new swaggers : list string) (s : string) (st : State) :
  In s swaggers -> isBlank s = true -> arrayIncludes new s = false ->
  fst (processAll env new swaggers st) = Throw (ErrorMsg (requiredMsg "swaggerPath")).
Proof.
  intros Hin Hb Hn. unfold processAll. revert st.
  induction swaggers as [|x xs IH]; intros st; [destruct Hin|].
  rewrite forEach_cons. unfold processOne at 1, processViaAutoRest.
  destruct (arrayIncludes new x) eqn:En.
  - apply IH. destruct Hin as [->|H]; [congruence|exact H].
  - destruct (isBlank x) eqn:Eb; [reflexivity|].
    assert (In s xs) as H by (destruct Hin as [->|H]; [congruence|exact H]).
    destruct (autorest env x); apply IH; exact H.
Qed.

(** X13. A blank path among the changed swaggers stops the run in the
    AutoRest pass, unless the file counts as new: the run fails with the
    error of [processViaAutoRest] on its parameter, and nothing has been
    compared, counted or listed then. *)
Theorem blank_path_stops_run (swaggersToProcess : list string) (s : string) :
  In s swaggersToProcess -> isBlank s = true ->
  ~ In s (findNewSwaggers env swaggersToProcess) ->
  fst (runScript env swaggersToProcess) = Throw (ErrorMsg (requiredMsg "swaggerPath"))
  /\ diffFiles (snd (runScript env swaggersToProcess)) = ∅
  /\ newFiles (snd (runScript env swaggersToProcess)) = []
  /\ errors (snd (runScript env swaggersToProcess)) = 0
  /\ warnings (snd (runScript env swaggersToProcess)) = 0.
Proof.
  intros Hin Hb Hn.
  set (new := findNewSwaggers env swaggersToProcess) in *.
  assert (arrayIncludes new s = false) as Hnew.
  { destruct (arrayIncludes new s) eqn:E; [|reflexivity].
    apply arrayIncludes_In in E. contradiction. }
  pose proof (processAll_blank new swaggersToProcess s initial Hin Hb Hnew) as Ht.
  pose proof (processAll_keeps env new swaggersToProcess initial) as (He & Hw & Hd & Hf).
  unfold runScript, runLoops. fold new.
  destruct (processAll env new swaggersToProcess initial) as [[u|e|c] st0];
    cbn [fst snd] in *; try discriminate.
  auto.
Qed.

End BreakingChangeMore.

Lemma new_files_listed_witness :
  fst (BreakingChange.runScript Examples.bcEnv
         [Examples.swaggerA; Examples.swaggerB; Examples.swaggerC]) = Js.Ok tt
  /\ BreakingChange.newFiles
       (snd (BreakingChange.runLoops Examples.bcEnv
               [Examples.swaggerA; Examples.swaggerB; Examples.swaggerC]))
     = [Examples.swaggerB]
  /\ Permutation
       (BreakingChange.newFiles
          (snd (BreakingChange.runScript Examples.bcEnv
                  [Examples.swaggerA; Examples.swaggerB; Examples.swaggerC])))
       [Examples.swaggerB].
Proof.
  split; [reflexivity|].
  destruct (new_files_listed Examples.bcEnv
              [Examples.swaggerA; Examples.swaggerB; Examples.swaggerC] eq_refl)
    as (H1 & H2 & _).
  split; [exact H1|exact H2].
Defined.

Lemma findings_are_diff_of_resolved_witness :
  BreakingChange.diffFiles
    (snd (BreakingChange.runScript Examples.bcEnv
            [Examples.swaggerA; Examples.swaggerB; Examples.swaggerC]))
  !! Examples.swaggerA
  = Some [Examples.diff "Warning" "1001"; Examples.diff "Warning" "1002";
          Examples.diff "Error" "1005"]
  /\ exists found,
       BreakingChange.runOad (BreakingChange.compare Examples.bcEnv) Examples.swaggerA
         (BreakingChange.resolvedPath Examples.bcEnv Examples.swaggerA)
       = Js.Ok (Some found)
       /\ Permutation [Examples.diff "Warning" "1001"; Examples.diff "Warning" "1002";
                       Examples.diff "Error" "1005"] found.
Proof.
  assert (BreakingChange.diffFiles
            (snd (BreakingChange.runScript Examples.bcEnv
                    [Examples.swaggerA; Examples.swaggerB; Examples.swaggerC]))
          !! Examples.swaggerA
          = Some [Examples.diff "Warning" "1001"; Examples.diff "Warning" "1002";
                  Examples.diff "Error" "1005"]) as H by reflexivity.
  split; [exact H|].
  destruct (findings_are_diff_of_resolved Examples.bcEnv _ _ _ H)
    as (_ & _ & _ & _ & found & H1 & _ & H2 & _).
  exists found. split; [exact H1|exact H2].
Defined.

Lemma exit_code_tells_errors_witness :
  (forall s, In s [Examples.swaggerA; Examples.swaggerB; Examples.swaggerC] ->
             BreakingChange.autorest Examples.bcEnv s = true)
  /\ BreakingChange.exitCode
       (snd (BreakingChange.runScript Examples.bcEnv
               [Examples.swaggerA; Examples.swaggerB; Examples.swaggerC]))
     = Some 1%Z.
Proof.
  assert (forall s, In s [Examples.swaggerA; Examples.swaggerB; Examples.swaggerC] ->
                    BreakingChange.autorest Examples.bcEnv s = true) as H
    by (intros; reflexivity).
  split; [exact H|].
  apply (proj2 (proj2 (exit_code_tells_errors Examples.bcEnv _ H))).
  vm_compute. discriminate.
Defined.

Lemma comparator_on_other_types_witness :
  BreakingChange.type (Examples.diff "Info" "1001")
  <> BreakingChange.type (Examples.diff "Result" "1001")
  /\ BreakingChange.compareDiffs Spec.codeUnitCompare
       (Examples.diff "Info" "1001") (Examples.diff "Result" "1001") = (-1)%Z
  /\ BreakingChange.compareDiffs Spec.codeUnitCompare
       (Examples.diff "Result" "1001") (Examples.diff "Info" "1001") = (-1)%Z.
Proof.
  assert (H : BreakingChange.type (Examples.diff "Info" "1001")
              <> BreakingChange.type (Examples.diff "Result" "1001"))
    by (simpl; discriminate).
  split; [exact H|].
  apply (proj2 (comparator_on_other_types Spec.codeUnitCompare _ _ H));
    simpl; discriminate.
Defined.

Lemma blank_path_stops_run_witness :
  In " " [Examples.swaggerA; " "]
  /\ JsString.isBlank " " = true
  /\ ~ In " " (BreakingChange.findNewSwaggers Examples.bcEnv [Examples.swaggerA; " "])
  /\ fst (BreakingChange.runScript Examples.bcEnv [Examples.swaggerA; " "])
     = Js.Throw (Js.ErrorMsg (BreakingChange.requiredMsg "swaggerPath")).
Proof.
  assert (H1 : In " " [Examples.swaggerA; " "]) by (right; left; reflexivity).
  assert (H2 : JsString.isBlank " " = true) by reflexivity.
  assert (H3 : ~ In " " (BreakingChange.findNewSwaggers Examples.bcEnv
                           [Examples.swaggerA; " "])).
  { vm_compute. tauto. }
  split; [exact H1|]. split; [exact H2|]. split; [exact H3|].
  exact (proj1 (blank_path_stops_run Examples.bcEnv _ _ H1 H2 H3)).
Defined.

(* ===================================================================== *)
(** * The repairs on streams of records *)
(* ===================================================================== *)

Section StreamFacts.
Import JsString Json Js Spec Records.

Lemma sealed_tail (re : matcher) (c : ascii) (inner : string) :
  sealed re (String c inner) -> sealed re inner.
Proof.
  intros H p s tail E Hs. apply (H (String c p) s tail); [|exact Hs].
  now rewrite append_cons, E.
Qed.

Lemma scan_sealed (re : matcher) (by_ inner tail : string) :
  sealed re inner ->
  replaceAll re by_ (inner +:+ "}" +:+ tail)
  = inner +:+ replaceAll re by_ ("}" +:+ tail).
Proof.
  induction inner as [|c inner IH]; intros Hs; [reflexivity|].
  rewrite (append_cons c inner), replaceAll_keep.
  - rewrite IH by (eapply sealed_tail; exact Hs). reflexivity.
  - rewrite <- append_cons. apply (Hs EmptyString); [reflexivity|discriminate].
Qed.

Lemma tailText_brace {A : Type} (sep : A -> string) (l : list (A * string)) :
  exists t, tailText sep l = "}" +:+ t.
Proof. destruct l as [|[a inner] l]; simpl; eauto. Qed.

Lemma replaceAll_tail {A : Type} (sep : A -> string) (re : matcher) (by_ : string)
    (l : list (A * string)) :
  consuming re ->
  re "}" = None ->
  Forall (fun p => sealed re (snd p)
                   /\ forall rest, re ("}" +:+ sep (fst p) +:+ "{" +:+ rest) = Some rest) l ->
  replaceAll re by_ (tailText sep l) = tailJoined by_ l.
Proof.
  intros Hc Hend. induction 1 as [|[a inner] l [Hs Hm] _ IH]; simpl.
  - change "}" with (String "}" EmptyString) at 1. now rewrite replaceAll_keep.
  - simpl in Hs, Hm.
    change ("}" +:+ sep a +:+ "{" +:+ inner +:+ tailText sep l)
      with (String "}" (sep a +:+ "{" +:+ inner +:+ tailText sep l)).
    rewrite (replaceAll_match re by_ "}" (sep a +:+ "{" +:+ inner +:+ tailText sep l)
               (inner +:+ tailText sep l) Hc (Hm _)).
    destruct (tailText_brace sep l) as [t Et]. rewrite Et at 1.
    rewrite (scan_sealed re by_ inner t Hs), <- Et, IH. reflexivity.
Qed.

(** A global replacement joins the records of a stream. *)
Lemma replaceAll_stream {A : Type} (sep : A -> string) (re : matcher)
    (by_ first : string) (l : list (A * string)) :
  consuming re ->
  (forall x, re ("{" +:+ x) = None) ->
  re "}" = None ->
  sealed re first ->
  Forall (fun p => sealed re (snd p)
                   /\ forall rest, re ("}" +:+ sep (fst p) +:+ "{" +:+ rest) = Some rest) l ->
  replaceAll re by_ (streamText sep first l) = streamJoined by_ first l.
Proof.
  intros Hc Hopen Hend Hs Hl. unfold streamText, streamJoined.
  change ("{" +:+ first +:+ tailText sep l) with (String "{" (first +:+ tailText sep l)).
  rewrite replaceAll_keep by apply Hopen.
  destruct (tailText_brace sep l) as [t Et]. rewrite Et at 1.
  rewrite (scan_sealed re by_ first t Hs), <- Et.
  now rewrite (replaceAll_tail sep re by_ l Hc Hend Hl).
Qed.

(** A record without the first character of every match is sealed. *)
Lemma without_sealed (re : matcher) (x : ascii) (inner : string) :
  (forall c r, c <> x -> re (String c r) = None) ->
  without x inner -> sealed re inner.
Proof.
  intros Hre Hw p s tail E Hs. destruct s as [|c s]; [congruence|].
  rewrite append_cons. apply Hre. intros ->. apply Hw. rewrite E.
  clear. induction p as [|a p IH]; simpl; auto.
Qed.

Lemma lit_first (a c : ascii) (p r : string) :
  a <> c -> lit (String a p) (String c r) = None.
Proof.
  intros H. cbn [lit]. destruct (Ascii.eqb_spec a c) as [E|N]; [congruence|].
  first [reflexivity | destruct (Ascii.eqb a c) eqn:E; [apply Ascii.eqb_eq in E; congruence|reflexivity]].
Qed.

Lemma reBraceGap_first (c : ascii) (r : string) :
  c <> "}"%char -> reBraceGap (String c r) = None.
Proof.
  intros Hc. unfold reBraceGap, andThen.
  change "}" with (String "}" EmptyString).
  now rewrite (lit_first "}" c EmptyString r) by congruence.
Qed.

Lemma reBraceNewline_first (c : ascii) (r : string) :
  c <> "}"%char -> reBraceNewline (String c r) = None.
Proof.
  intros Hc. unfold reBraceNewline. change ("}" +:+ bytes [10] +:+ "{")
    with (String "}" (bytes [10] +:+ "{")).
  apply lit_first. congruence.
Qed.

Lemma reBatchTask_first (c : ascii) (r : string) :
  c <> "P"%char -> reBatchTask (String c r) = None.
Proof.
  intros Hc. unfold reBatchTask, andThen.
  change "Processing batch task - {" with (String "P" "rocessing batch task - {").
  now rewrite (lit_first "P" c _ r) by congruence.
Qed.

(** X14. The repair of [runOad] joins the records of a stream: records
    between braces, each two separated by a run of white space, in none of
    which a closing brace is followed by white space and an opening brace,
    come out between brackets with a comma for every separator and are
    otherwise unchanged. *)
Theorem repairOad_joins_records (first : string) (l : list (string * string)) :
  sealed reBraceGap first ->
  Forall (fun p => isGap (fst p) /\ sealed reBraceGap (snd p)) l ->
  BreakingChange.repairOad (streamText id first l)
  = "[" +:+ streamJoined "},{" first l +:+ "]".
Proof.
  intros Hs Hl. unfold BreakingChange.repairOad.
  rewrite (replaceAll_stream id reBraceGap "},{" first l); [reflexivity| | | | |].
  - apply reBraceGap_consuming.
  - intros x. apply reBraceGap_first. discriminate.
  - reflexivity.
  - exact Hs.
  - eapply Forall_impl; [exact Hl|]. intros [sep inner] [Hg Hi]. split; [exact Hi|].
    intros rest. now apply reBraceGap_gap.
Qed.

Lemma plain_cons (c : ascii) (b : string) :
  plain (String c b) ->
  (c <> ascii_of_nat 10 /\ c <> ascii_of_nat 13 /\ c <> ascii_of_nat 226) /\ plain b.
Proof.
  unfold plain, without. cbn [list_ascii_of_string In]. intros (H1 & H2 & H3).
  split; [split; [|split]|split; [|split]]; intros E;
    first [apply H1; tauto | apply H2; tauto | apply H3; tauto].
Qed.

Lemma dot_plain (c : ascii) (r : string) :
  c <> ascii_of_nat 10 -> c <> ascii_of_nat 13 -> c <> ascii_of_nat 226 ->
  dot (String c r) = Some r.
Proof.
  intros H1 H2 H3. unfold dot, lineTerminators. cbn [oneOf].
  change (bytes [10]) with (String (ascii_of_nat 10) EmptyString).
  change (bytes [13]) with (String (ascii_of_nat 13) EmptyString).
  change (bytes [226; 128; 168]) with (String (ascii_of_nat 226) (bytes [128; 168])).
  change (bytes [226; 128; 169]) with (String (ascii_of_nat 226) (bytes [128; 169])).
  rewrite !lit_first by congruence. reflexivity.
Qed.

Lemma dot_nl (rest : string) : dot (nl +:+ rest) = None.
Proof. reflexivity. Qed.

Lemma starN_after_line (m : nat) (rest : string) :
  starN m dot (lit ("} ." +:+ bytes [10])) (nl +:+ rest) = None.
Proof.
  assert (K : lit ("} ." +:+ bytes [10]) (nl +:+ rest) = None) by reflexivity.
  destruct m; [exact K|]. rewrite starN_S, dot_nl. exact K.
Qed.

Lemma starN_before_line (m : nat) (rest : string) :
  starN m dot (lit ("} ." +:+ bytes [10])) ("." +:+ nl +:+ rest) = None.
Proof.
  assert (K : lit ("} ." +:+ bytes [10]) ("." +:+ nl +:+ rest) = None) by reflexivity.
  destruct m; [exact K|]. rewrite starN_S.
  change ("." +:+ nl +:+ rest) with (String "." (nl +:+ rest)) at 1.
  rewrite dot_plain by discriminate. rewrite starN_after_line. exact K.
Qed.

Lemma starN_space_line (m : nat) (rest : string) :
  starN m dot (lit ("} ." +:+ bytes [10])) (" ." +:+ nl +:+ rest) = None.
Proof.
  assert (K : lit ("} ." +:+ bytes [10]) (" ." +:+ nl +:+ rest) = None) by reflexivity.
  destruct m; [exact K|]. rewrite starN_S.
  change (" ." +:+ nl +:+ rest) with (String " " ("." +:+ nl +:+ rest)) at 1.
  rewrite dot_plain by discriminate. rewrite starN_before_line. exact K.
Qed.

Lemma starN_end_line (n : nat) (rest : string) :
  starN n dot (lit ("} ." +:+ bytes [10])) ("} ." +:+ nl +:+ rest) = Some rest.
Proof.
  assert (K : lit ("} ." +:+ bytes [10]) ("} ." +:+ nl +:+ rest) = Some rest).
  { rewrite <- append_assoc. apply lit_append. }
  destruct n; [exact K|]. rewrite starN_S.
  change ("} ." +:+ nl +:+ rest) with (String "}" (" ." +:+ nl +:+ rest)) at 1.
  rewrite dot_plain by discriminate. rewrite starN_space_line. exact K.
Qed.

(** The greedy [.*] of the progress pattern stops at the end of the
    line. *)
Lemma starN_dot_line (body rest : string) (n : nat) :
  plain body -> String.length body <= n ->
  starN n dot (lit ("} ." +:+ bytes [10])) (body +:+ "} ." +:+ nl +:+ rest) = Some rest.
Proof.
  revert n. induction body as [|c body IH]; intros n Hp Hn.
  - apply starN_end_line.
  - destruct n as [|n]; [simpl in Hn; lia|].
    apply plain_cons in Hp as ((H1 & H2 & H3) & Hp).
    rewrite (append_cons c body), starN_S, (dot_plain c _ H1 H2 H3).
    rewrite IH; [reflexivity|exact Hp|simpl in Hn; lia].
Qed.

Lemma reBatchTask_progressLine (body rest : string) :
  plain body -> reBatchTask (progressLine body +:+ rest) = Some rest.
Proof.
  intros Hp. unfold progressLine, reBatchTask. rewrite !append_assoc.
  rewrite (andThen_Some _ _ _ _ (lit_append "Processing batch task - {" _)).
  unfold star. apply starN_dot_line; [exact Hp|].
  rewrite length_append. lia.
Qed.

Lemma replaceAll_hit (re : matcher) (by_ s rest : string) :
  consuming re -> re s = Some rest ->
  replaceAll re by_ s = by_ +:+ replaceAll re by_ rest.
Proof.
  intros Hc E. destruct s as [|c r].
  - pose proof (Hc _ _ E) as L. simpl in L. lia.
  - now apply replaceAll_match.
Qed.

Lemma strip_progressLines (bodies : list string) (rest : string) :
  Forall plain bodies ->
  replaceAll reBatchTask EmptyString (progressLines bodies +:+ rest)
  = replaceAll reBatchTask EmptyString rest.
Proof.
  induction 1 as [|b bodies Hb _ IH]; [reflexivity|].
  cbn [progressLines fold_right]. fold (progressLines bodies).
  rewrite append_assoc.
  rewrite (replaceAll_hit reBatchTask EmptyString _ _ reBatchTask_consuming
             (reBatchTask_progressLine b _ Hb)).
  exact IH.
Qed.

Lemma strip_tail (l : list (list string * string)) :
  Forall (fun p => Forall plain (fst p) /\ sealed reBatchTask (snd p)) l ->
  replaceAll reBatchTask EmptyString (tailText linterSep l)
  = tailText (fun _ => nl) l.
Proof.
  induction 1 as [|[bodies inner] l [Hb Hs] _ IH]; [reflexivity|].
  simpl in Hb, Hs. cbn [tailText]. unfold linterSep at 1.
  rewrite (append_assoc nl).
  change ("}" +:+ nl +:+ progressLines bodies +:+ "{" +:+ inner +:+ tailText linterSep l)
    with (String "}" (String (ascii_of_nat 10)
            (progressLines bodies +:+ "{" +:+ inner +:+ tailText linterSep l))).
  rewrite replaceAll_keep by (apply reBatchTask_first; discriminate).
  rewrite replaceAll_keep by (apply reBatchTask_first; discriminate).
  rewrite (strip_progressLines bodies _ Hb).
  change ("{" +:+ inner +:+ tailText linterSep l)
    with (String "{" (inner +:+ tailText linterSep l)).
  rewrite replaceAll_keep by (apply reBatchTask_first; discriminate).
  destruct (tailText_brace linterSep l) as [t Et]. rewrite Et at 1.
  rewrite (scan_sealed reBatchTask EmptyString inner t Hs), <- Et, IH. reflexivity.
Qed.

(** The first replacement of [getLinterResult] removes the progress
    reports before and between the records. *)
Lemma strip_stream (lead : list string) (first : string)
    (l : list (list string * string)) :
  Forall plain lead ->
  sealed reBatchTask first ->
  Forall (fun p => Forall plain (fst p) /\ sealed reBatchTask (snd p)) l ->
  replaceAll reBatchTask EmptyString (progressLines lead +:+ streamText linterSep first l)
  = streamText (fun _ => nl) first l.
Proof.
  intros Hlead Hs Hl. rewrite (strip_progressLines lead _ Hlead). unfold streamText.
  change ("{" +:+ first +:+ tailText linterSep l)
    with (String "{" (first +:+ tailText linterSep l)).
  rewrite replaceAll_keep by (apply reBatchTask_first; discriminate).
  destruct (tailText_brace linterSep l) as [t Et]. rewrite Et at 1.
  rewrite (scan_sealed reBatchTask EmptyString first t Hs), <- Et, (strip_tail l Hl).
  reflexivity.
Qed.

Lemma append_empty_r (s : string) : s +:+ EmptyString = s.
Proof. induction s as [|c s IH]; [reflexivity|]. now rewrite append_cons, IH. Qed.

Lemma rev_app_append (s1 s2 : string) :
  String.rev_app s1 s2 = String.rev s1 +:+ s2.
Proof.
  unfold String.rev. revert s2. induction s1 as [|a s1 IH]; intros s2; [reflexivity|].
  cbn [String.rev_app]. rewrite (IH (String a s2)), (IH (String a EmptyString)).
  now rewrite append_assoc.
Qed.

Lemma rev_cons (a : ascii) (s : string) :
  String.rev (String a s) = String.rev s +:+ String a EmptyString.
Proof. unfold String.rev at 1. cbn [String.rev_app]. apply rev_app_append. Qed.

Lemma rev_append (a b : string) :
  String.rev (a +:+ b) = String.rev b +:+ String.rev a.
Proof.
  induction a as [|x a IH].
  - change (EmptyString +:+ b) with b. change (String.rev EmptyString) with EmptyString.
    now rewrite append_empty_r.
  - now rewrite append_cons, !rev_cons, IH, append_assoc.
Qed.

Lemma rev_involutive (s : string) : String.rev (String.rev s) = s.
Proof.
  induction s as [|x s IH]; [reflexivity|].
  rewrite rev_cons, rev_append, IH. reflexivity.
Qed.

Lemma trimStart_keep (s : string) :
  oneOf whiteSpaces s = None -> trimStart s = s.
Proof.
  intros H. unfold trimStart. destruct (String.length s); cbn [stripN]; [reflexivity|].
  now rewrite H.
Qed.

Lemma trimEnd_keep (s : string) :
  oneOf (map String.rev whiteSpaces) (String.rev s) = None -> trimEnd s = s.
Proof.
  intros H. unfold trimEnd. destruct (String.length s); cbn [stripN].
  - apply rev_involutive.
  - rewrite H. apply rev_involutive.
Qed.

Lemma tailText_end {A : Type} (sep : A -> string) (l : list (A * string)) :
  exists t, tailText sep l = t +:+ "}".
Proof.
  induction l as [|[a inner] l [t Et]].
  - now exists EmptyString.
  - exists ("}" +:+ sep a +:+ "{" +:+ inner +:+ t). cbn [tailText].
    now rewrite Et, !append_assoc.
Qed.

(** A stream begins and ends with a brace: [trim] leaves it as it is. *)
Lemma trim_stream {A : Type} (sep : A -> string) (first : string)
    (l : list (A * string)) :
  trim (streamText sep first l) = streamText sep first l.
Proof.
  unfold trim. rewrite trimStart_keep by reflexivity.
  apply trimEnd_keep. unfold streamText.
  destruct (tailText_end sep l) as [t ->].
  rewrite <- !append_assoc, rev_append. reflexivity.
Qed.

Lemma substring_stream {A : Type} (sep : A -> string) (first : string)
    (l : list (A * string)) :
  substring (indexOf "{" (streamText sep first l)) (streamText sep first l)
  = streamText sep first l.
Proof. reflexivity. Qed.

(** X15. The repair of [getLinterResult] on the output of the linter:
    records between braces, one after the end of the line of the other,
    with progress reports before the first one and between them, come
    out without the reports, between brackets and with a comma after
    every record but the last. *)
Theorem repairLinter_joins_records (lead : list string) (first : string)
    (l : list (list string * string)) :
  Forall plain lead ->
  sealed reBatchTask first -> sealed reBraceNewline first ->
  Forall (fun p => Forall plain (fst p)
                   /\ sealed reBatchTask (snd p) /\ sealed reBraceNewline (snd p)) l ->
  Linter.repairLinter (progressLines lead +:+ streamText linterSep first l)
  = "[" +:+ streamJoined ("}," +:+ nl +:+ "{") first l +:+ "]".
Proof.
  intros Hlead Hb Hn Hl. unfold Linter.repairLinter.
  rewrite (strip_stream lead first l Hlead Hb)
    by (eapply Forall_impl; [exact Hl|]; intros p (H1 & H2 & _); now split).
  rewrite substring_stream, trim_stream.
  assert (E : forall by_, replaceAll reBraceNewline by_ (streamText (fun _ : list string => nl) first l)
              = streamJoined by_ first l).
  { intros by_. apply replaceAll_stream.
    - unfold reBraceNewline. apply lit_consuming.
    - intros x. apply reBraceNewline_first. discriminate.
    - reflexivity.
    - exact Hn.
    - eapply Forall_impl; [exact Hl|]. intros p (_ & _ & H3). split; [exact H3|].
      intros rest. unfold reBraceNewline.
      rewrite <- (lit_append ("}" +:+ bytes [10] +:+ "{") rest) at 1.
      now rewrite !append_assoc. }
  now rewrite E.
Qed.

Lemma chars_append (c : ascii) (a b : string) :
  In c (list_ascii_of_string (a +:+ b))
  <-> In c (list_ascii_of_string a) \/ In c (list_ascii_of_string b).
Proof.
  induction a as [|x a IH].
  - change (EmptyString +:+ b) with b. simpl. tauto.
  - rewrite append_cons. simpl. tauto.
Qed.

Lemma replaceAll_none (re : matcher) (by_ t : string) :
  (forall p s, t = p +:+ s -> re s = None) -> replaceAll re by_ t = t.
Proof.
  induction t as [|c t IH]; intros H; [reflexivity|].
  rewrite replaceAll_keep by (apply (H EmptyString); reflexivity).
  rewrite IH; [reflexivity|].
  intros p s E. apply (H (String c p)). now rewrite append_cons, E.
Qed.

Lemma reBatchTask_noBrace (t : string) :
  noBrace t -> replaceAll reBatchTask EmptyString t = t.
Proof.
  intros Hn. apply replaceAll_none. intros p s E.
  destruct (reBatchTask s) as [rest|] eqn:Hm; [|reflexivity].
  exfalso. apply Hn. apply reBatchTask_inv in Hm as (body & -> & _).
  rewrite E. apply chars_append. right. apply chars_append. left.
  simpl. tauto.
Qed.

Lemma reBraceNewline_noBrace (by_ t : string) :
  noBrace t -> replaceAll reBraceNewline by_ t = t.
Proof.
  intros Hn. apply replaceAll_none. intros p s E.
  destruct (reBraceNewline s) as [rest|] eqn:Hm; [|reflexivity].
  exfalso. apply Hn. unfold reBraceNewline in Hm. apply lit_Some in Hm as ->.
  rewrite E. apply chars_append. right. apply chars_append. left.
  simpl. tauto.
Qed.

Lemma stripN_suffix (n : nat) (alts : list string) (s : string) :
  exists p, s = p +:+ stripN n alts s.
Proof.
  revert s. induction n as [|n IH]; intros s; cbn [stripN].
  - now exists EmptyString.
  - destruct (oneOf alts s) as [r|] eqn:E; [|now exists EmptyString].
    apply oneOf_Some in E as (q & _ & ->). destruct (IH r) as [p Hp].
    exists (q +:+ p). now rewrite append_assoc, <- Hp.
Qed.

(** What [trim] returns is a part of the text. *)
Lemma trim_infix (t : string) : exists p q, t = p +:+ trim t +:+ q.
Proof.
  unfold trim. destruct (stripN_suffix (String.length t) whiteSpaces t) as [p Hp].
  fold (trimStart t) in Hp. set (u := trimStart t) in *.
  destruct (stripN_suffix (String.length u) (map String.rev whiteSpaces) (String.rev u))
    as [q Hq].
  exists p, (String.rev q). unfold trimEnd.
  rewrite <- rev_append, <- Hq, rev_involutive. exact Hp.
Qed.

Lemma trim_noBrace (t : string) : noBrace t -> noBrace (trim t).
Proof.
  intros Hn H. apply Hn. destruct (trim_infix t) as (p & q & E). rewrite E.
  apply chars_append. right. apply chars_append. now left.
Qed.

(** X16. The test for a brace comes before the removal of the progress
    reports: an output of the linter that begins with a progress report
    and holds no brace after it is not the empty result of an output
    without a brace; what follows the reports is trimmed, put between
    brackets and parsed, and the process exits with status 1 when that is
    no JSON text. *)
Theorem brace_test_before_strip (body : string) (lead : list string) (t : string) :
  plain body -> Forall plain lead -> noBrace t ->
  Linter.parseLinterOutput (progressLines (body :: lead) +:+ t)
  = match JSON_parse ("[" +:+ trim t +:+ "]") with
    | Some jsonResult => Ok (Linter.items jsonResult)
    | None => Exit 1
    end.
Proof.
  intros Hb Hlead Hn. unfold Linter.parseLinterOutput.
  assert (I : indexOf "{" (progressLines (body :: lead) +:+ t) = 24%Z).
  { cbn [progressLines fold_right]. unfold progressLine. rewrite !append_assoc.
    reflexivity. }
  rewrite I. cbn [Z.eqb negb]. unfold Linter.repairLinter.
  rewrite (strip_progressLines (body :: lead) t) by (constructor; assumption).
  rewrite (reBatchTask_noBrace t Hn).
  assert (J : indexOf "{" t = (-1)%Z).
  { apply Z.eqb_eq. now apply indexOf_noBrace. }
  rewrite J. change (substring (-1) t) with t.
  now rewrite (reBraceNewline_noBrace _ (trim t) (trim_noBrace t Hn)).
Qed.

End StreamFacts.

Lemma repairOad_joins_records_witness :
  Records.sealed JsString.reBraceGap "a:1"
  /\ Forall (fun p => JsString.isGap (fst p) /\ Records.sealed JsString.reBraceGap (snd p))
            [(" ", "a:2"); (JsString.nl, "a:{b:3}")]
  /\ BreakingChange.repairOad ("{a:1} {a:2}" +:+ JsString.nl +:+ "{a:{b:3}}")
     = "[{a:1},{a:2},{a:{b:3}}]".
Proof.
  assert (S1 : forall inner, Records.without "}" inner ->
                             Records.sealed JsString.reBraceGap inner).
  { intros inner. apply without_sealed. exact reBraceGap_first. }
  assert (H1 : Records.sealed JsString.reBraceGap "a:1").
  { apply S1. unfold Records.without. simpl. intuition discriminate. }
  assert (H2 : Forall (fun p => JsString.isGap (fst p)
                                /\ Records.sealed JsString.reBraceGap (snd p))
                 [(" ", "a:2"); (JsString.nl, "a:{b:3}")]).
  { apply List.Forall_cons; [split|apply List.Forall_cons; [split|apply List.Forall_nil]].
    - exists " ", []. split; [|reflexivity]. apply List.Forall_cons; [|apply List.Forall_nil].
      do 5 right. left. reflexivity.
    - apply S1. unfold Records.without. simpl. intuition discriminate.
    - exists JsString.nl, []. split; [|reflexivity].
      apply List.Forall_cons; [|apply List.Forall_nil].
      right. left. reflexivity.
    - intros p s tail E Hs.
      destruct s as [|c s]; [congruence|].
      destruct (Ascii.eqb_spec c "}") as [->|N];
        [|rewrite append_cons; now apply reBraceGap_first].
      assert (s = "}" \/ s = EmptyString) as [-> | ->].
      { clear -E. destruct p as [|a1 [|a2 [|a3 [|a4 [|a5 [|a6 [|a7 [|a8 p]]]]]]]];
          cbv in E; inversion E; auto. }
      + reflexivity.
      + reflexivity. }
  split; [exact H1|]. split; [exact H2|].
  exact (repairOad_joins_records "a:1" [(" ", "a:2"); (JsString.nl, "a:{b:3}")] H1 H2).
Defined.

Lemma repairLinter_joins_records_witness :
  Forall Records.plain ["swagger"]
  /\ Records.sealed JsString.reBatchTask "a:1"
  /\ Records.sealed JsString.reBraceNewline "a:1"
  /\ Forall (fun p => Forall Records.plain (fst p)
                      /\ Records.sealed JsString.reBatchTask (snd p)
                      /\ Records.sealed JsString.reBraceNewline (snd p))
            [(["readme"], "a:2")]
  /\ Linter.repairLinter
       (Records.progressLine "swagger" +:+ "{a:1}" +:+ JsString.nl
        +:+ Records.progressLine "readme" +:+ "{a:2}")
     = "[{a:1}," +:+ JsString.nl +:+ "{a:2}]".
Proof.
  assert (P : forall body, Records.without (ascii_of_nat 10) body ->
                Records.without (ascii_of_nat 13) body ->
                Records.without (ascii_of_nat 226) body -> Records.plain body)
    by (intros body H1 H2 H3; repeat split; assumption).
  assert (B : forall inner, Records.without "P" inner ->
                            Records.sealed JsString.reBatchTask inner).
  { intros inner. apply without_sealed. exact reBatchTask_first. }
  assert (N : forall inner, Records.without "}" inner ->
                            Records.sealed JsString.reBraceNewline inner).
  { intros inner. apply without_sealed. exact reBraceNewline_first. }
  assert (H0 : Forall Records.plain ["swagger"]).
  { apply List.Forall_cons; [|apply List.Forall_nil].
    apply P; unfold Records.without; simpl; intuition discriminate. }
  assert (H1 : Records.sealed JsString.reBatchTask "a:1")
    by (apply B; unfold Records.without; simpl; intuition discriminate).
  assert (H2 : Records.sealed JsString.reBraceNewline "a:1")
    by (apply N; unfold Records.without; simpl; intuition discriminate).
  assert (H3 : Forall (fun p => Forall Records.plain (fst p)
                      /\ Records.sealed JsString.reBatchTask (snd p)
                      /\ Records.sealed JsString.reBraceNewline (snd p))
                 [(["readme"], "a:2")]).
  { apply List.Forall_cons; [|apply List.Forall_nil]. split; [|split].
    - apply List.Forall_cons; [|apply List.Forall_nil].
      apply P; unfold Records.without; simpl; intuition discriminate.
    - apply B; unfold Records.without; simpl; intuition discriminate.
    - apply N; unfold Records.without; simpl; intuition discriminate. }
  split; [exact H0|]. split; [exact H1|]. split; [exact H2|]. split; [exact H3|].
  exact (repairLinter_joins_records ["swagger"] "a:1" [(["readme"], "a:2")] H0 H1 H2 H3).
Defined.

Lemma brace_test_before_strip_witness :
  Records.plain "swagger"
  /\ Forall Records.plain []
  /\ Spec.noBrace "AutoRest finished"
  /\ Linter.parseLinterOutput (Records.progressLine "swagger" +:+ "AutoRest finished")
     = Js.Exit 1
  /\ Linter.parseLinterOutput "AutoRest finished" = Js.Ok [].
Proof.
  assert (H0 : Records.plain "swagger")
    by (repeat split; unfold Records.without; simpl; intuition discriminate).
  assert (H1 : Spec.noBrace "AutoRest finished")
    by (unfold Spec.noBrace; simpl; intuition discriminate).
  split; [exact H0|]. split; [apply List.Forall_nil|]. split; [exact H1|].
  split; [|reflexivity].
  exact (brace_test_before_strip "swagger" [] "AutoRest finished" H0 (List.Forall_nil _) H1).
Defined.

Lemma sortDiffs_unique_witness :
  Forall Spec.isSeverity
    [Examples.diff "Error" "1003"; Examples.diff "Warning" "1002";
     BreakingChange.mkDiff "Warning" "1002" "Other" "second"]
  /\ Permutation
       [Examples.diff "Warning" "1002";
        BreakingChange.mkDiff "Warning" "1002" "Other" "second";
        Examples.diff "Error" "1003"]
       [Examples.diff "Error" "1003"; Examples.diff "Warning" "1002";
        BreakingChange.mkDiff "Warning" "1002" "Other" "second"]
  /\ [Examples.diff "Warning" "1002";
      BreakingChange.mkDiff "Warning" "1002" "Other" "second";
      Examples.diff "Error" "1003"]
     = BreakingChange.sortDiffs Spec.codeUnitCompare
         [Examples.diff "Error" "1003"; Examples.diff "Warning" "1002";
          BreakingChange.mkDiff "Warning" "1002" "Other" "second"].
Proof.
  assert (H : Forall Spec.isSeverity
                [Examples.diff "Error" "1003"; Examples.diff "Warning" "1002";
                 BreakingChange.mkDiff "Warning" "1002" "Other" "second"])
    by (repeat apply List.Forall_cons; try apply List.Forall_nil; vm_compute; tauto).
  assert (P : Permutation
                [Examples.diff "Warning" "1002";
                 BreakingChange.mkDiff "Warning" "1002" "Other" "second";
                 Examples.diff "Error" "1003"]
                [Examples.diff "Error" "1003"; Examples.diff "Warning" "1002";
                 BreakingChange.mkDiff "Warning" "1002" "Other" "second"]).
  { symmetry. apply (Permutation_cons_append [_; _]). }
  split; [exact H|]. split; [exact P|].
  apply (sortDiffs_unique Spec.codeUnitCompare codeUnitCompare_collation _ _ H P).
  - repeat constructor; vm_compute; discriminate.
  - intros k. rewrite !filter_cons, !filter_nil.
    destruct (decide (BreakingChange.compareDiffs Spec.codeUnitCompare k
                        (Examples.diff "Error" "1003") = 0%Z)) as [E|E];
      [|reflexivity].
    apply (compareDiffs_zero Spec.codeUnitCompare) in E as [E _].
    destruct (decide (BreakingChange.compareDiffs Spec.codeUnitCompare k
                        (Examples.diff "Warning" "1002") = 0%Z)) as [W|W].
    { apply (compareDiffs_zero Spec.codeUnitCompare) in W as [W _].
      rewrite E in W. discriminate. }
    destruct (decide (BreakingChange.compareDiffs Spec.codeUnitCompare k
                        (BreakingChange.mkDiff "Warning" "1002" "Other" "second")
                      = 0%Z)) as [W'|W']; [|reflexivity].
    apply (compareDiffs_zero Spec.codeUnitCompare) in W' as [W' _].
    rewrite E in W'. discriminate.
Defined.
